(** * fake-gcs-server: upload pipeline and object store

    A shallow embedding of [fakestorage/object.go] (the in-memory object
    store) and of the upload handlers (simple, signed, multipart and
    resumable uploads, the Content-Range parser and the integrity digests),
    followed by the properties of the specification that were checked
    against them.

    Conventions.
    - Go [string]s are byte strings: [string] of [ascii].
    - Go [[]byte] is [list byte].
    - Go [int] is taken to be 64 bits wide ([intSize]); values are [Z] and
      the one addition that can overflow is wrapped explicitly.
    - Go maps are [gmap]s; [http.Header] and [url.Values] map a key to the
      list of its values.
    - Functions of Go's standard library are modelled by their documented
      behaviour and carry the package name as a prefix
      ([strings_HasPrefix], [strconv_Atoi], ...). *)

From Stdlib Require Import ZArith Lia Bool List Strings.Ascii Strings.String Strings.Byte.
From Stdlib Require Import Sorting.Sorted Sorting.Permutation.
From Stdlib Require Import Numbers.DecimalString.
From Stdlib Require Numbers.DecimalPos.
From stdpp Require Import base option list gmap strings.

Local Open Scope Z_scope.

(** ** Package [strings] *)

Module GoStrings.

(** [strings.HasPrefix(s, prefix)]. *)
Fixpoint strings_HasPrefix (s prefix : string) {struct prefix} : bool :=
  match prefix, s with
  | EmptyString, _ => true
  | String _ _, EmptyString => false
  | String c p, String d s' => Ascii.eqb c d && strings_HasPrefix s' p
  end.

(** [s[n:]] for [n <= len(s)]. *)
Fixpoint slice_from (n : nat) (s : string) : string :=
  match n, s with
  | O, _ => s
  | S _, EmptyString => EmptyString
  | S n', String _ s' => slice_from n' s'
  end.

(** [s[:n]] for [n <= len(s)]. *)
Fixpoint slice_to (n : nat) (s : string) : string :=
  match n, s with
  | O, _ => EmptyString
  | S _, EmptyString => EmptyString
  | S n', String c s' => String c (slice_to n' s')
  end.

(** [strings.Index(s, substr)]: the index of the first occurrence of
    [substr] in [s]; [None] stands for Go's [-1]. *)
Fixpoint strings_Index (s substr : string) : option nat :=
  if strings_HasPrefix s substr then Some O
  else match s with
       | EmptyString => None
       | String _ s' => S <$> strings_Index s' substr
       end.

(** [strings.Contains(s, substr)]. *)
Definition strings_Contains (s substr : string) : bool :=
  bool_decide (is_Some (strings_Index s substr)).

(** [strings.SplitN(s, sep, 2)] for a non-empty [sep]: cut at the first
    occurrence of [sep], or return [s] alone. *)
Definition strings_SplitN2 (s sep : string) : list string :=
  match strings_Index s sep with
  | Some i => [slice_to i s; slice_from (i + String.length sep) s]
  | None => [s]
  end.

(** [strings.Replace(s, old, new, 1)].  Go returns [s] when [old == new] or
    when [old] does not occur; an empty [old] matches at the beginning. *)
Definition strings_Replace1 (s old new : string) : string :=
  if String.eqb old new then s
  else match strings_Index s old with
       | Some j => slice_to j s +:+ new +:+ slice_from (j + String.length old) s
       | None => s
       end.

End GoStrings.
Export GoStrings.

(** ** Errors *)

(** Go [error] values that occur in this code: the sentinel [io.EOF], the
    two sentinels of [strconv] (the [*NumError] wrapper that [Atoi] puts
    around them is dropped: [parseContentRange] discards it), and errors
    that are only ever observed through their message. *)
Inductive error : Type :=
  | io_EOF
  | strconv_ErrSyntax
  | strconv_ErrRange
  | errorString (msg : string).

#[global] Instance error_eq_dec : EqDecision error.
Proof. solve_decision. Defined.

(** [err.Error()]. *)
Definition Error (e : error) : string :=
  match e with
  | io_EOF => "EOF"
  | strconv_ErrSyntax => "invalid syntax"
  | strconv_ErrRange => "value out of range"
  | errorString msg => msg
  end.

(** ** Package [strconv] *)

Module GoStrconv.

Definition intSize : Z := 64.
Definition maxInt : Z := 2 ^ (intSize - 1) - 1.
Definition minInt : Z := - 2 ^ (intSize - 1).

(** Two's-complement wrap-around of an [int] result. *)
Definition wrap_int (z : Z) : Z :=
  (z + 2 ^ (intSize - 1)) mod 2 ^ intSize - 2 ^ (intSize - 1).

Definition is_digit (c : ascii) : bool :=
  (48 <=? Z.of_N (N_of_ascii c)) && (Z.of_N (N_of_ascii c) <=? 57).

Definition digit_value (c : ascii) : Z := Z.of_N (N_of_ascii c) - 48.

(** The value of a string of decimal digits, [None] if some character is
    not a digit. *)
Fixpoint digits_value (acc : Z) (s : string) : option Z :=
  match s with
  | EmptyString => Some acc
  | String c s' =>
      if is_digit c then digits_value (acc * 10 + digit_value c) s' else None
  end.

(** Whether the digits at the start of [s], read after [acc], pass
    [1<<64 - 1] before a character that is not a digit: [ParseUint] gives
    up there with [ErrRange], without a look at the characters behind. *)
Fixpoint digits_overflow (acc : Z) (s : string) : bool :=
  match s with
  | EmptyString => false
  | String c s' =>
      if is_digit c then
        let n := acc * 10 + digit_value c in
        if 2 ^ intSize - 1 <? n then true else digits_overflow n s'
      else false
  end.

(** [strconv.Atoi(s)]: an optional sign followed by one or more decimal
    digits.  A syntax error yields 0; a value that does not fit [int]
    yields the nearest bound and [ErrRange], also when a character that is
    not a digit follows digits that have already passed [1<<64 - 1]. *)
Definition strconv_Atoi (s : string) : Z * option error :=
  match s with
  | EmptyString => (0, Some strconv_ErrSyntax)
  | String c s' =>
      let neg := Ascii.eqb c "-" in
      let body := if neg || Ascii.eqb c "+" then s' else s in
      match body with
      | EmptyString => (0, Some strconv_ErrSyntax)
      | String _ _ =>
          match digits_value 0 body with
          | None =>
              if digits_overflow 0 body then
                (if neg then minInt else maxInt, Some strconv_ErrRange)
              else (0, Some strconv_ErrSyntax)
          | Some n =>
              if neg then
                if n <=? - minInt then (- n, None)
                else (minInt, Some strconv_ErrRange)
              else
                if n <=? maxInt then (n, None)
                else (maxInt, Some strconv_ErrRange)
          end
      end
  end.

End GoStrconv.
Export GoStrconv.

(** ** The Content-Range parser *)

Record contentRange : Type := mkContentRange {
  KnownRange : bool;  (* Is the range known, or "*"? *)
  KnownTotal : bool;  (* Is the total known, or "*"? *)
  Start : Z;          (* Start of the range, -1 if unknown *)
  End : Z;            (* End of the range, -1 if unknown *)
  Total : Z           (* Total bytes expected, -1 if unknown *)
}.

#[global] Instance contentRange_eq_dec : EqDecision contentRange.
Proof. solve_decision. Defined.

(** The zero value of the named result [parsed]. *)
Definition contentRange_zero : contentRange :=
  mkContentRange false false 0 0 0.

Definition set_KnownRange (b : bool) (p : contentRange) : contentRange :=
  mkContentRange b (KnownTotal p) (Start p) (End p) (Total p).
Definition set_KnownTotal (b : bool) (p : contentRange) : contentRange :=
  mkContentRange (KnownRange p) b (Start p) (End p) (Total p).
Definition set_Start (z : Z) (p : contentRange) : contentRange :=
  mkContentRange (KnownRange p) (KnownTotal p) z (End p) (Total p).
Definition set_End (z : Z) (p : contentRange) : contentRange :=
  mkContentRange (KnownRange p) (KnownTotal p) (Start p) z (Total p).
Definition set_Total (z : Z) (p : contentRange) : contentRange :=
  mkContentRange (KnownRange p) (KnownTotal p) (Start p) (End p) z.

Definition bytesPrefix : string := "bytes ".

(** "Process range": the first half of [parseContentRange], on [parts[0]].
    The result carries [parsed] as it stands when the function leaves this
    block, and whether it leaves with [invalidErr]. *)
Definition parseContentRange_range (part0 : string) (parsed : contentRange)
  : contentRange * bool :=
  if String.eqb part0 "*" then
    (set_End (-1) (set_Start (-1) parsed), false)
  else
    match strings_SplitN2 part0 "-" with
    | [r0; r1] =>
        let parsed := set_KnownRange true parsed in
        let '(v, err) := strconv_Atoi r0 in
        let parsed := set_Start v parsed in
        match err with
        | Some _ => (parsed, true)
        | None =>
            let '(v, err) := strconv_Atoi r1 in
            let parsed := set_End v parsed in
            match err with
            | Some _ => (parsed, true)
            | None => (parsed, false)
            end
        end
    | _ => (parsed, true)
    end.

(** "Process total length": the second half, on [parts[1]]. *)
Definition parseContentRange_total (part1 : string) (parsed : contentRange)
  : contentRange * bool :=
  if String.eqb part1 "*" then
    let parsed := set_Total (-1) parsed in
    if negb (KnownRange parsed) then (parsed, true) else (parsed, false)
  else
    let parsed := set_KnownTotal true parsed in
    let '(v, err) := strconv_Atoi part1 in
    let parsed := set_Total v parsed in
    match err with
    | Some _ => (parsed, true)
    | None => (parsed, false)
    end.

(** [parseContentRange(r)]: returns [(parsed, err)] as the Go function
    does; [err] is [None] for Go's [nil]. *)
Definition parseContentRange (r : string) : contentRange * option error :=
  let invalidErr := Some (errorString ("invalid Content-Range: " +:+ r)) in
  let parsed := contentRange_zero in
  if negb (strings_HasPrefix r bytesPrefix) then (parsed, invalidErr)
  else
    match strings_SplitN2 (slice_from (String.length bytesPrefix) r) "/" with
    | [part0; part1] =>
        let '(parsed, bad) := parseContentRange_range part0 parsed in
        if bad then (parsed, invalidErr)
        else
          let '(parsed, bad) := parseContentRange_total part1 parsed in
          if bad then (parsed, invalidErr) else (parsed, None)
    | _ => (parsed, invalidErr)
    end.

(** ** Integrity digests *)

Module Digest.

Definition byte_to_Z (b : byte) : Z := Z.of_N (Byte.to_N b).

(** The conversion [byte(x)]: the low eight bits. *)
Definition byte_of_Z (z : Z) : byte :=
  default x00 (Byte.of_N (Z.to_N (z mod 256))).

Definition mask32 : Z := 0xffffffff.
Definition add32 (a b : Z) : Z := (a + b) mod 2 ^ 32.
Definition not32 (a : Z) : Z := Z.lxor a mask32.
Definition rotl32 (x : Z) (n : Z) : Z :=
  Z.lor (Z.land (Z.shiftl x n) mask32) (Z.shiftr x (32 - n)).

(** *** [hash/crc32] with the Castagnoli polynomial *)

Definition crc32_Castagnoli : Z := 0x82f63b78.

Fixpoint crc32_table_entry (n : nat) (poly crc : Z) : Z :=
  match n with
  | O => crc
  | S n' =>
      crc32_table_entry n' poly
        (if Z.testbit crc 0 then Z.lxor (Z.shiftr crc 1) poly
         else Z.shiftr crc 1)
  end.

(** [crc32.MakeTable(poly)[i]]. *)
Definition crc32_MakeTable (poly : Z) (i : Z) : Z := crc32_table_entry 8 poly i.

Definition crc32cTable : Z -> Z := crc32_MakeTable crc32_Castagnoli.

(** [crc32.Update(crc, tab, p)]. *)
Definition crc32_Update (crc : Z) (tab : Z -> Z) (p : list byte) : Z :=
  not32
    (fold_left
       (fun crc v =>
          Z.lxor (tab (Z.lxor (Z.land crc 255) (byte_to_Z v))) (Z.shiftr crc 8))
       p (not32 crc)).

(** The four bytes of a 32-bit value, most significant first. *)
Definition be32 (s : Z) : list byte :=
  [byte_of_Z (Z.shiftr s 24); byte_of_Z (Z.shiftr s 16);
   byte_of_Z (Z.shiftr s 8); byte_of_Z s].

Definition crc32cChecksum (content : list byte) : list byte :=
  be32 (crc32_Update 0 crc32cTable content).

(** *** [crypto/md5] (RFC 1321) *)

Definition md5_K : list Z :=
  [0xd76aa478; 0xe8c7b756; 0x242070db; 0xc1bdceee;
   0xf57c0faf; 0x4787c62a; 0xa8304613; 0xfd469501;
   0x698098d8; 0x8b44f7af; 0xffff5bb1; 0x895cd7be;
   0x6b901122; 0xfd987193; 0xa679438e; 0x49b40821;
   0xf61e2562; 0xc040b340; 0x265e5a51; 0xe9b6c7aa;
   0xd62f105d; 0x02441453; 0xd8a1e681; 0xe7d3fbc8;
   0x21e1cde6; 0xc33707d6; 0xf4d50d87; 0x455a14ed;
   0xa9e3e905; 0xfcefa3f8; 0x676f02d9; 0x8d2a4c8a;
   0xfffa3942; 0x8771f681; 0x6d9d6122; 0xfde5380c;
   0xa4beea44; 0x4bdecfa9; 0xf6bb4b60; 0xbebfbc70;
   0x289b7ec6; 0xeaa127fa; 0xd4ef3085; 0x04881d05;
   0xd9d4d039; 0xe6db99e5; 0x1fa27cf8; 0xc4ac5665;
   0xf4292244; 0x432aff97; 0xab9423a7; 0xfc93a039;
   0x655b59c3; 0x8f0ccc92; 0xffeff47d; 0x85845dd1;
   0x6fa87e4f; 0xfe2ce6e0; 0xa3014314; 0x4e0811a1;
   0xf7537e82; 0xbd3af235; 0x2ad7d2bb; 0xeb86d391].

Definition md5_S : list Z :=
  [7; 12; 17; 22; 7; 12; 17; 22; 7; 12; 17; 22; 7; 12; 17; 22;
   5; 9; 14; 20; 5; 9; 14; 20; 5; 9; 14; 20; 5; 9; 14; 20;
   4; 11; 16; 23; 4; 11; 16; 23; 4; 11; 16; 23; 4; 11; 16; 23;
   6; 10; 15; 21; 6; 10; 15; 21; 6; 10; 15; 21; 6; 10; 15; 21].

Record md5_state : Type := mkMd5 { md5_a : Z; md5_b : Z; md5_c : Z; md5_d : Z }.

Definition md5_init : md5_state :=
  mkMd5 0x67452301 0xefcdab89 0x98badcfe 0x10325476.

(** A little-endian 32-bit word from four bytes. *)
Definition le32_word (bs : list byte) : Z :=
  fold_right (fun b acc => byte_to_Z b + 256 * acc) 0 (take 4 bs).

Fixpoint le32_words (n : nat) (bs : list byte) : list Z :=
  match n with
  | O => []
  | S n' => le32_word bs :: le32_words n' (drop 4 bs)
  end.

Definition md5_round (m : list Z) (st : md5_state) (i : nat) : md5_state :=
  let '(mkMd5 a b c d) := st in
  let zi := Z.of_nat i in
  let '(f, g) :=
    if zi <? 16 then
      (Z.lor (Z.land b c) (Z.land (not32 b) d), zi)
    else if zi <? 32 then
      (Z.lor (Z.land d b) (Z.land (not32 d) c), (5 * zi + 1) mod 16)
    else if zi <? 48 then
      (Z.lxor (Z.lxor b c) d, (3 * zi + 5) mod 16)
    else
      (Z.lxor c (Z.lor b (not32 d)), (7 * zi) mod 16) in
  let f :=
    add32 (add32 (add32 f a) (nth i md5_K 0)) (nth (Z.to_nat g) m 0) in
  mkMd5 d (add32 b (rotl32 f (nth i md5_S 0))) b c.

Definition md5_block (st : md5_state) (block : list byte) : md5_state :=
  let m := le32_words 16 block in
  let '(mkMd5 a b c d) := fold_left (md5_round m) (seq 0 64) st in
  mkMd5 (add32 (md5_a st) a) (add32 (md5_b st) b)
        (add32 (md5_c st) c) (add32 (md5_d st) d).

Fixpoint md5_blocks (n : nat) (st : md5_state) (bs : list byte) : md5_state :=
  match n with
  | O => st
  | S n' => md5_blocks n' (md5_block st (take 64 bs)) (drop 64 bs)
  end.

(** The little-endian bytes of a value, [n] of them. *)
Fixpoint le_bytes (n : nat) (z : Z) : list byte :=
  match n with
  | O => []
  | S n' => byte_of_Z z :: le_bytes n' (Z.shiftr z 8)
  end.

(** Padding: a one bit, zeros up to 56 modulo 64, and the bit length. *)
Definition md5_pad (b : list byte) : list byte :=
  let len := Z.of_nat (length b) in
  let zeros := Z.to_nat ((55 - len) mod 64) in
  b ++ [x80] ++ repeat x00 zeros ++ le_bytes 8 ((8 * len) mod 2 ^ 64).

Definition md5Hash (b : list byte) : list byte :=
  let padded := md5_pad b in
  let st := md5_blocks (length padded / 64)%nat md5_init padded in
  le_bytes 4 (md5_a st) ++ le_bytes 4 (md5_b st)
  ++ le_bytes 4 (md5_c st) ++ le_bytes 4 (md5_d st).

(** *** [encoding/base64], standard alphabet with padding *)

Definition base64_alphabet : string :=
  "ABCDEFGHIJKLMNOPQRSTUVWXYZabcdefghijklmnopqrstuvwxyz0123456789+/".

Definition base64_char (z : Z) : ascii :=
  default "="%char (String.get (Z.to_nat z) base64_alphabet).

(** [base64.StdEncoding.EncodeToString(src)]: three bytes give four
    characters, a last group of one or two bytes is padded with "=". *)
Fixpoint base64_EncodeToString (src : list byte) : string :=
  match src with
  | [] => EmptyString
  | [b0] =>
      let v := byte_to_Z b0 * 65536 in
      String (base64_char (Z.shiftr v 18))
        (String (base64_char (Z.land (Z.shiftr v 12) 63)) "==")
  | [b0; b1] =>
      let v := byte_to_Z b0 * 65536 + byte_to_Z b1 * 256 in
      String (base64_char (Z.shiftr v 18))
        (String (base64_char (Z.land (Z.shiftr v 12) 63))
           (String (base64_char (Z.land (Z.shiftr v 6) 63)) "="))
  | b0 :: b1 :: b2 :: rest =>
      let v := byte_to_Z b0 * 65536 + byte_to_Z b1 * 256 + byte_to_Z b2 in
      String (base64_char (Z.shiftr v 18))
        (String (base64_char (Z.land (Z.shiftr v 12) 63))
           (String (base64_char (Z.land (Z.shiftr v 6) 63))
              (String (base64_char (Z.land v 63))
                 (base64_EncodeToString rest))))
  end.

Definition encodedChecksum (checksum : list byte) : string :=
  base64_EncodeToString checksum.

Definition encodedCrc32cChecksum (content : list byte) : string :=
  encodedChecksum (crc32cChecksum content).

Definition encodedHash (hash : list byte) : string :=
  base64_EncodeToString hash.

Definition encodedMd5Hash (content : list byte) : string :=
  encodedHash (md5Hash content).

(** The bytes of a string, for writing test content. *)
Definition bytes_of_string (s : string) : list byte := list_byte_of_string s.

End Digest.
Export Digest.

(** ** Objects *)

(** [storage.ACLRule], reduced to the two fields the handlers set. *)
Record ACLRule : Type := mkACLRule { Entity : string; Role : string }.

#[global] Instance ACLRule_eq_dec : EqDecision ACLRule.
Proof. solve_decision. Defined.

#[global] Instance byte_eq_dec : EqDecision byte := Byte.byte_eq_dec.

(** [Object].  [object.go] declares the first three fields; the upload
    handlers build objects with all nine, so the record has them all.  The
    store only ever looks at [BucketName] and [Name]. *)
Record Object : Type := mkObject {
  BucketName : string;
  Name : string;
  Content : list byte;
  ContentType : string;
  ContentEncoding : string;
  Crc32c : string;
  Md5Hash : string;
  ACL : list ACLRule;
  Metadata : gmap string string
}.

#[global] Instance Object_eq_dec : EqDecision Object.
Proof. solve_decision. Defined.

(** The zero value [Object{}]. *)
Definition Object_zero : Object :=
  mkObject "" "" [] "" "" "" "" [] ∅.

Definition set_Content (c : list byte) (o : Object) : Object :=
  mkObject (BucketName o) (Name o) c (ContentType o) (ContentEncoding o)
           (Crc32c o) (Md5Hash o) (ACL o) (Metadata o).
Definition set_ContentType (t : string) (o : Object) : Object :=
  mkObject (BucketName o) (Name o) (Content o) t (ContentEncoding o)
           (Crc32c o) (Md5Hash o) (ACL o) (Metadata o).
Definition set_Crc32c (c : string) (o : Object) : Object :=
  mkObject (BucketName o) (Name o) (Content o) (ContentType o)
           (ContentEncoding o) c (Md5Hash o) (ACL o) (Metadata o).
Definition set_Md5Hash (h : string) (o : Object) : Object :=
  mkObject (BucketName o) (Name o) (Content o) (ContentType o)
           (ContentEncoding o) (Crc32c o) h (ACL o) (Metadata o).

(** [o.id()]. *)
Definition id (o : Object) : string := BucketName o +:+ "/" +:+ Name o.

(** ** The object store of [object.go] *)

Module Store.

(** The part of [Server] that [object.go] uses: the bucket map.  The mutex
    is not modelled; every operation below is one critical section. *)
Record Server : Type := mkServer {
  buckets : gmap string (list Object)
}.

(** [s.buckets[name]]: a missing key reads as the nil slice. *)
Definition bucket (s : Server) (name : string) : list Object :=
  default [] (buckets s !! name).

(** The loop of [findObject] from position [i] on. *)
Fixpoint findObject_from (i : Z) (objs : list Object) (obj : Object) : Z :=
  match objs with
  | [] => -1
  | o :: rest =>
      if String.eqb (id obj) (id o) then i
      else findObject_from (i + 1) rest obj
  end.

(** [s.findObject(obj)]: the index of the first object of the bucket with
    the id of [obj], or -1. *)
Definition findObject (s : Server) (obj : Object) : Z :=
  findObject_from 0 (bucket s (BucketName obj)) obj.

(** [s.CreateObject(obj)]. *)
Definition CreateObject (s : Server) (obj : Object) : Server :=
  let index := findObject s obj in
  if index <? 0 then
    mkServer (<[BucketName obj := bucket s (BucketName obj) ++ [obj]]> (buckets s))
  else
    mkServer (<[BucketName obj :=
                  <[Z.to_nat index := obj]> (bucket s (BucketName obj))]>
                (buckets s)).

(** [s.GetObject(bucketName, objectName)].  The index returned by
    [findObject] is within the bucket ([findObject_in_range]), so the
    default of the lookup is never used. *)
Definition GetObject (s : Server) (bucketName objectName : string)
  : Object * option error :=
  let obj := mkObject bucketName objectName [] "" "" "" "" [] ∅ in
  let index := findObject s obj in
  if index <? 0 then (obj, Some (errorString "object not found"))
  else (default obj (bucket s bucketName !! Z.to_nat index), None).

(** The [less] function handed to [sort.Slice]: byte-wise [<] on names. *)
Definition name_less (a b : Object) : bool := String.ltb (Name a) (Name b).

(** The filter applied by the loop of [ListObjects] to one object. *)
Definition list_keeps (prefix delimiter : string) (obj : Object) : bool :=
  if strings_HasPrefix (Name obj) prefix then
    let objName := strings_Replace1 (Name obj) prefix "" in
    String.eqb delimiter "" || negb (strings_Contains objName delimiter)
  else false.

Section ListObjects.

(** [sort.Slice(objects, less)], which sorts in place and is not stable;
    it is a parameter here, constrained by [sort_Slice_spec] below. *)
Variable sort_Slice : (Object -> Object -> bool) -> list Object -> list Object.

(** [s.ListObjects(bucketName, prefix, delimiter)].  The sort is done in
    place on the slice the map holds, so the bucket is left sorted in the
    store. *)
Definition ListObjects (s : Server) (bucketName prefix delimiter : string)
  : Server * (list Object * option error) :=
  match buckets s !! bucketName with
  | None => (s, ([], Some (errorString "bucket not found")))
  | Some objects =>
      let objects := sort_Slice name_less objects in
      let respObjects := List.filter (list_keeps prefix delimiter) objects in
      (mkServer (<[bucketName := objects]> (buckets s)), (respObjects, None))
  end.

End ListObjects.

(** What [sort.Slice] guarantees for the comparison by name: the result is
    a rearrangement of the input in which no object is followed by one with
    a smaller name. *)
Definition sort_Slice_spec
    (sort_Slice : (Object -> Object -> bool) -> list Object -> list Object)
  : Prop :=
  forall l,
    Permutation (sort_Slice name_less l) l /\
    StronglySorted (fun a b => name_less b a = false) (sort_Slice name_less l).

(** An insertion sort, as one function that meets [sort_Slice_spec]. *)
Fixpoint insert_sorted (less : Object -> Object -> bool) (x : Object)
    (l : list Object) : list Object :=
  match l with
  | [] => [x]
  | y :: l' => if less y x then y :: insert_sorted less x l' else x :: l
  end.

Definition insertion_sort (less : Object -> Object -> bool) (l : list Object)
  : list Object :=
  fold_right (insert_sorted less) [] l.

End Store.

(** ** HTTP requests and responses *)

Module Http.

Definition is_upper (c : ascii) : bool :=
  (65 <=? Z.of_N (N_of_ascii c)) && (Z.of_N (N_of_ascii c) <=? 90).
Definition is_lower (c : ascii) : bool :=
  (97 <=? Z.of_N (N_of_ascii c)) && (Z.of_N (N_of_ascii c) <=? 122).
Definition to_upper (c : ascii) : ascii :=
  if is_lower c then ascii_of_N (N_of_ascii c - 32) else c.
Definition to_lower (c : ascii) : ascii :=
  if is_upper c then ascii_of_N (N_of_ascii c + 32) else c.

(** The two loops of [strings.ToLower]: whether every byte of [s] is below
    [utf8.RuneSelf], and for such a string the copy in which the letters
    A to Z are replaced by a to z. *)
Fixpoint isASCII (s : string) : bool :=
  match s with
  | EmptyString => true
  | String c s' => (Z.of_N (N_of_ascii c) <? 128) && isASCII s'
  end.

Fixpoint lower_ASCII (s : string) : string :=
  match s with
  | EmptyString => EmptyString
  | String c s' => String (to_lower c) (lower_ASCII s')
  end.

(** [strings.TrimPrefix(s, prefix)]. *)
Definition strings_TrimPrefix (s prefix : string) : string :=
  if strings_HasPrefix s prefix then slice_from (String.length prefix) s else s.

(** The bytes allowed in a header field name (RFC 7230 token). *)
Definition validHeaderFieldByte (c : ascii) : bool :=
  is_upper c || is_lower c || is_digit c
  || bool_decide (is_Some (String.index 0 (String c EmptyString) "!#$%&'*+-.^_`|~")).

Fixpoint string_forallb (f : ascii -> bool) (s : string) : bool :=
  match s with
  | EmptyString => true
  | String c s' => f c && string_forallb f s'
  end.

Fixpoint canonical_case (upper : bool) (s : string) : string :=
  match s with
  | EmptyString => EmptyString
  | String c s' =>
      let c' := if upper then to_upper c else to_lower c in
      String c' (canonical_case (Ascii.eqb c' "-") s')
  end.

(** [textproto.CanonicalMIMEHeaderKey(s)]: a key with a byte that is not
    allowed in a field name is returned unchanged. *)
Definition CanonicalMIMEHeaderKey (s : string) : string :=
  if string_forallb validHeaderFieldByte s then canonical_case true s else s.

(** [h.Get(key)] of [http.Header]: the first value under the canonical form
    of [key], or the empty string. *)
Definition Header_Get (h : gmap string (list string)) (key : string) : string :=
  match h !! CanonicalMIMEHeaderKey key with
  | Some (v :: _) => v
  | _ => ""
  end.

(** [h.Set(key, value)] of [http.Header]. *)
Definition Header_Set (h : gmap string (list string)) (key value : string)
  : gmap string (list string) :=
  <[CanonicalMIMEHeaderKey key := [value]]> h.

(** [_, ok := h[key]]: a plain map lookup, the key is taken as it is. *)
Definition Header_has (h : gmap string (list string)) (key : string) : bool :=
  bool_decide (is_Some (h !! key)).

(** [v.Get(key)] of [url.Values]: no canonical form here. *)
Definition Values_Get (v : gmap string (list string)) (key : string) : string :=
  match v !! key with
  | Some (x :: _) => x
  | _ => ""
  end.

(** An [io.ReadCloser] as seen by a consumer that reads it to the end: the
    bytes it delivers, and the error other than [io.EOF] that ends it, if
    any. *)
Record Reader : Type := mkReader {
  delivered : list byte;
  failure : option string
}.

(** [ioutil.ReadAll(r)]: end of input is success. *)
Definition ioutil_ReadAll (r : Reader) : list byte * option error :=
  (delivered r, errorString <$> failure r).

(** [*http.Request], with the route variables of [mux.Vars(r)]. *)
Record Request : Type := mkRequest {
  Method : string;
  Vars : gmap string string;
  Query : gmap string (list string);
  Header : gmap string (list string);
  Body : Reader
}.

(** [mux.Vars(r)[key]]. *)
Definition mux_Var (r : Request) (key : string) : string :=
  default "" (Vars r !! key).

(** [*multipart.Part]. *)
Record Part : Type := mkPart {
  PartHeader : gmap string (list string);
  PartBody : Reader
}.

Definition StatusOK : Z := 200.
Definition StatusPermanentRedirect : Z := 308.
Definition StatusBadRequest : Z := 400.
Definition StatusNotFound : Z := 404.
Definition StatusPreconditionFailed : Z := 412.
Definition StatusNotImplemented : Z := 501.

(** [jsonResponse]; a field the Go code leaves out has its zero value. *)
Record jsonResponse : Type := mkJsonResponse {
  status : Z;
  errorMessage : string;
  data : option Object;
  header : gmap string (list string)
}.

#[global] Instance jsonResponse_eq_dec : EqDecision jsonResponse.
Proof. solve_decision. Defined.

Definition jsonResponse_status (st : Z) : jsonResponse :=
  mkJsonResponse st "" None ∅.
Definition jsonResponse_error (st : Z) (msg : string) : jsonResponse :=
  mkJsonResponse st msg None ∅.
Definition jsonResponse_data (obj : Object) : jsonResponse :=
  mkJsonResponse 0 "" (Some obj) ∅.

(** How a Go call ends: it returns, or it panics (here only ever with a
    nil pointer dereference). *)
Inductive outcome (A : Type) : Type :=
  | Returns (a : A)
  | Panics (msg : string).
Arguments Returns {A} a.
Arguments Panics {A} msg.

Definition nil_dereference : string :=
  "runtime error: invalid memory address or nil pointer dereference".

(** [fmt.Sprintf("%d", n)]. *)
Definition fmt_d (n : Z) : string := NilZero.string_of_int (Z.to_int n).

Definition hex_digit (z : Z) : ascii :=
  default "0"%char (String.get (Z.to_nat z) "0123456789abcdef").

(** [fmt.Sprintf("%x", raw)] on a byte slice: two lower-case hexadecimal
    digits per byte. *)
Fixpoint fmt_x (raw : list byte) : string :=
  match raw with
  | [] => EmptyString
  | b :: rest =>
      String (hex_digit (byte_to_Z b / 16))
        (String (hex_digit (byte_to_Z b mod 16)) (fmt_x rest))
  end.

End Http.
Export Http.

(** ** The upload handlers *)

Module Meta.
(** [multipartMetadata]. *)
Record multipartMetadata : Type := mk {
  ContentType : string;
  ContentEncoding : string;
  Name : string;
  Metadata : gmap string string
}.
Definition zero : multipartMetadata := mk "" "" "" ∅.
End Meta.
Abbreviation multipartMetadata := Meta.multipartMetadata.

(** The library calls whose results depend on parsing that is not modelled
    here.  Each is an arbitrary function of what the Go call is given. *)
Class GoLib : Type := {
  (** [json.NewDecoder(rc).Decode(&m)] on a zero [m]: the value of [m]
      afterwards, and the error.  An empty input gives [io.EOF]. *)
  json_Decode : Reader -> multipartMetadata * option error;
  (** [mime.ParseMediaType(v)]: the parameters and the error. *)
  mime_ParseMediaType : string -> gmap string string * option error;
  (** [multipart.NewReader(body, boundary)] followed by calls of
      [NextPart] until one fails: the parts returned, and the error (never
      nil, [io.EOF] after the closing boundary) of the call that failed. *)
  multipart_parts : Reader -> string -> list Part * error;
  (** [strings.Map(unicode.ToLower, s)], which [strings.ToLower] returns
      for a string with a byte outside ASCII. *)
  strings_Map_ToLower : string -> string
}.

(** The storage behind the handlers: [s.backend] and [s.createObject],
    neither of which is in the sources at hand.  [B] is its state. *)
Class Backend (B : Type) : Type := {
  (** the error of [s.backend.GetBucket(name)] *)
  backend_GetBucket : B -> string -> option error;
  (** the error of [s.backend.GetObject(bucketName, objectName)] *)
  backend_GetObject : B -> string -> string -> option error;
  (** [s.createObject(obj)] *)
  createObject : B -> Object -> B * (Object * option error)
}.

Module Upload.

(** The part of [Server] the upload handlers use: the backend, the table
    of resumable sessions ([s.uploads], a [sync.Map] from upload id to
    [Object]) and the server's address ([s.URL()]). *)
Record Server (B : Type) : Type := mkServer {
  backend : B;
  uploads : gmap string Object;
  URL : string
}.
Arguments mkServer {B} _ _ _.
Arguments backend {B} _.
Arguments uploads {B} _.
Arguments URL {B} _.

Definition set_backend {B} (b : B) (s : Server B) : Server B :=
  mkServer b (uploads s) (URL s).
Definition set_uploads {B} (u : gmap string Object) (s : Server B) : Server B :=
  mkServer (backend s) u (URL s).

Definition contentTypeHeader : string := "Content-Type".
Definition uploadTypeMedia : string := "media".
Definition uploadTypeMultipart : string := "multipart".
Definition uploadTypeResumable : string := "resumable".

Definition getObjectACL (predefinedACL : string) : list ACLRule :=
  if String.eqb predefinedACL "publicRead" then [mkACLRule "allUsers" "READER"]
  else [mkACLRule "projectOwner" "OWNER"].

Definition loadContent (rc : Reader) : list byte * option error :=
  ioutil_ReadAll rc.

(** [generateUploadID()], given what [rand.Read] did with the 16-byte
    buffer: the bytes it left there and its error. *)
Definition generateUploadID (rand_Read : list byte * option error)
  : string * option error :=
  match snd rand_Read with
  | Some err => ("", Some err)
  | None => (fmt_x (fst rand_Read), None)
  end.

Section Handlers.

Context `{GoLib} {B : Type} `{Backend B}.

Definition loadMetadata (rc : Reader) : multipartMetadata * option error :=
  json_Decode rc.

(** [s.checkUploadPreconditions(r, bucketName, objectName)]: [None] is the
    nil response. *)
Definition checkUploadPreconditions (s : Server B) (r : Request)
    (bucketName objectName : string) : option jsonResponse :=
  let ifGenerationMatch := Values_Get (Query r) "ifGenerationMatch" in
  if String.eqb ifGenerationMatch "0" then
    match backend_GetObject (backend s) bucketName objectName with
    | None =>
        Some (jsonResponse_error StatusPreconditionFailed "Precondition failed")
    | Some _ => None
    end
  else if negb (String.eqb ifGenerationMatch "")
          || negb (String.eqb (Values_Get (Query r) "ifGenerationNotMatch") "")
  then
    Some (jsonResponse_error StatusNotImplemented
            "Precondition support not implemented")
  else None.

(** The common end of the handlers: [obj, err = s.createObject(obj)] and
    the response built from it. *)
Definition store_and_reply (s : Server B) (obj : Object)
  : Server B * jsonResponse :=
  let '(b, (obj, err)) := createObject (backend s) obj in
  match err with
  | Some e => (set_backend b s, jsonResponse_error 0 (Error e))
  | None => (set_backend b s, jsonResponse_data obj)
  end.

Definition simpleUpload (s : Server B) (bucketName : string) (r : Request)
  : Server B * jsonResponse :=
  let name := Values_Get (Query r) "name" in
  let predefinedACL := Values_Get (Query r) "predefinedAcl" in
  let contentEncoding := Values_Get (Query r) "contentEncoding" in
  if String.eqb name "" then
    (s, jsonResponse_error StatusBadRequest "name is required for simple uploads")
  else
    match ioutil_ReadAll (Body r) with
    | (_, Some err) => (s, jsonResponse_error 0 (Error err))
    | (data, None) =>
        store_and_reply s
          (mkObject bucketName name data
             (Header_Get (Header r) contentTypeHeader) contentEncoding
             (encodedCrc32cChecksum data) (encodedMd5Hash data)
             (getObjectACL predefinedACL) ∅)
    end.

(** [strings.ToLower(s)]. *)
Definition strings_ToLower (s : string) : string :=
  if isASCII s then lower_ASCII s else strings_Map_ToLower s.

(** The loop [for key := range r.Header] of [signedUpload].  [range_Header]
    is the sequence of keys that the range statement yields in this run:
    every key of the map once, in an order that Go leaves open. *)
Definition signed_metaData (range_Header : list string)
    (h : gmap string (list string)) : gmap string string :=
  fold_left
    (fun metaData key =>
       let lowerKey := strings_ToLower key in
       let metaDataKey := strings_TrimPrefix lowerKey "x-goog-meta-" in
       if negb (String.eqb metaDataKey lowerKey)
       then <[metaDataKey := Header_Get h key]> metaData
       else metaData)
    range_Header ∅.

(** [s.signedUpload(bucketName, r)]; [range_Header] is what the range over
    [r.Header] yields for this request. *)
Definition signedUpload (s : Server B) (bucketName : string) (r : Request)
    (range_Header : list string) : Server B * jsonResponse :=
  let name := mux_Var r "objectName" in
  let predefinedACL := Values_Get (Query r) "predefinedAcl" in
  let contentEncoding := Values_Get (Query r) "contentEncoding" in
  let contentEncoding :=
    if String.eqb contentEncoding ""
    then Header_Get (Header r) "Content-Encoding" else contentEncoding in
  let metaData := signed_metaData range_Header (Header r) in
  match ioutil_ReadAll (Body r) with
  | (_, Some err) => (s, jsonResponse_error 0 (Error err))
  | (data, None) =>
      store_and_reply s
        (mkObject bucketName name data
           (Header_Get (Header r) contentTypeHeader) contentEncoding
           (encodedCrc32cChecksum data) (encodedMd5Hash data)
           (getObjectACL predefinedACL) metaData)
  end.

(** The local variables of [multipartUpload] that its loop assigns;
    [mp_metadata] is a pointer, [None] while it is nil. *)
Record multipart_vars : Type := mkVars {
  mp_metadata : option multipartMetadata;
  mp_content : list byte;
  mp_contentType : string
}.

(** The loop [for ; err == nil; part, err = reader.NextPart()] over the
    parts that [NextPart] returns; [final] is the error of the call of
    [NextPart] that ends them.  The result is the value of [err] and of the
    variables when the loop is left. *)
Fixpoint multipart_loop (parts : list Part) (final : error)
    (v : multipart_vars) : error * multipart_vars :=
  match parts with
  | [] => (final, v)
  | part :: rest =>
      match mp_metadata v with
      | None =>
          let '(m, err) := loadMetadata (PartBody part) in
          let v := mkVars (Some m) (mp_content v) (Meta.ContentType m) in
          match err with
          | Some e => (e, v)
          | None => multipart_loop rest final v
          end
      | Some m =>
          let contentType := Header_Get (PartHeader part) contentTypeHeader in
          let '(content, err) := loadContent (PartBody part) in
          let v := mkVars (Some m) content contentType in
          match err with
          | Some e => (e, v)
          | None => multipart_loop rest final v
          end
      end
  end.

Definition multipartUpload (s : Server B) (bucketName : string) (r : Request)
  : Server B * outcome jsonResponse :=
  match mime_ParseMediaType (Header_Get (Header r) contentTypeHeader) with
  | (_, Some _) =>
      (s, Returns (jsonResponse_error StatusBadRequest "invalid Content-Type header"))
  | (params, None) =>
      let '(parts, final) :=
        multipart_parts (Body r) (default "" (params !! "boundary")) in
      let '(err, v) := multipart_loop parts final (mkVars None [] "") in
      if negb (bool_decide (err = io_EOF)) then
        (s, Returns (jsonResponse_error 0 (Error err)))
      else
        let objName := Values_Get (Query r) "name" in
        let predefinedACL := Values_Get (Query r) "predefinedAcl" in
        match mp_metadata v, String.eqb objName "" with
        | None, true => (s, Panics nil_dereference)    (* metadata.Name *)
        | _, _ =>
            let objName :=
              if String.eqb objName ""
              then from_option Meta.Name "" (mp_metadata v) else objName in
            match checkUploadPreconditions s r bucketName objName with
            | Some resp => (s, Returns resp)
            | None =>
                match mp_metadata v with
                | None => (s, Panics nil_dereference)  (* metadata.ContentEncoding *)
                | Some metadata =>
                    let content := mp_content v in
                    let '(s', resp) :=
                      store_and_reply s
                        (mkObject bucketName objName content (mp_contentType v)
                           (Meta.ContentEncoding metadata)
                           (encodedCrc32cChecksum content)
                           (encodedMd5Hash content)
                           (getObjectACL predefinedACL)
                           (Meta.Metadata metadata)) in
                    (s', Returns resp)
                end
            end
        end
  end.

(** [s.resumableUpload(bucketName, r)]; [rand_Read] is what the call of
    [rand.Read] inside [generateUploadID] yields for this request. *)
Definition resumableUpload (s : Server B) (bucketName : string) (r : Request)
    (rand_Read : list byte * option error) : Server B * jsonResponse :=
  let predefinedACL := Values_Get (Query r) "predefinedAcl" in
  let contentEncoding := Values_Get (Query r) "contentEncoding" in
  match loadMetadata (Body r) with
  | (_, Some err) => (s, jsonResponse_error 0 (Error err))
  | (metadata, None) =>
      let objName := Values_Get (Query r) "name" in
      let objName := if String.eqb objName "" then Meta.Name metadata else objName in
      let obj :=
        mkObject bucketName objName [] "" contentEncoding "" ""
                 (getObjectACL predefinedACL) (Meta.Metadata metadata) in
      match generateUploadID rand_Read with
      | (_, Some err) => (s, jsonResponse_error 0 (Error err))
      | (uploadID, None) =>
          let s := set_uploads (<[uploadID := obj]> (uploads s)) s in
          let header :=
            Header_Set ∅ "Location" (URL s +:+ "/upload/resumable/" +:+ uploadID) in
          let header :=
            if String.eqb (Header_Get (Header r) "X-Goog-Upload-Command") "start"
            then
              Header_Set
                (Header_Set header "X-Goog-Upload-URL"
                   (URL s +:+ "/upload/resumable/" +:+ uploadID))
                "X-Goog-Upload-Status" "active"
            else header in
          (s, mkJsonResponse 0 "" (Some obj) header)
      end
  end.

(** The commit decision of [uploadFileContent]: from the parsed
    Content-Range and the length of the accumulated content, the response
    header so far and the value of [commit]. *)
Definition commit_decision (parsed : contentRange) (len : nat)
  : gmap string (list string) * bool :=
  if KnownRange parsed then
    (Header_Set ∅ "Range" ("bytes=0-" +:+ fmt_d (End parsed)),
     KnownTotal parsed && (Total parsed <=? wrap_int (End parsed + 1)))
  else
    (Header_Set ∅ "Range" ("bytes=0-" +:+ fmt_d (Z.of_nat len)), true).

(** The end of [uploadFileContent], from [if commit] on. *)
Definition uploadFileContent_finish (s : Server B) (r : Request)
    (uploadID : string) (obj : Object) (commit : bool)
    (responseHeader : gmap string (list string)) : Server B * jsonResponse :=
  let finalize (h : gmap string (list string)) :=
    if String.eqb (Header_Get (Header r) "X-Goog-Upload-Command") "upload, finalize"
    then Header_Set h "X-Goog-Upload-Status" "final" else h in
  if commit then
    let s := set_uploads (delete uploadID (uploads s)) s in
    let '(b, (obj, err)) := createObject (backend s) obj in
    let s := set_backend b s in
    match err with
    | Some e => (s, jsonResponse_error 0 (Error e))
    | None =>
        (s, mkJsonResponse StatusOK "" (Some obj) (finalize responseHeader))
    end
  else
    let no308 := Header_has (Header r) "X-Guploader-No-308" in
    let responseHeader :=
      if no308 then Header_Set responseHeader "X-Http-Status-Code-Override" "308"
      else responseHeader in
    let status := if no308 then StatusOK else StatusPermanentRedirect in
    let s := set_uploads (<[uploadID := obj]> (uploads s)) s in
    (s, mkJsonResponse status "" (Some obj) (finalize responseHeader)).

(** The local copy [obj] of the session object after the chunk has been
    appended to it.  [append] may write into spare capacity of the array
    behind the stored object's [Content], past its length; the stored
    object, whose length does not change, reads the same as before. *)
Definition append_chunk (obj : Object) (content : list byte) (r : Request)
  : Object :=
  let obj := set_Content (Content obj ++ content) obj in
  let obj := set_Crc32c (encodedCrc32cChecksum (Content obj)) obj in
  let obj := set_Md5Hash (encodedMd5Hash (Content obj)) obj in
  set_ContentType (Header_Get (Header r) contentTypeHeader) obj.

Definition uploadFileContent (s : Server B) (r : Request)
  : Server B * jsonResponse :=
  let uploadID := mux_Var r "uploadId" in
  match uploads s !! uploadID with
  | None => (s, jsonResponse_status StatusNotFound)
  | Some obj =>
      match loadContent (Body r) with
      | (_, Some err) => (s, jsonResponse_error 0 (Error err))
      | (content, None) =>
          let obj := append_chunk obj content r in
          let contentRange := Header_Get (Header r) "Content-Range" in
          if negb (String.eqb contentRange "") then
            match parseContentRange contentRange with
            | (_, Some err) =>
                (s, jsonResponse_error StatusBadRequest (Error err))
            | (parsed, None) =>
                let '(responseHeader, commit) :=
                  commit_decision parsed (length (Content obj)) in
                uploadFileContent_finish s r uploadID obj commit responseHeader
            end
          else uploadFileContent_finish s r uploadID obj true ∅
      end
  end.

(** [s.insertObject(r)], the dispatcher; [rand_Read] and [range_Header]
    are what [resumableUpload] and [signedUpload] take beside the request. *)
Definition insertObject (s : Server B) (r : Request)
    (rand_Read : list byte * option error) (range_Header : list string)
  : Server B * outcome jsonResponse :=
  let bucketName := mux_Var r "bucketName" in
  let returns (x : Server B * jsonResponse) := (fst x, Returns (snd x)) in
  match backend_GetBucket (backend s) bucketName with
  | Some _ => (s, Returns (jsonResponse_status StatusNotFound))
  | None =>
      let uploadType := Values_Get (Query r) "uploadType" in
      let uploadType :=
        if String.eqb uploadType ""
           && String.eqb (Header_Get (Header r) "X-Goog-Upload-Protocol")
                         uploadTypeResumable
        then uploadTypeResumable else uploadType in
      if String.eqb uploadType uploadTypeMedia then
        returns (simpleUpload s bucketName r)
      else if String.eqb uploadType uploadTypeMultipart then
        multipartUpload s bucketName r
      else if String.eqb uploadType uploadTypeResumable then
        returns (resumableUpload s bucketName r rand_Read)
      else if negb (String.eqb (Values_Get (Query r) "X-Goog-Algorithm") "")
              && String.eqb (Method r) "POST" then
        returns (resumableUpload s bucketName r rand_Read)
      else if negb (String.eqb (Values_Get (Query r) "X-Goog-Algorithm") "")
              && String.eqb (Method r) "PUT" then
        returns (signedUpload s bucketName r range_Header)
      else
        (s, Returns (jsonResponse_error StatusBadRequest "invalid uploadType"))
  end.

End Handlers.

(** Modelled from the spec: [s.backend] and [s.createObject], which the
    sources at hand use but do not contain, as the Object Store of the
    specification, that is as [object.go] implements it: create "locates by
    (bucketName, name) ...; replaces if found, else appends" and returns
    the stored object, and it has no failure of its own; get fails if the
    bucket or the name is absent; a bucket exists if the map has it. *)
#[global] Instance Store_Backend : Backend Store.Server := {
  backend_GetBucket s name :=
    match Store.buckets s !! name with
    | Some _ => None
    | None => Some (errorString "bucket not found")
    end;
  backend_GetObject s bucketName objectName :=
    snd (Store.GetObject s bucketName objectName);
  createObject s obj := (Store.CreateObject s obj, (obj, None))
}.

End Upload.

(** ** The download handler of [object.go] *)

Module Download.

(** What a handler has written to a fresh [http.ResponseWriter]: the
    status code, the header and the body. *)
Record ResponseWriter : Type := mkResponseWriter {
  rw_status : Z;
  rw_header : gmap string (list string);
  rw_body : list byte
}.

(** [http.Error(w, error, code)] on a fresh writer: a plain-text reply
    whose body is the message and a newline. *)
Definition http_Error (error : string) (code : Z) : ResponseWriter :=
  mkResponseWriter code
    (Header_Set
       (Header_Set ∅ "Content-Type" "text/plain; charset=utf-8")
       "X-Content-Type-Options" "nosniff")
    (bytes_of_string error ++ [x0a]).

(** [s.downloadObject(w, r)]. *)
Definition downloadObject (s : Store.Server) (r : Request) : ResponseWriter :=
  match Store.GetObject s (mux_Var r "bucketName") (mux_Var r "objectName") with
  | (_, Some _) => http_Error "not found" StatusNotFound
  | (obj, None) => mkResponseWriter StatusOK ∅ (Content obj)
  end.

End Download.

(** * Vocabulary of the properties *)

Section ParserVocabulary.

(** [contains s sub]: [sub] occurs somewhere in [s]. *)
Definition contains (s sub : string) : Prop :=
  exists a b, s = a +:+ sub +:+ b.

Definition has_prefix (s p : string) : Prop := exists t, s = p +:+ t.

(** The strings [strconv.Atoi] accepts: an optional sign, then one or more
    decimal digits, denoting a value that fits [int]. *)
Definition is_integer (s : string) : Prop :=
  exists sign ds n,
    s = sign +:+ ds /\ (sign = "" \/ sign = "+" \/ sign = "-") /\ ds <> ""
    /\ digits_value 0 ds = Some n
    /\ (if String.eqb sign "-" then n <= - minInt else n <= maxInt).

(** A range [<start>-<end>] of two integers; the start is what precedes
    the first ["-"]. *)
Definition integer_range (rng : string) : Prop :=
  exists a b, rng = a +:+ "-" +:+ b /\ ~ contains a "-"
              /\ is_integer a /\ is_integer b.

(** The ways in which a Content-Range value can be wrong. *)
Inductive malformed (r : string) : Prop :=
  | missing_prefix :
      ~ has_prefix r "bytes " -> malformed r
  | missing_slash rest :
      r = "bytes " +:+ rest -> ~ contains rest "/" -> malformed r
  | bad_range rng tot :
      r = "bytes " +:+ rng +:+ "/" +:+ tot -> ~ contains rng "/" ->
      rng <> "*" -> ~ integer_range rng -> malformed r
  | bad_total rng tot :
      r = "bytes " +:+ rng +:+ "/" +:+ tot -> ~ contains rng "/" ->
      tot <> "*" -> ~ is_integer tot -> malformed r
  | nothing_known :
      r = "bytes */*" -> malformed r.

Definition invalidErr (r : string) : option error :=
  Some (errorString ("invalid Content-Range: " +:+ r)).

(** The sentinel convention as the specification words it, for one
    input: on success, [-1] in the range bounds, respectively in the
    total, if and only if the corresponding flag is off. *)
Definition uniform_sentinel (r : string) : Prop :=
  forall p, parseContentRange r = (p, None) ->
    ((Start p = -1 /\ End p = -1) <-> KnownRange p = false)
    /\ (Total p = -1 <-> KnownTotal p = false).

(** [<=] on strings, from the byte-wise comparison. *)
Definition string_le (x y : string) : Prop := String.compare x y <> Gt.

End ParserVocabulary.

Section StoreVocabulary.

Import Store.

(** The store is well formed: a bucket holds objects of that bucket only,
    and no two of them have the same name, that is, each identity
    (bucketName, name) occurs at most once. *)
Definition unique_identities (s : Server) : Prop :=
  forall b objs, buckets s !! b = Some objs ->
    Forall (fun o => BucketName o = b) objs /\ NoDup (Name <$> objs).

(** [a] may stand before [b] in a list sorted by name. *)
Definition name_ordered (a b : Object) : Prop := name_less b a = false.

End StoreVocabulary.

Section UploadVocabulary.

Import Upload.

(** Whether a chunk request, once its body is read, gets as far as the
    commit decision of [uploadFileContent], and with what: the response
    header so far and the value of [commit].  [None] is the exit with
    BadRequest on a Content-Range that does not parse. *)
Definition chunk_decision (r : Request) (len : nat)
  : option (gmap string (list string) * bool) :=
  let contentRange := Header_Get (Header r) "Content-Range" in
  if String.eqb contentRange "" then Some (∅, true)
  else match parseContentRange contentRange with
       | (_, Some _) => None
       | (parsed, None) => Some (commit_decision parsed len)
       end.

(** A stand-in for the library calls at the few inputs that the
    examples below use: the JSON text of an empty object decodes to the
    zero metadata, an empty input is [io.EOF]; the media type
    "multipart/related; boundary=xyz" has the one parameter boundary=xyz;
    and a body that consists of the closing boundary line alone has no
    part, so that the first [NextPart] returns [io.EOF].  Every other
    input is answered with an error, which is not always what Go does; and
    the lower-case mapping of text outside ASCII, which no example uses,
    leaves the text as it is. *)
Definition sample_json_Decode (rc : Reader) : multipartMetadata * option error :=
  match failure rc with
  | Some msg => (Meta.zero, Some (errorString msg))
  | None =>
      if decide (delivered rc = []) then (Meta.zero, Some io_EOF)
      else if decide (delivered rc = bytes_of_string "{}") then (Meta.zero, None)
      else (Meta.zero, Some (errorString "not in the sample table"))
  end.

Definition sample_ParseMediaType (v : string) : gmap string string * option error :=
  if String.eqb v "multipart/related; boundary=xyz"
  then ({[ "boundary"%string := "xyz"%string ]}, None)
  else (∅, Some (errorString "not in the sample table")).

Definition closing_boundary_only : list byte :=
  bytes_of_string "--xyz--" ++ [x0d; x0a].

Definition sample_multipart_parts (body : Reader) (boundary : string)
  : list Part * error :=
  if decide (delivered body = closing_boundary_only /\ failure body = None
             /\ boundary = "xyz"%string)
  then ([], io_EOF)
  else ([], errorString "not in the sample table").

Definition sample_GoLib : GoLib :=
  {| json_Decode := sample_json_Decode;
     mime_ParseMediaType := sample_ParseMediaType;
     multipart_parts := sample_multipart_parts;
     strings_Map_ToLower := fun s => s |}.

Definition PreconditionFailed_response : jsonResponse :=
  jsonResponse_error StatusPreconditionFailed "Precondition failed".
Definition NotImplemented_response : jsonResponse :=
  jsonResponse_error StatusNotImplemented "Precondition support not implemented".

(** A server with an empty store and one open session, "id", for an
    object "obj" of the bucket "bucket" that has no content yet. *)
Definition sample_partial : Object :=
  mkObject "bucket" "obj" [] "" "" "" "" [mkACLRule "projectOwner" "OWNER"] ∅.

Definition sample_server : Server Store.Server :=
  mkServer (Store.mkServer ∅) {[ "id"%string := sample_partial ]}
           "http://127.0.0.1".

(** A chunk request for the session [uploadId]. *)
Definition chunk_request (uploadId : string)
    (headers : list (string * string)) (body : Reader) : Request :=
  mkRequest "PUT" {[ "uploadId"%string := uploadId ]} ∅
    (list_to_map ((fun kv => (fst kv, [snd kv])) <$> headers)) body.

(** C5 as the specification words it, for one call. *)
Definition rejected_chunk_claim {B : Type} `{Backend B}
    (s : Server B) (r : Request) : Prop :=
  forall obj,
    uploads s !! mux_Var r "uploadId" = Some obj ->
    Header_Get (Header r) "Content-Range" <> ""%string ->
    snd (parseContentRange (Header_Get (Header r) "Content-Range")) <> None ->
    status (snd (uploadFileContent s r)) = StatusBadRequest
    /\ uploads (fst (uploadFileContent s r)) !! mux_Var r "uploadId" = Some obj.

(** The second half of C7 as the specification words it, for one call:
    a request whose X-Goog-Upload-Command contains "upload, finalize" is
    answered with X-Goog-Upload-Status: final. *)
Definition finalize_claim {B : Type} `{Backend B}
    (s : Server B) (r : Request) : Prop :=
  contains (Header_Get (Header r) "X-Goog-Upload-Command") "upload, finalize" ->
  Header_Get (header (snd (uploadFileContent s r))) "X-Goog-Upload-Status"
  = "final"%string.

(** Two results of the JSON decoder that differ at most in the content
    type and the content encoding they decoded. *)
Definition agree_but_types (x y : multipartMetadata * option error) : Prop :=
  Meta.Name (fst x) = Meta.Name (fst y)
  /\ Meta.Metadata (fst x) = Meta.Metadata (fst y)
  /\ snd x = snd y.

(** The object that [resumableUpload] registers. *)
Definition initial_object (bucketName : string) (r : Request)
    (metadata : multipartMetadata) : Object :=
  mkObject bucketName
    (if String.eqb (Values_Get (Query r) "name") ""
     then Meta.Name metadata else Values_Get (Query r) "name")
    [] "" (Values_Get (Query r) "contentEncoding") "" ""
    (getObjectACL (Values_Get (Query r) "predefinedAcl"))
    (Meta.Metadata metadata).

(** A multipart request whose body is the closing boundary line alone. *)
Definition no_section_request : Request :=
  mkRequest "POST" {[ "bucketName"%string := "bucket"%string ]}
    (<["uploadType"%string := ["multipart"%string]]>
       (<["name"%string := ["obj"%string]]> ∅))
    {[ "Content-Type"%string := ["multipart/related; boundary=xyz"%string] ]}
    (mkReader closing_boundary_only None).

(** [r] is a chunk for the session [uploadId] with the given body and
    Content-Range. *)
Definition is_chunk (r : Request) (uploadId : string) (body : list byte)
    (range : string) : Prop :=
  mux_Var r "uploadId" = uploadId
  /\ loadContent (Body r) = (body, None)
  /\ Header_Get (Header r) "Content-Range" = range.

(** The response of a chunk that did not commit. *)
Definition continues (resp : jsonResponse) : Prop :=
  status resp = StatusPermanentRedirect
  \/ (status resp = StatusOK
      /\ Header_Get (header resp) "X-Http-Status-Code-Override" = "308"%string).

End UploadVocabulary.

Section ExtraVocabulary.

Import Upload.

(** The digests of an object are those of its content. *)
Definition digests_match (o : Object) : Prop :=
  Crc32c o = encodedCrc32cChecksum (Content o)
  /\ Md5Hash o = encodedMd5Hash (Content o).

(** A lower-case hexadecimal digit. *)
Definition is_hex_digit (c : ascii) : bool :=
  is_digit c
  || ((97 <=? Z.of_N (N_of_ascii c)) && (Z.of_N (N_of_ascii c) <=? 102)).

(** The value of a hexadecimal digit, for reading an upload id back. *)
Definition hex_value (c : ascii) : Z :=
  if is_digit c then digit_value c else Z.of_N (N_of_ascii c) - 87.

(** The bytes that an upload id spells. *)
Fixpoint unhex (s : string) : list byte :=
  match s with
  | String hi (String lo rest) =>
      byte_of_Z (16 * hex_value hi + hex_value lo) :: unhex rest
  | _ => []
  end.

(** What a range over a map of headers can yield: every key once, in any
    order. *)
Definition range_of (keys : list string) (h : gmap string (list string))
  : Prop :=
  keys ≡ₚ (map_to_list h).*1.

(** A header name made of the bytes that RFC 7230 allows in a token, as
    is every name of a request that [net/http] has parsed. *)
Definition is_token (key : string) : Prop :=
  string_forallb validHeaderFieldByte key = true.

(** The body of a part of a multipart message can be read to its end. *)
Definition readable (p : Part) : Prop := failure (PartBody p) = None.

(** A line of a multipart message, with its line end. *)
Definition crlf_line (s : string) : list byte := bytes_of_string s ++ [x0d; x0a].

(** A multipart message of two parts, the JSON text of an empty object and
    the text "hello"; and one whose only part is empty. *)
Definition two_part_body : list byte :=
  crlf_line "--xyz" ++ crlf_line "Content-Type: application/json"
  ++ crlf_line "" ++ crlf_line "{}"
  ++ crlf_line "--xyz" ++ crlf_line "Content-Type: text/plain"
  ++ crlf_line "" ++ crlf_line "hello" ++ crlf_line "--xyz--".

Definition empty_part_body : list byte :=
  crlf_line "--xyz" ++ crlf_line "Content-Type: application/json"
  ++ crlf_line "" ++ crlf_line "" ++ crlf_line "--xyz--".

Definition json_part (body : string) : Part :=
  mkPart {[ "Content-Type"%string := ["application/json"%string] ]}
         (mkReader (bytes_of_string body) None).

Definition text_part (body : string) : Part :=
  mkPart {[ "Content-Type"%string := ["text/plain"%string] ]}
         (mkReader (bytes_of_string body) None).

(** The stand-in library extended by the parts of these two messages. *)
Definition sample_multipart_parts2 (body : Reader) (boundary : string)
  : list Part * error :=
  if decide (delivered body = two_part_body /\ failure body = None
             /\ boundary = "xyz"%string)
  then ([json_part "{}"; text_part "hello"], io_EOF)
  else if decide (delivered body = empty_part_body /\ failure body = None
                  /\ boundary = "xyz"%string)
  then ([json_part ""], io_EOF)
  else sample_multipart_parts body boundary.

Definition sample_GoLib2 : GoLib :=
  {| json_Decode := sample_json_Decode;
     mime_ParseMediaType := sample_ParseMediaType;
     multipart_parts := sample_multipart_parts2;
     strings_Map_ToLower := fun s => s |}.

(** A multipart request for the object "obj" of "bucket" with the given
    body and further query parameters. *)
Definition multipart_request (body : list byte)
    (query : list (string * string)) : Request :=
  mkRequest "POST" {[ "bucketName"%string := "bucket"%string ]}
    (list_to_map ((fun kv => (fst kv, [snd kv]))
                    <$> (("uploadType", "multipart") :: ("name", "obj") :: query)%string))
    {[ "Content-Type"%string := ["multipart/related; boundary=xyz"%string] ]}
    (mkReader body None).

End ExtraVocabulary.

(** * Properties *)

(** ** Strings *)

Section StringFacts.

Local Open Scope nat_scope.
#[local] Arguments String.append !_ _ / : simpl nomatch.

Lemma append_nil_r (s : string) : s +:+ "" = s.
Proof. induction s; simpl; congruence. Qed.

Lemma append_assoc (a b c : string) : (a +:+ b) +:+ c = a +:+ (b +:+ c).
Proof. induction a; simpl; congruence. Qed.

Lemma append_length (a b : string) :
  String.length (a +:+ b) = String.length a + String.length b.
Proof. induction a; simpl; congruence. Qed.

Lemma HasPrefix_iff (s p : string) :
  strings_HasPrefix s p = true <-> has_prefix s p.
Proof.
  revert s; induction p as [|c p IH]; intros s; simpl.
  - split; [intros _; exists s; reflexivity | reflexivity].
  - destruct s as [|d s].
    + split; [discriminate | intros [t Ht]; discriminate].
    + rewrite andb_true_iff, Ascii.eqb_eq, IH. split.
      * intros [-> [t ->]]. exists t. reflexivity.
      * intros [t Ht]. injection Ht as -> ->. split; [reflexivity | exists t; reflexivity].
Qed.

Lemma slice_from_app (p t : string) : slice_from (String.length p) (p +:+ t) = t.
Proof. induction p; simpl; [destruct t|]; auto. Qed.

Lemma slice_to_app (p t : string) : slice_to (String.length p) (p +:+ t) = p.
Proof. induction p; simpl; [destruct t|]; congruence. Qed.

Lemma slice_to_from (n : nat) (s : string) : slice_to n s +:+ slice_from n s = s.
Proof.
  revert s; induction n as [|n IH]; intros [|c s]; simpl; try reflexivity.
  now rewrite IH.
Qed.

Lemma contains_cons (c : ascii) (s sub : string) :
  contains (String c s) sub <-> has_prefix (String c s) sub \/ contains s sub.
Proof.
  split.
  - intros [[|d a] [b Hb]]; simpl in Hb.
    + left. exists b. exact Hb.
    + right. injection Hb as -> ->. exists a, b. reflexivity.
  - intros [[t Ht] | [a [b ->]]].
    + exists "", t. exact Ht.
    + exists (String c a), b. reflexivity.
Qed.

Lemma contains_nil (sub : string) : contains "" sub <-> sub = "".
Proof.
  split.
  - intros [[|d a] [b Hb]]; simpl in Hb; [|discriminate].
    destruct sub; [reflexivity | discriminate].
  - intros ->. exists "", "". reflexivity.
Qed.

(** [strings.Index] finds an occurrence exactly when there is one. *)
Lemma Index_is_Some (s sub : string) :
  is_Some (strings_Index s sub) <-> contains s sub.
Proof.
  induction s as [|c s IH]; simpl.
  - destruct sub as [|d sub]; simpl.
    + split; [intros _; apply contains_nil; reflexivity | eauto].
    + split; [intros [? ?]; discriminate | intros Hc%contains_nil; discriminate].
  - rewrite contains_cons.
    destruct (strings_HasPrefix (String c s) sub) eqn:Hp.
    + apply HasPrefix_iff in Hp. split; eauto.
    + rewrite fmap_is_Some, IH. split; [tauto|].
      intros [Hp'%HasPrefix_iff | ?]; [congruence | assumption].
Qed.

Lemma Contains_iff (s sub : string) :
  strings_Contains s sub = true <-> contains s sub.
Proof.
  unfold strings_Contains. rewrite bool_decide_eq_true. apply Index_is_Some.
Qed.

(** Cutting at the first occurrence of a one-byte separator. *)
Lemma SplitN2_char (s : string) (c : ascii) :
  (~ contains s (String c "") /\ strings_SplitN2 s (String c "") = [s])
  \/ (exists a b, s = a +:+ String c b /\ ~ contains a (String c "")
                  /\ strings_SplitN2 s (String c "") = [a; b]).
Proof.
  unfold strings_SplitN2.
  induction s as [|d s IH].
  - left. split; [intros Hc%contains_nil; discriminate | reflexivity].
  - cbn [strings_Index strings_HasPrefix].
    destruct (Ascii.eqb c d) eqn:Hcd.
    + apply Ascii.eqb_eq in Hcd as ->. right. exists "", s. simpl.
      split; [reflexivity|]. split; [intros Hc%contains_nil; discriminate | reflexivity].
    + cbn [andb]. apply Ascii.eqb_neq in Hcd.
      assert (Hnp : ~ has_prefix (String d s) (String c "")).
      { intros [t Ht]. simpl in Ht. congruence. }
      destruct IH as [[Hn Hs] | (a & b & -> & Hn & Hs)].
      * left. destruct (strings_Index s (String c "")); [discriminate|].
        split; [|reflexivity]. rewrite contains_cons. tauto.
      * right. exists (String d a), b.
        destruct (strings_Index (a +:+ String c b) (String c "")) as [i|];
          [|discriminate].
        injection Hs as Ha Hb. simpl. rewrite Ha, Hb.
        split; [reflexivity|]. split; [|reflexivity].
        rewrite contains_cons. intros [[t Ht] | ?]; [|tauto].
        simpl in Ht. congruence.
Qed.

(** The cut is determined by the part before the separator being free of it. *)
Lemma SplitN2_char_app (a b : string) (c : ascii) :
  ~ contains a (String c "") ->
  strings_SplitN2 (a +:+ String c b) (String c "") = [a; b].
Proof.
  intros Hn. unfold strings_SplitN2.
  induction a as [|d a IH]; simpl.
  - rewrite Ascii.eqb_refl. reflexivity.
  - destruct (Ascii.eqb c d) eqn:Hcd.
    + apply Ascii.eqb_eq in Hcd as ->. exfalso. apply Hn.
      exists "", a. reflexivity.
    + simpl.
      assert (Hn' : ~ contains a (String c "")).
      { intros H. apply Hn. apply contains_cons. tauto. }
      specialize (IH Hn').
      destruct (strings_Index (a +:+ String c b) (String c "")); [|discriminate].
      injection IH as Ha Hb. simpl. rewrite Ha, Hb. reflexivity.
Qed.

Lemma SplitN2_char_none (s : string) (c : ascii) :
  ~ contains s (String c "") -> strings_SplitN2 s (String c "") = [s].
Proof.
  intros Hn. destruct (SplitN2_char s c) as [[_ H] | (a & b & -> & _ & _)].
  - exact H.
  - exfalso. apply Hn. exists a, b. reflexivity.
Qed.

End StringFacts.

(** ** [strconv.Atoi] *)

Section AtoiFacts.

#[local] Arguments String.append !_ _ / : simpl nomatch.

Lemma digits_value_nonneg (s : string) (acc n : Z) :
  0 <= acc -> digits_value acc s = Some n -> 0 <= n.
Proof.
  revert acc; induction s as [|c s IH]; intros acc Hacc; simpl.
  - intros [= <-]. exact Hacc.
  - destruct (is_digit c) eqn:Hd; [|discriminate].
    apply IH. unfold is_digit, digit_value in *.
    apply andb_true_iff in Hd as [Hd _]. lia.
Qed.

Lemma digits_value_first (c : ascii) (s : string) (acc n : Z) :
  digits_value acc (String c s) = Some n -> is_digit c = true.
Proof. simpl. destruct (is_digit c); [reflexivity | discriminate]. Qed.

Lemma digit_not_sign (c : ascii) :
  is_digit c = true -> Ascii.eqb c "-" = false /\ Ascii.eqb c "+" = false.
Proof.
  intros Hd. split; apply Ascii.eqb_neq; intros ->; vm_compute in Hd; discriminate.
Qed.

Lemma Atoi_ok_iff (s : string) :
  snd (strconv_Atoi s) = None <-> is_integer s.
Proof.
  split.
  - destruct s as [|c s]; [discriminate|]. unfold strconv_Atoi.
    destruct (Ascii.eqb c "-") eqn:Hm; [|destruct (Ascii.eqb c "+") eqn:Hp];
      cbn [orb].
    + apply Ascii.eqb_eq in Hm as ->.
      destruct s as [|d s]; [discriminate|].
      destruct (digits_value 0 (String d s)) as [n|] eqn:Hv;
      [|destruct (digits_overflow _ _); discriminate].
      destruct (n <=? - minInt) eqn:Hle; [|discriminate]. intros _.
      exists "-", (String d s), n. repeat split; auto.
      simpl. apply Z.leb_le, Hle.
    + apply Ascii.eqb_eq in Hp as ->.
      destruct s as [|d s]; [discriminate|].
      destruct (digits_value 0 (String d s)) as [n|] eqn:Hv;
      [|destruct (digits_overflow _ _); discriminate].
      destruct (n <=? maxInt) eqn:Hle; [|discriminate]. intros _.
      exists "+", (String d s), n. repeat split; auto.
      simpl. apply Z.leb_le, Hle.
    + destruct (digits_value 0 (String c s)) as [n|] eqn:Hv;
      [|destruct (digits_overflow _ _); discriminate].
      destruct (n <=? maxInt) eqn:Hle; [|discriminate]. intros _.
      exists "", (String c s), n. repeat split; auto.
      simpl. apply Z.leb_le, Hle.
  - intros (sign & ds & n & -> & Hsign & Hne & Hv & Hr).
    destruct ds as [|d ds]; [congruence|].
    destruct Hsign as [-> | [-> | ->]].
    + change ("" +:+ String d ds) with (String d ds).
      change (String.eqb "" "-") with false in Hr. unfold strconv_Atoi.
      destruct (digit_not_sign d (digits_value_first _ _ _ _ Hv)) as [-> ->].
      cbn [orb]. rewrite Hv.
      apply Z.leb_le in Hr. rewrite Hr. reflexivity.
    + change ("+" +:+ String d ds) with (String "+" (String d ds)).
      change (String.eqb "+" "-") with false in Hr. unfold strconv_Atoi.
      change (Ascii.eqb "+" "-") with false.
      change (Ascii.eqb "+" "+") with true. cbn [orb]. rewrite Hv.
      apply Z.leb_le in Hr. rewrite Hr. reflexivity.
    + change ("-" +:+ String d ds) with (String "-" (String d ds)).
      change (String.eqb "-" "-") with true in Hr. unfold strconv_Atoi.
      change (Ascii.eqb "-" "-") with true. cbn [orb]. rewrite Hv.
      apply Z.leb_le in Hr. rewrite Hr. reflexivity.
Qed.

(** A literal without a minus sign denotes a number that is not negative. *)
Lemma Atoi_nonneg (s : string) (z : Z) :
  ~ contains s "-" -> strconv_Atoi s = (z, None) -> 0 <= z.
Proof.
  intros Hn. destruct s as [|c s]; [discriminate|]. unfold strconv_Atoi.
  destruct (Ascii.eqb c "-") eqn:Hm.
  - apply Ascii.eqb_eq in Hm as ->. exfalso. apply Hn. exists "", s. reflexivity.
  - cbn [orb].
    destruct (if Ascii.eqb c "+" then s else String c s) as [|d t] eqn:Hb;
      [discriminate|].
    destruct (digits_value 0 (String d t)) as [n|] eqn:Hv;
      [|destruct (digits_overflow _ _); discriminate].
    apply digits_value_nonneg in Hv; [|lia].
    destruct (n <=? maxInt); intros [= <-]; assumption.
Qed.

Lemma Atoi_range (s : string) (z : Z) :
  strconv_Atoi s = (z, None) -> minInt <= z <= maxInt.
Proof.
  destruct s as [|c s]; [discriminate|]. unfold strconv_Atoi.
  destruct (if Ascii.eqb c "-" || Ascii.eqb c "+" then s else String c s)
    as [|d t]; [discriminate|].
  destruct (digits_value 0 (String d t)) as [n|] eqn:Hv;
      [|destruct (digits_overflow _ _); discriminate].
  apply digits_value_nonneg in Hv; [|lia].
  destruct (Ascii.eqb c "-").
  - destruct (n <=? - minInt) eqn:Hle; intros [= <-].
    apply Z.leb_le in Hle. unfold minInt, maxInt, intSize in *. lia.
  - destruct (n <=? maxInt) eqn:Hle; intros [= <-].
    apply Z.leb_le in Hle. unfold minInt, maxInt, intSize in *. lia.
Qed.

End AtoiFacts.

(** ** The Content-Range parser *)

Section ParserFacts.

#[local] Arguments String.append !_ _ / : simpl nomatch.

Lemma Atoi_cases (s : string) :
  (exists z, strconv_Atoi s = (z, None) /\ is_integer s)
  \/ (exists z e, strconv_Atoi s = (z, Some e) /\ ~ is_integer s).
Proof.
  destruct (strconv_Atoi s) as [z [e|]] eqn:Hs.
  - right. exists z, e. split; [reflexivity|].
    intros Hi%Atoi_ok_iff. rewrite Hs in Hi. discriminate.
  - left. exists z. split; [reflexivity|]. apply Atoi_ok_iff. now rewrite Hs.
Qed.

Lemma integer_range_not_star : ~ integer_range "*".
Proof.
  intros (a & b & Hab & _). destruct a as [|c a]; [discriminate|].
  simpl in Hab. injection Hab as _ Hab. destruct a; discriminate.
Qed.

(** What "Process range" does, by the shape of [parts[0]]. *)
Lemma parseContentRange_range_cases (rng : string) :
  (rng = "*" /\
   parseContentRange_range rng contentRange_zero
   = (mkContentRange false false (-1) (-1) 0, false))
  \/ (exists a b za zb,
        rng <> "*" /\ rng = a +:+ "-" +:+ b /\ ~ contains a "-"
        /\ strconv_Atoi a = (za, None) /\ strconv_Atoi b = (zb, None)
        /\ integer_range rng
        /\ parseContentRange_range rng contentRange_zero
           = (mkContentRange true false za zb 0, false))
  \/ (rng <> "*" /\ ~ integer_range rng
      /\ snd (parseContentRange_range rng contentRange_zero) = true).
Proof.
  unfold parseContentRange_range.
  destruct (String.eqb rng "*") eqn:Hstar.
  { apply String.eqb_eq in Hstar. left. split; [assumption | reflexivity]. }
  apply String.eqb_neq in Hstar. right.
  destruct (SplitN2_char rng "-") as [[Hn ->] | (a & b & Hab & Hn & ->)].
  { right. repeat split; auto.
    intros (a & b & -> & _). apply Hn. exists a, b. reflexivity. }
  assert (Huniq : forall a' b', rng = a' +:+ "-" +:+ b' -> ~ contains a' "-" ->
                                a' = a /\ b' = b).
  { intros a' b' Hab' Hn'.
    pose proof (SplitN2_char_app a b "-" Hn) as H1.
    pose proof (SplitN2_char_app a' b' "-" Hn') as H2.
    rewrite <- Hab in H1. change (String "-" b') with ("-" +:+ b') in H2.
    rewrite <- Hab' in H2. rewrite H1 in H2. now injection H2. }
  destruct (Atoi_cases a) as [(za & Ha & Hia) | (za & ea & Ha & Hia)]; rewrite Ha.
  - destruct (Atoi_cases b) as [(zb & Hb & Hib) | (zb & eb & Hb & Hib)]; rewrite Hb.
    + left. exists a, b, za, zb. repeat split; auto.
      exists a, b. repeat split; auto.
    + right. repeat split; auto.
      intros (a' & b' & Hab' & Hn' & _ & Hib').
      destruct (Huniq a' b' Hab' Hn') as [_ ->]. contradiction.
  - right. repeat split; auto.
    intros (a' & b' & Hab' & Hn' & Hia' & _).
    destruct (Huniq a' b' Hab' Hn') as [-> _]. contradiction.
Qed.

(** What "Process total length" does, by the shape of [parts[1]]. *)
Lemma parseContentRange_total_cases (tot : string) (p : contentRange) :
  (tot = "*" /\ parseContentRange_total tot p
                = (set_Total (-1) p, negb (KnownRange p)))
  \/ (exists z, tot <> "*" /\ strconv_Atoi tot = (z, None) /\ is_integer tot
                /\ parseContentRange_total tot p
                   = (set_Total z (set_KnownTotal true p), false))
  \/ (tot <> "*" /\ ~ is_integer tot
      /\ snd (parseContentRange_total tot p) = true).
Proof.
  unfold parseContentRange_total.
  destruct (String.eqb tot "*") eqn:Hstar.
  { apply String.eqb_eq in Hstar. left. split; [assumption|].
    simpl. destruct (KnownRange p); reflexivity. }
  apply String.eqb_neq in Hstar. right.
  destruct (Atoi_cases tot) as [(z & Ht & Hi) | (z & e & Ht & Hi)]; rewrite Ht.
  - left. exists z. auto.
  - right. auto.
Qed.

(** The first two checks of [parseContentRange]. *)
Lemma parseContentRange_shape (r : string) :
  (~ has_prefix r "bytes " /\
   parseContentRange r = (contentRange_zero, invalidErr r))
  \/ (exists rest, r = "bytes " +:+ rest /\ ~ contains rest "/" /\
        parseContentRange r = (contentRange_zero, invalidErr r))
  \/ (exists rng tot, r = "bytes " +:+ rng +:+ "/" +:+ tot /\ ~ contains rng "/" /\
        parseContentRange r =
          let '(parsed, bad) := parseContentRange_range rng contentRange_zero in
          if bad then (parsed, invalidErr r)
          else
            let '(parsed, bad) := parseContentRange_total tot parsed in
            if bad then (parsed, invalidErr r) else (parsed, None)).
Proof.
  unfold parseContentRange.
  destruct (strings_HasPrefix r bytesPrefix) eqn:Hp; cbn [negb].
  - apply HasPrefix_iff in Hp as [rest ->]. right.
    change (slice_from (String.length bytesPrefix) (bytesPrefix +:+ rest))
      with rest.
    destruct (SplitN2_char rest "/") as [[Hn ->] | (rng & tot & -> & Hn & ->)].
    + left. exists rest. auto.
    + right. exists rng, tot. auto.
  - left. split; [|reflexivity].
    intros Hh%HasPrefix_iff. unfold bytesPrefix in Hp. congruence.
Qed.

Lemma append_inj_l (p a b : string) : p +:+ a = p +:+ b -> a = b.
Proof. induction p; simpl; [auto | intros [= H]; auto]. Qed.

Lemma split_slash_unique (rng tot rng' tot' : string) :
  rng +:+ "/" +:+ tot = rng' +:+ "/" +:+ tot' ->
  ~ contains rng "/" -> ~ contains rng' "/" -> rng = rng' /\ tot = tot'.
Proof.
  intros Heq Hn Hn'.
  pose proof (SplitN2_char_app rng tot "/" Hn) as H1.
  pose proof (SplitN2_char_app rng' tot' "/" Hn') as H2.
  change (String "/" tot) with ("/" +:+ tot) in H1.
  change (String "/" tot') with ("/" +:+ tot') in H2.
  rewrite Heq, H2 in H1. now injection H1.
Qed.

(** The parser fails exactly on malformed values, and then with
    [invalidErr]. *)
Lemma parseContentRange_fails_iff (r : string) :
  snd (parseContentRange r) <> None <-> malformed r.
Proof.
  destruct (parseContentRange_shape r)
    as [[Hp Hr] | [(rest & -> & Hn & Hr) | (rng & tot & Er & Hn & Hr)]].
  - rewrite Hr. split; [intros _; now apply missing_prefix | discriminate].
  - rewrite Hr. split; [intros _; now eapply missing_slash | discriminate].
  - rewrite Hr. clear Hr.
    assert (Hinv : forall rng' tot',
               r = "bytes " +:+ rng' +:+ "/" +:+ tot' ->
               ~ contains rng' "/" -> rng' = rng /\ tot' = tot).
    { intros rng' tot' Heq Hn'. rewrite Er in Heq. apply append_inj_l in Heq.
      destruct (split_slash_unique _ _ _ _ Heq Hn Hn'). auto. }
    assert (Hstar : ~ contains "*" "/").
    { intros Hc. apply Contains_iff in Hc. discriminate. }
    assert (Hgood : (rng = "*" \/ integer_range rng) ->
                    (tot = "*" \/ is_integer tot) ->
                    ~ (rng = "*" /\ tot = "*") -> ~ malformed r).
    { intros Hrng Htot Hboth
        [Hp | rest Hr Hn' | rng' tot' Hr Hn' Hs' Hi' | rng' tot' Hr Hn' Ht' Hi' | Hr].
      - apply Hp. eexists; exact Er.
      - rewrite Er in Hr. apply append_inj_l in Hr. subst rest.
        apply Hn'. exists rng, tot. reflexivity.
      - destruct (Hinv _ _ Hr Hn') as [-> ->]. tauto.
      - destruct (Hinv _ _ Hr Hn') as [-> ->]. tauto.
      - destruct (Hinv "*" "*" Hr Hstar) as [<- <-]. tauto. }
    destruct (parseContentRange_range_cases rng)
      as [[Hs ->] | [(a & b & za & zb & Hs & _ & _ & _ & _ & Hir & ->) | (Hs & Hir & Hbad)]].
    + destruct (parseContentRange_total_cases tot (mkContentRange false false (-1) (-1) 0))
        as [[Ht ->] | [(z & Ht & _ & Hit & ->) | (Ht & Hit & Hbad)]]; cbn.
      * split; [intros _ | discriminate]. apply nothing_known.
        rewrite Er, Hs, Ht. reflexivity.
      * split; [congruence|]. intros Hm. exfalso. revert Hm. apply Hgood; tauto.
      * destruct (parseContentRange_total _ _) as [p bad]. simpl in Hbad. subst bad.
        split; [intros _|discriminate]. exact (bad_total r rng tot Er Hn Ht Hit).
    + destruct (parseContentRange_total_cases tot (mkContentRange true false za zb 0))
        as [[Ht ->] | [(z & Ht & _ & Hit & ->) | (Ht & Hit & Hbad)]]; cbn.
      * split; [congruence|]. intros Hm. exfalso. revert Hm. apply Hgood; tauto.
      * split; [congruence|]. intros Hm. exfalso. revert Hm. apply Hgood; tauto.
      * destruct (parseContentRange_total _ _) as [p bad]. simpl in Hbad. subst bad.
        split; [intros _|discriminate]. exact (bad_total r rng tot Er Hn Ht Hit).
    + destruct (parseContentRange_range _ _) as [p bad]. simpl in Hbad. subst bad.
      split; [intros _|discriminate]. exact (bad_range r rng tot Er Hn Hs Hir).
Qed.

(** Every failure of the parser is [invalidErr]. *)
Lemma parseContentRange_invalidErr (r : string) :
  snd (parseContentRange r) <> None -> snd (parseContentRange r) = invalidErr r.
Proof.
  unfold parseContentRange, invalidErr.
  repeat match goal with
         | |- context [match ?x with _ => _ end] => destruct x
         | |- context [if ?x then _ else _] => destruct x
         end; simpl; congruence.
Qed.

End ParserFacts.

Section ParserResults.

#[local] Arguments String.append !_ _ / : simpl nomatch.

(** What a successful parse has read, field by field. *)
Lemma parseContentRange_success (r : string) (p : contentRange) :
  parseContentRange r = (p, None) ->
  exists rng tot,
    r = "bytes " +:+ rng +:+ "/" +:+ tot /\ ~ contains rng "/"
    /\ ((rng = "*" /\ KnownRange p = false /\ Start p = -1 /\ End p = -1)
        \/ (exists a b, rng = a +:+ "-" +:+ b /\ ~ contains a "-"
                        /\ strconv_Atoi a = (Start p, None)
                        /\ strconv_Atoi b = (End p, None)
                        /\ KnownRange p = true))
    /\ ((tot = "*" /\ KnownTotal p = false /\ Total p = -1 /\ KnownRange p = true)
        \/ (tot <> "*" /\ strconv_Atoi tot = (Total p, None)
            /\ KnownTotal p = true)).
Proof.
  intros Hparse.
  destruct (parseContentRange_shape r)
    as [[_ Hr] | [(rest & _ & _ & Hr) | (rng & tot & Er & Hn & Hr)]];
    rewrite Hr in Hparse; try discriminate.
  clear Hr. exists rng, tot. split; [exact Er|]. split; [exact Hn|].
  destruct (parseContentRange_range_cases rng)
    as [[Hs Hrg] | [(a & b & za & zb & Hs & Hab & Hna & Ha & Hb & _ & Hrg)
                   | (_ & _ & Hbad)]].
  - rewrite Hrg in Hparse.
    destruct (parseContentRange_total_cases tot (mkContentRange false false (-1) (-1) 0))
      as [[Ht Htt] | [(z & Ht & Hz & _ & Htt) | (_ & _ & Hbad)]].
    + rewrite Htt in Hparse. discriminate.
    + rewrite Htt in Hparse. injection Hparse as <-. cbn. split; [left | right]; auto.
    + destruct (parseContentRange_total _ _) as [q bad]. simpl in Hbad.
      subst bad. discriminate.
  - rewrite Hrg in Hparse.
    destruct (parseContentRange_total_cases tot (mkContentRange true false za zb 0))
      as [[Ht Htt] | [(z & Ht & Hz & _ & Htt) | (_ & _ & Hbad)]].
    + rewrite Htt in Hparse. injection Hparse as <-. cbn.
      split; [right; exists a, b | left]; auto.
    + rewrite Htt in Hparse. injection Hparse as <-. cbn.
      split; [right; exists a, b | right]; auto.
    + destruct (parseContentRange_total _ _) as [q bad]. simpl in Hbad.
      subst bad. discriminate.
  - destruct (parseContentRange_range _ _) as [q bad]. simpl in Hbad.
    subst bad. discriminate.
Qed.

End ParserResults.

(** C3, as stated, fails: [strconv.Atoi] accepts a signed literal, so
    ["bytes 0-999/-1"] parses with a known total equal to -1 (and
    ["bytes 5--1/10"] with a known range whose end is -1). *)
Lemma sentinel_not_uniform :
  ~ uniform_sentinel "bytes 0-999/-1"
  /\ parseContentRange "bytes 5--1/10"
     = (mkContentRange true true 5 (-1) 10, None).
Proof.
  split; [|reflexivity].
  intros Hu.
  destruct (Hu (mkContentRange true true 0 999 (-1)) eq_refl) as [_ [Ht _]].
  specialize (Ht eq_refl). discriminate.
Qed.

(** C3, amended: on every successful parse an unknown range has start and
    end -1, an unknown total is -1, and at least one of the two is known;
    a known range has a start that is not negative, so that start and end
    are both -1 exactly when the range is unknown.  Nothing is claimed
    about a known end or a known total not being -1. *)
Theorem sentinel_marks_unknown (r : string) (p : contentRange) :
  parseContentRange r = (p, None) ->
  (KnownRange p = false -> Start p = -1 /\ End p = -1)
  /\ (KnownRange p = true -> 0 <= Start p)
  /\ ((Start p = -1 /\ End p = -1) <-> KnownRange p = false)
  /\ (KnownTotal p = false -> Total p = -1)
  /\ (KnownRange p = true \/ KnownTotal p = true).
Proof.
  intros Hparse.
  destruct (parseContentRange_success r p Hparse)
    as (rng & tot & _ & _ & Hrange & Htotal).
  assert (Hstart : KnownRange p = true -> 0 <= Start p).
  { intros Hk. destruct Hrange as [(_ & Hk' & _) | (a & b & _ & Hna & Ha & _)].
    - congruence.
    - exact (Atoi_nonneg a (Start p) Hna Ha). }
  assert (Hunknown : KnownRange p = false -> Start p = -1 /\ End p = -1).
  { intros Hk. destruct Hrange as [(_ & _ & Hs & He) | (a & b & _ & _ & _ & _ & Hk')].
    - auto.
    - congruence. }
  repeat split.
  - apply Hunknown; assumption.
  - apply Hunknown; assumption.
  - exact Hstart.
  - intros [Hs _]. destruct (KnownRange p); [|reflexivity].
    specialize (Hstart eq_refl). lia.
  - apply Hunknown; assumption.
  - apply Hunknown; assumption.
  - intros Hk. destruct Htotal as [(_ & _ & Ht & _) | (_ & _ & Hk')]; congruence.
  - destruct Htotal as [(_ & _ & _ & Hk) | (_ & _ & Hk)]; auto.
Qed.

Lemma sentinel_marks_unknown_witness :
  parseContentRange "bytes */2600"
  = (mkContentRange false true (-1) (-1) 2600, None)
  /\ (false = false -> -1 = -1 /\ -1 = -1)
  /\ (false = true -> 0 <= -1)
  /\ ((-1 = -1 /\ -1 = -1) <-> false = false)
  /\ (true = false -> 2600 = -1)
  /\ (false = true \/ true = true).
Proof.
  split; [reflexivity|].
  exact (sentinel_marks_unknown "bytes */2600"
           (mkContentRange false true (-1) (-1) 2600) eq_refl).
Defined.

(** C6: the three sample values parse as the specification says,
    ["bytes */*"] is rejected, and in general the parser rejects a value
    exactly when it is [malformed]: the prefix ["bytes "] is missing, or
    there is no ["/"] after it, or the range before the first ["/"] is
    neither ["*"] nor two integers joined by ["-"], or the total after it
    is neither ["*"] nor an integer, or both are ["*"].  An integer is
    what [strconv.Atoi] accepts ([Atoi_ok_iff]). *)
Theorem parseContentRange_grammar :
  parseContentRange "bytes 0-999/2600"
  = (mkContentRange true true 0 999 2600, None)
  /\ parseContentRange "bytes */2600"
     = (mkContentRange false true (-1) (-1) 2600, None)
  /\ parseContentRange "bytes 0-999/*"
     = (mkContentRange true false 0 999 (-1), None)
  /\ snd (parseContentRange "bytes */*") = invalidErr "bytes */*"
  /\ (forall r, snd (parseContentRange r) <> None <-> malformed r)
  /\ (forall r, malformed r -> snd (parseContentRange r) = invalidErr r).
Proof.
  do 4 (split; [reflexivity|]).
  split; [exact parseContentRange_fails_iff|].
  intros r Hm%parseContentRange_fails_iff.
  now apply parseContentRange_invalidErr.
Qed.

(** ** The object store *)

Section StoreFacts.

Import Store.

#[local] Arguments String.append !_ _ / : simpl nomatch.

(** [findObject] returns the position of the first object with the id
    looked for. *)
Lemma findObject_from_list_find (i : Z) (objs : list Object) (obj : Object) :
  findObject_from i objs obj
  = match list_find (fun o => id obj = id o) objs with
    | Some (k, _) => i + Z.of_nat k
    | None => -1
    end.
Proof.
  revert i; induction objs as [|o objs IH]; intros i; [reflexivity|].
  cbn [findObject_from list_find]. destruct (decide (id obj = id o)) as [He|He].
  - apply String.eqb_eq in He as ->. cbn. lia.
  - apply String.eqb_neq in He as ->. rewrite IH.
    destruct (list_find _ objs) as [[k x]|]; cbn; lia.
Qed.

Lemma findObject_in_range (s : Server) (obj : Object) :
  findObject s obj = -1
  \/ 0 <= findObject s obj < Z.of_nat (length (bucket s (BucketName obj))).
Proof.
  unfold findObject. rewrite findObject_from_list_find.
  destruct (list_find _ _) as [[k x]|] eqn:Hf; [right | left; reflexivity].
  apply list_find_Some in Hf as (Hk%lookup_lt_Some & _). lia.
Qed.

(** The two branches of [CreateObject]. *)
Lemma CreateObject_buckets (s : Server) (obj : Object) :
  buckets (CreateObject s obj)
  = <[BucketName obj :=
        match list_find (fun o => id obj = id o) (bucket s (BucketName obj)) with
        | Some (k, _) => <[k := obj]> (bucket s (BucketName obj))
        | None => bucket s (BucketName obj) ++ [obj]
        end]> (buckets s).
Proof.
  unfold CreateObject, findObject. rewrite findObject_from_list_find.
  destruct (list_find _ _) as [[k x]|]; cbn.
  - destruct (0 + Z.of_nat k <? 0) eqn:Hlt; [apply Z.ltb_lt in Hlt; lia|]. cbn.
    now replace (Z.to_nat (0 + Z.of_nat k)) with k by lia.
  - reflexivity.
Qed.

Lemma CreateObject_bucket (s : Server) (obj : Object) :
  bucket (CreateObject s obj) (BucketName obj)
  = match list_find (fun o => id obj = id o) (bucket s (BucketName obj)) with
    | Some (k, _) => <[k := obj]> (bucket s (BucketName obj))
    | None => bucket s (BucketName obj) ++ [obj]
    end.
Proof.
  unfold bucket at 1. now rewrite CreateObject_buckets, lookup_insert_eq.
Qed.

Lemma CreateObject_other (s : Server) (obj : Object) (b : string) :
  b <> BucketName obj -> buckets (CreateObject s obj) !! b = buckets s !! b.
Proof.
  intros Hb. rewrite CreateObject_buckets. now apply lookup_insert_ne.
Qed.

(** After [CreateObject], the first object with the id of [obj] is [obj]. *)
Lemma list_find_created (s : Server) (obj : Object) :
  exists k,
    list_find (fun o => id obj = id o) (bucket (CreateObject s obj) (BucketName obj))
    = Some (k, obj).
Proof.
  rewrite CreateObject_bucket.
  destruct (list_find _ (bucket s (BucketName obj))) as [[k x]|] eqn:Hf.
  - exists k. apply list_find_Some in Hf as (Hk & _ & Hfirst).
    apply list_find_Some. split; [|split; [reflexivity|]].
    + apply list_lookup_insert_eq. now apply lookup_lt_Some in Hk.
    + intros j y Hj Hlt. rewrite list_lookup_insert_ne in Hj by lia. eauto.
  - exists (length (bucket s (BucketName obj))).
    apply list_find_Some. split; [|split; [reflexivity|]].
    + now rewrite lookup_app_r, Nat.sub_diag.
    + intros j y Hj Hlt. rewrite lookup_app_l in Hj by lia.
      eapply list_find_None in Hf. eapply Forall_lookup_1 in Hf; eauto.
Qed.

(** Reading back what was just created. *)
Lemma GetObject_CreateObject (s : Server) (obj : Object) :
  GetObject (CreateObject s obj) (BucketName obj) (Name obj) = (obj, None).
Proof.
  unfold GetObject, findObject. cbn [BucketName].
  rewrite findObject_from_list_find.
  destruct (list_find_created s obj) as [k Hk].
  change (id (mkObject (BucketName obj) (Name obj) [] "" "" "" "" [] ∅))
    with (id obj).
  rewrite Hk. apply list_find_Some in Hk as (Hk & _).
  destruct (0 + Z.of_nat k <? 0) eqn:Hlt; [apply Z.ltb_lt in Hlt; lia|].
  replace (Z.to_nat (0 + Z.of_nat k)) with k by lia. now rewrite Hk.
Qed.

Lemma bucket_unique (s : Server) (b : string) :
  unique_identities s ->
  Forall (fun o => BucketName o = b) (bucket s b) /\ NoDup (Name <$> bucket s b).
Proof.
  intros Hu. unfold bucket. destruct (buckets s !! b) as [objs|] eqn:Hb; cbn.
  - eauto.
  - split; constructor.
Qed.

Lemma id_inj_in_bucket (o obj : Object) :
  BucketName o = BucketName obj -> (id obj = id o <-> Name o = Name obj).
Proof.
  intros Hb. unfold id. rewrite Hb. split.
  - intros H%append_inj_l. simpl in H. congruence.
  - now intros ->.
Qed.

End StoreFacts.

Section Upsert.

Import Store.

Lemma filter_name_absent (l : list Object) (n : string) :
  n ∉ Name <$> l -> List.filter (fun o => bool_decide (Name o = n)) l = [].
Proof.
  induction l as [|o l IH]; [reflexivity|].
  rewrite fmap_cons, not_elem_of_cons. intros [Hne Hnotin]. cbn.
  rewrite bool_decide_eq_false_2 by congruence. auto.
Qed.

Lemma filter_name_unique (l : list Object) (k : nat) (x : Object) :
  NoDup (Name <$> l) -> l !! k = Some x ->
  List.filter (fun o => bool_decide (Name o = Name x)) l = [x].
Proof.
  revert k; induction l as [|o l IH]; intros k Hnd Hk; [discriminate|].
  rewrite fmap_cons in Hnd. apply NoDup_cons in Hnd as [Hnotin Hnd].
  destruct k as [|k]; cbn in Hk |- *.
  - injection Hk as ->. rewrite bool_decide_eq_true_2 by reflexivity.
    now rewrite filter_name_absent.
  - rewrite bool_decide_eq_false_2; [eauto|].
    intros Heq. apply Hnotin. rewrite Heq. apply list_elem_of_fmap.
    exists x. split; [reflexivity|]. eapply list_elem_of_lookup_2; eauto.
Qed.

(** Whether [findObject] finds the object, in terms of names. *)
Lemma list_find_name (s : Server) (obj : Object) :
  unique_identities s ->
  match list_find (fun o => id obj = id o) (bucket s (BucketName obj)) with
  | Some (k, old) =>
      bucket s (BucketName obj) !! k = Some old /\ Name old = Name obj
  | None => Name obj ∉ Name <$> bucket s (BucketName obj)
  end.
Proof.
  intros Hu. destruct (bucket_unique s (BucketName obj) Hu) as [Hb _].
  destruct (list_find _ _) as [[k old]|] eqn:Hf.
  - apply list_find_Some in Hf as (Hk & Hid & _). split; [exact Hk|].
    apply id_inj_in_bucket; [|exact Hid].
    eapply Forall_lookup_1 in Hb; eauto.
  - apply list_find_None in Hf. intros (o & Hname & Ho)%list_elem_of_fmap.
    rewrite Forall_forall in Hf, Hb.
    apply (Hf o Ho). apply id_inj_in_bucket; [apply Hb, Ho | congruence].
Qed.

Lemma CreateObject_unique (s : Server) (obj : Object) :
  unique_identities s -> unique_identities (CreateObject s obj).
Proof.
  intros Hu b objs. rewrite CreateObject_buckets.
  destruct (decide (BucketName obj = b)) as [<-|Hb].
  - rewrite lookup_insert_eq. intros [= <-].
    destruct (bucket_unique s (BucketName obj) Hu) as [Hbn Hnd].
    pose proof (list_find_name s obj Hu) as Hf.
    destruct (list_find _ _) as [[k old]|].
    + destruct Hf as [Hk Hname]. split.
      * apply Forall_insert; auto.
      * rewrite list_fmap_insert, list_insert_id; [exact Hnd|].
        now rewrite list_lookup_fmap, Hk, <- Hname.
    + split.
      * apply Forall_app. split; [exact Hbn | now repeat constructor].
      * rewrite fmap_app. apply NoDup_app. split; [exact Hnd|]. split.
        -- intros n Hn Hn'. apply list_elem_of_singleton in Hn'. now subst.
        -- apply NoDup_singleton.
  - rewrite lookup_insert_ne by exact Hb. apply Hu.
Qed.

(** C9: [CreateObject] is an upsert that keeps identities unique.  In a
    store where every identity occurs at most once, creating [obj] gives
    such a store again and leaves the other buckets alone; if the name of
    [obj] is already in its bucket, the object at that position is
    replaced and the bucket keeps its length; otherwise [obj] is appended;
    [GetObject] then returns [obj]; and creating a second object of the
    same identity afterwards keeps the length and leaves exactly one
    object of that name, the second one. *)
Theorem CreateObject_upsert (s : Server) (obj : Object) :
  unique_identities s ->
  let b := BucketName obj in
  let s' := CreateObject s obj in
  unique_identities s'
  /\ (forall b', b' <> b -> buckets s' !! b' = buckets s !! b')
  /\ (Name obj ∈ Name <$> bucket s b ->
      exists k old,
        bucket s b !! k = Some old /\ Name old = Name obj
        /\ bucket s' b = <[k := obj]> (bucket s b)
        /\ length (bucket s' b) = length (bucket s b))
  /\ (Name obj ∉ Name <$> bucket s b -> bucket s' b = bucket s b ++ [obj])
  /\ GetObject s' b (Name obj) = (obj, None)
  /\ (forall obj2, BucketName obj2 = b -> Name obj2 = Name obj ->
      let s'' := CreateObject s' obj2 in
      length (bucket s'' b) = length (bucket s' b)
      /\ List.filter (fun o => bool_decide (Name o = Name obj)) (bucket s'' b)
         = [obj2]
      /\ GetObject s'' b (Name obj) = (obj2, None)).
Proof.
  intros Hu b s'.
  assert (Hu' : unique_identities s') by now apply CreateObject_unique.
  split; [exact Hu'|].
  split; [intros b' Hb'; now apply CreateObject_other|].
  pose proof (list_find_name s obj Hu) as Hf.
  pose proof (CreateObject_bucket s obj) as Hbk. fold b s' in Hf, Hbk.
  split; [|split; [|split; [apply GetObject_CreateObject|]]].
  - intros Hin. destruct (list_find _ _) as [[k old]|]; [|contradiction].
    destruct Hf as [Hk Hname]. exists k, old.
    rewrite Hbk, length_insert. auto.
  - intros Hnotin. destruct (list_find _ _) as [[k old]|]; [|exact Hbk].
    destruct Hf as [Hk Hname]. exfalso. apply Hnotin.
    rewrite <- Hname. apply list_elem_of_fmap. exists old. split; [reflexivity|].
    eapply list_elem_of_lookup_2; eauto.
  - intros obj2 Hb2 Hn2 s''.
    pose proof (list_find_name s' obj2 Hu') as Hf2.
    pose proof (CreateObject_bucket s' obj2) as Hbk2.
    pose proof (CreateObject_unique s' obj2 Hu') as Hu''.
    pose proof (GetObject_CreateObject s' obj2) as Hget.
    rewrite Hb2, Hn2 in *. fold b s'' in Hf2, Hbk2, Hget, Hu''.
    destruct (list_find_created s obj) as [k0 Hk0]. fold b s' in Hk0.
    apply list_find_Some in Hk0 as (Hk0 & _).
    destruct (list_find _ (bucket s' b)) as [[k old]|].
    + destruct Hf2 as [Hk Hname].
      split; [now rewrite Hbk2, length_insert|]. split; [|exact Hget].
      destruct (bucket_unique s'' b Hu'') as [_ Hnd].
      rewrite <- Hn2.
      apply (filter_name_unique _ k obj2 Hnd).
      rewrite Hbk2. apply list_lookup_insert_eq. now apply lookup_lt_Some in Hk.
    + exfalso. apply Hf2. apply list_elem_of_fmap. exists obj.
      split; [reflexivity|]. eapply list_elem_of_lookup_2; eauto.
Qed.

Lemma CreateObject_upsert_witness :
  let old := mkObject "b" "n" ["1"%byte] "" "" "" "" [] ∅ in
  let obj := mkObject "b" "n" ["2"%byte] "" "" "" "" [] ∅ in
  let s := CreateObject (mkServer ∅) old in
  unique_identities s
  /\ unique_identities (CreateObject s obj)
  /\ GetObject (CreateObject s obj) "b" "n" = (obj, None).
Proof.
  intros old obj s.
  assert (Hu : unique_identities s).
  { apply CreateObject_unique. intros b objs Hb. cbn in Hb.
    rewrite lookup_empty in Hb. discriminate. }
  split; [exact Hu|].
  pose proof (CreateObject_upsert s obj Hu) as H. cbv zeta in H.
  split; [apply H | apply H].
Defined.

End Upsert.

(** ** Listing *)

Section NameOrder.

Lemma ascii_compare_trans (a b c : ascii) :
  Ascii.compare a b = Lt -> Ascii.compare b c = Lt -> Ascii.compare a c = Lt.
Proof.
  unfold Ascii.compare. rewrite !N.compare_lt_iff. apply N.lt_trans.
Qed.

Lemma ascii_compare_refl (a : ascii) : Ascii.compare a a = Eq.
Proof. unfold Ascii.compare. apply N.compare_refl. Qed.

Lemma string_le_trans (x y z : string) :
  string_le x y -> string_le y z -> string_le x z.
Proof.
  unfold string_le. revert y z.
  induction x as [|a x IH]; intros [|b y] [|c z]; cbn; try congruence.
  destruct (Ascii.compare a b) eqn:Hab; [| |intros Hgt; destruct (Hgt eq_refl)].
  - apply Ascii.compare_eq_iff in Hab as ->.
    destruct (Ascii.compare b c) eqn:Hbc;
      [apply IH | discriminate | intros _ Hgt; destruct (Hgt eq_refl)].
  - intros _.
    destruct (Ascii.compare b c) eqn:Hbc; [| |intros Hgt; destruct (Hgt eq_refl)].
    + apply Ascii.compare_eq_iff in Hbc as <-. rewrite Hab. discriminate.
    + rewrite (ascii_compare_trans a b c Hab Hbc). discriminate.
Qed.

Lemma ltb_false_le (x y : string) : String.ltb y x = false <-> string_le x y.
Proof.
  unfold String.ltb, string_le. rewrite (String.compare_antisym x y).
  destruct (String.compare y x); cbn; split; easy.
Qed.

Lemma ltb_true_le (x y : string) : String.ltb x y = true -> string_le x y.
Proof.
  unfold String.ltb, string_le. destruct (String.compare x y); easy.
Qed.

End NameOrder.

Section Sorting.

Import Store.

Lemma name_ordered_trans (a b c : Object) :
  name_ordered a b -> name_ordered b c -> name_ordered a c.
Proof.
  unfold name_ordered, name_less. rewrite !ltb_false_le. apply string_le_trans.
Qed.

Lemma name_less_ordered (a b : Object) : name_less a b = true -> name_ordered a b.
Proof.
  unfold name_ordered, name_less. intros H%ltb_true_le. now apply ltb_false_le.
Qed.

Lemma insert_sorted_perm (x : Object) (l : list Object) :
  Permutation (insert_sorted name_less x l) (x :: l).
Proof.
  induction l as [|y l IH]; cbn; [reflexivity|].
  destruct (name_less y x); [|reflexivity].
  rewrite IH. apply perm_swap.
Qed.

Lemma insert_sorted_sorted (x : Object) (l : list Object) :
  StronglySorted name_ordered l ->
  StronglySorted name_ordered (insert_sorted name_less x l).
Proof.
  induction 1 as [|y l Hs IH Hy]; cbn.
  - repeat constructor.
  - destruct (name_less y x) eqn:Hlt.
    + constructor; [exact IH|].
      rewrite insert_sorted_perm. constructor; [|exact Hy].
      now apply name_less_ordered.
    + constructor; [now constructor|]. constructor; [exact Hlt|].
      eapply Forall_impl; [exact Hy|]. intros z Hz.
      now apply (name_ordered_trans x y z).
Qed.

(** Insertion sort is one of the functions [sort.Slice] may be. *)
Lemma insertion_sort_spec : sort_Slice_spec insertion_sort.
Proof.
  intros l. unfold insertion_sort. split.
  - induction l as [|x l IH]; cbn; [reflexivity|].
    now rewrite insert_sorted_perm, IH.
  - induction l as [|x l IH]; cbn; [constructor|].
    now apply insert_sorted_sorted.
Qed.

Lemma filter_perm (f : Object -> bool) (l l' : list Object) :
  Permutation l l' -> Permutation (List.filter f l) (List.filter f l').
Proof.
  induction 1 as [|x l l' _ IH|x y l|l l' l'' _ IH1 _ IH2]; cbn.
  - reflexivity.
  - destruct (f x); [now constructor | exact IH].
  - destruct (f x), (f y); try reflexivity. apply perm_swap.
  - now rewrite IH1.
Qed.

Lemma filter_sorted (f : Object -> bool) (l : list Object) :
  StronglySorted name_ordered l -> StronglySorted name_ordered (List.filter f l).
Proof.
  induction 1 as [|x l Hs IH Hx]; cbn; [constructor|].
  destruct (f x); [|exact IH].
  constructor; [exact IH|].
  rewrite Forall_forall in Hx |- *. intros y Hy%list_elem_of_In.
  apply filter_In in Hy as [Hy _]. apply Hx. now apply list_elem_of_In.
Qed.

End Sorting.

Section Listing.

Import Store.

#[local] Arguments String.append !_ _ / : simpl nomatch.

Lemma string_le_antisym (x y : string) : string_le x y -> string_le y x -> x = y.
Proof.
  unfold string_le. intros H1 H2. rewrite (String.compare_antisym y x) in H2.
  destruct (String.compare x y) eqn:Hc.
  - now apply String.compare_eq_iff.
  - destruct (H2 eq_refl).
  - destruct (H1 eq_refl).
Qed.

(** A list has at most one sorted rearrangement. *)
Lemma sorted_perm_unique (l1 l2 : list string) :
  StronglySorted string_le l1 -> StronglySorted string_le l2 ->
  Permutation l1 l2 -> l1 = l2.
Proof.
  revert l2; induction l1 as [|x l1 IH]; intros l2 H1 H2 Hp.
  - now apply Permutation_nil in Hp.
  - destruct l2 as [|y l2]; [now apply Permutation_sym, Permutation_nil in Hp|].
    apply StronglySorted_inv in H1 as [H1 Hx].
    apply StronglySorted_inv in H2 as [H2 Hy].
    rewrite Forall_forall in Hx, Hy.
    assert (x = y) as <-.
    { assert (Hxin : x ∈ y :: l2) by (rewrite <- Hp; left).
      assert (Hyin : y ∈ x :: l1) by (rewrite Hp; left).
      apply elem_of_cons in Hxin as [?|Hxin]; [assumption|].
      apply elem_of_cons in Hyin as [?|Hyin]; [congruence|].
      apply string_le_antisym; auto. }
    f_equal. apply IH; auto. now apply Permutation_cons_inv in Hp.
Qed.

Lemma names_sorted (l : list Object) :
  StronglySorted name_ordered l -> StronglySorted string_le (Name <$> l).
Proof.
  induction 1 as [|x l _ IH Hx]; cbn; constructor; [exact IH|].
  rewrite Forall_fmap. eapply Forall_impl; [exact Hx|].
  intros y Hy. now apply ltb_false_le.
Qed.

Lemma Replace1_prefix (prefix rest : string) :
  strings_Replace1 (prefix +:+ rest) prefix "" = rest.
Proof.
  unfold strings_Replace1. destruct prefix as [|c p]; [reflexivity|].
  cbn [String.eqb].
  assert (Hp : strings_HasPrefix (String c p +:+ rest) (String c p) = true).
  { apply HasPrefix_iff. now exists rest. }
  remember (String c p) as prefix.
  destruct (prefix +:+ rest) as [|d t] eqn:Hs; cbn [strings_Index]; rewrite Hp.
  - subst prefix. discriminate.
  - rewrite <- Hs. cbn [slice_to]. now rewrite Nat.add_0_l, slice_from_app.
Qed.

(** The filter of [ListObjects] in words: the name starts with the prefix,
    and either the delimiter is empty or it does not occur in what follows
    the prefix. *)
Lemma list_keeps_iff (prefix delimiter : string) (obj : Object) :
  list_keeps prefix delimiter obj = true
  <-> exists rest, Name obj = prefix +:+ rest
                   /\ (delimiter = "" \/ ~ contains rest delimiter).
Proof.
  unfold list_keeps.
  destruct (strings_HasPrefix (Name obj) prefix) eqn:Hp.
  - apply HasPrefix_iff in Hp as [rest Hrest]. rewrite Hrest, Replace1_prefix.
    rewrite orb_true_iff, String.eqb_eq, negb_true_iff.
    rewrite <- not_true_iff_false, Contains_iff. split.
    + intros Hd. now exists rest.
    + intros (rest' & Heq%append_inj_l & Hd). now subst.
  - split; [discriminate|]. intros (rest & Hrest & _).
    assert (strings_HasPrefix (Name obj) prefix = true); [|congruence].
    apply HasPrefix_iff. now exists rest.
Qed.

Lemma three_names_sorted : StronglySorted string_le ["a/b"; "a/c"; "d"]%string.
Proof. repeat constructor; unfold string_le; vm_compute; discriminate. Qed.

Lemma list_keeps_name (prefix delimiter : string) (o1 o2 : Object) :
  Name o1 = Name o2 -> list_keeps prefix delimiter o1 = list_keeps prefix delimiter o2.
Proof. unfold list_keeps. now intros ->. Qed.

Section WithSort.

Variable sort_Slice : (Object -> Object -> bool) -> list Object -> list Object.
Hypothesis sort_Slice_ok : sort_Slice_spec sort_Slice.

Lemma ListObjects_result (s : Server) (b prefix delimiter : string)
    (objects : list Object) :
  buckets s !! b = Some objects ->
  ListObjects sort_Slice s b prefix delimiter
  = (mkServer (<[b := sort_Slice name_less objects]> (buckets s)),
     (List.filter (list_keeps prefix delimiter) (sort_Slice name_less objects),
      None)).
Proof. intros Hb. unfold ListObjects. now rewrite Hb. Qed.

(** On a bucket that holds exactly the names a/b, a/c and d, both the
    listing under "a/" with delimiter "/" and the one with no delimiter
    return a/b and a/c. *)
Lemma ListObjects_three (s : Server) (b delimiter : string)
    (objects : list Object) :
  buckets s !! b = Some objects ->
  Permutation (Name <$> objects) ["a/b"; "a/c"; "d"]%string ->
  delimiter = "/"%string \/ delimiter = ""%string ->
  Name <$> fst (snd (ListObjects sort_Slice s b "a/" delimiter))
  = ["a/b"; "a/c"]%string.
Proof.
  intros Hb Hnames Hd. rewrite (ListObjects_result _ _ _ _ _ Hb). cbn [fst snd].
  destruct (sort_Slice_ok objects) as [Hperm Hsorted].
  assert (Hsn : Name <$> sort_Slice name_less objects
                = ["a/b"; "a/c"; "d"]%string).
  { apply sorted_perm_unique.
    - now apply names_sorted.
    - apply three_names_sorted.
    - now rewrite Hperm. }
  destruct (sort_Slice name_less objects) as [|x [|y [|z [|]]]]; try discriminate.
  injection Hsn as Hx Hy Hz.
  set (ab := mkObject "" "a/b" [] "" "" "" "" [] ∅).
  set (ac := mkObject "" "a/c" [] "" "" "" "" [] ∅).
  set (d := mkObject "" "d" [] "" "" "" "" [] ∅).
  cbn [List.filter].
  rewrite (list_keeps_name _ _ x ab Hx), (list_keeps_name _ _ y ac Hy),
    (list_keeps_name _ _ z d Hz).
  replace (list_keeps "a/" delimiter ab) with true
    by (destruct Hd as [-> | ->]; reflexivity).
  replace (list_keeps "a/" delimiter ac) with true
    by (destruct Hd as [-> | ->]; reflexivity).
  replace (list_keeps "a/" delimiter d) with false
    by (destruct Hd as [-> | ->]; reflexivity).
  cbn. congruence.
Qed.

End WithSort.

End Listing.

Section ListObjectsClaims.

Import Store.

(** C1, as stated, fails on its first example: with the objects a/b, a/c
    and d in a bucket, listing with prefix "a/" and delimiter "/" returns
    a/b and a/c, not the empty list, since neither "b" nor "c" contains
    "/". *)
Lemma ListObjects_delimiter_not_empty :
  let ab := mkObject "bucket" "a/b" [] "" "" "" "" [] ∅ in
  let ac := mkObject "bucket" "a/c" [] "" "" "" "" [] ∅ in
  let d := mkObject "bucket" "d" [] "" "" "" "" [] ∅ in
  let s := mkServer {[ "bucket"%string := [ab; ac; d] ]} in
  snd (ListObjects insertion_sort s "bucket" "a/" "/") = ([ab; ac], None)
  /\ ~ (forall sort_Slice, sort_Slice_spec sort_Slice ->
          fst (snd (ListObjects sort_Slice s "bucket" "a/" "/")) = []).
Proof.
  intros ab ac d s.
  assert (Hb : buckets s !! "bucket"%string = Some [ab; ac; d])
    by apply lookup_singleton_eq.
  split.
  - rewrite (ListObjects_result _ _ _ _ _ _ Hb). reflexivity.
  - intros Hall. specialize (Hall insertion_sort insertion_sort_spec).
    rewrite (ListObjects_result _ _ _ _ _ _ Hb) in Hall. discriminate.
Qed.

(** C1, amended: on a bucket that exists, [ListObjects] succeeds, leaves
    the bucket sorted by name in the store, and returns the objects of the
    bucket whose name starts with the prefix and, when the delimiter is
    not empty, has no delimiter after the prefix, each as often as the
    bucket holds it and in ascending order of names.  For the objects
    a/b, a/c and d and the prefix "a/" the result is a/b, a/c both with
    the delimiter "/" and with the empty one. *)
Theorem ListObjects_filter
    (sort_Slice : (Object -> Object -> bool) -> list Object -> list Object)
    (s : Server) (b prefix delimiter : string) (objects : list Object) :
  sort_Slice_spec sort_Slice ->
  buckets s !! b = Some objects ->
  let result := ListObjects sort_Slice s b prefix delimiter in
  let res := fst (snd result) in
  snd (snd result) = None
  /\ (exists sorted,
        buckets (fst result) = <[b := sorted]> (buckets s)
        /\ Permutation sorted objects /\ StronglySorted name_ordered sorted
        /\ res = List.filter (list_keeps prefix delimiter) sorted)
  /\ Permutation res (List.filter (list_keeps prefix delimiter) objects)
  /\ StronglySorted name_ordered res
  /\ (forall o, o ∈ res <->
        o ∈ objects
        /\ exists rest, Name o = prefix +:+ rest
                        /\ (delimiter = ""%string \/ ~ contains rest delimiter))
  /\ (Permutation (Name <$> objects) ["a/b"; "a/c"; "d"]%string ->
      prefix = "a/"%string ->
      delimiter = "/"%string \/ delimiter = ""%string ->
      Name <$> res = ["a/b"; "a/c"]%string).
Proof.
  intros Hsort Hb result res.
  pose proof (ListObjects_three sort_Slice Hsort s b delimiter objects Hb) as H3.
  subst res result. 
  destruct (Hsort objects) as [Hperm Hsorted].
  split; [now rewrite (ListObjects_result _ _ _ _ _ _ Hb)|].
  split.
  { exists (sort_Slice name_less objects).
    rewrite (ListObjects_result _ _ _ _ _ _ Hb). auto. }
  split.
  { rewrite (ListObjects_result _ _ _ _ _ _ Hb). now apply filter_perm. }
  split.
  { rewrite (ListObjects_result _ _ _ _ _ _ Hb). now apply filter_sorted. }
  split.
  { intros o. rewrite (ListObjects_result _ _ _ _ _ _ Hb). cbn [fst snd].
    rewrite list_elem_of_In, filter_In, <- list_elem_of_In, Hperm.
    now rewrite list_keeps_iff. }
  intros Hnames -> Hd. now apply H3.
Qed.

Lemma ListObjects_filter_witness :
  let ab := mkObject "bucket" "a/b" [] "" "" "" "" [] ∅ in
  let ac := mkObject "bucket" "a/c" [] "" "" "" "" [] ∅ in
  let d := mkObject "bucket" "d" [] "" "" "" "" [] ∅ in
  let s := mkServer {[ "bucket"%string := [d; ac; ab] ]} in
  sort_Slice_spec insertion_sort
  /\ buckets s !! "bucket"%string = Some [d; ac; ab]
  /\ Name <$> fst (snd (ListObjects insertion_sort s "bucket" "a/" "/"))
     = ["a/b"; "a/c"]%string.
Proof.
  intros ab ac d s.
  assert (Hb : buckets s !! "bucket"%string = Some [d; ac; ab])
    by apply lookup_singleton_eq.
  split; [exact insertion_sort_spec|]. split; [exact Hb|].
  pose proof (ListObjects_filter insertion_sort s "bucket" "a/" "/" [d; ac; ab]
                insertion_sort_spec Hb) as H.
  cbv zeta in H. destruct H as (_ & _ & _ & _ & _ & H).
  apply H; [|reflexivity | now left].
  cbn. apply Permutation_rev.
Defined.

End ListObjectsClaims.

(** ** The upload handlers *)

Section HeaderFacts.

Lemma Header_Get_Set (h : gmap string (list string)) (k v : string) :
  Header_Get (Header_Set h k v) k = v.
Proof. unfold Header_Get, Header_Set. now rewrite lookup_insert_eq. Qed.

Lemma Header_Get_Set_ne (h : gmap string (list string)) (k k' v : string) :
  CanonicalMIMEHeaderKey k <> CanonicalMIMEHeaderKey k' ->
  Header_Get (Header_Set h k v) k' = Header_Get h k'.
Proof.
  intros Hne. unfold Header_Get, Header_Set. now rewrite lookup_insert_ne.
Qed.

End HeaderFacts.

Section ChunkFacts.

Import Upload.
Context {B : Type} `{Backend B}.

(** [uploadFileContent] in three steps: find the session, read the body,
    decide. *)
Lemma uploadFileContent_unknown (s : Server B) (r : Request) :
  uploads s !! mux_Var r "uploadId" = None ->
  uploadFileContent s r = (s, jsonResponse_status StatusNotFound).
Proof. intros Hs. unfold uploadFileContent. now rewrite Hs. Qed.

Lemma uploadFileContent_read_error (s : Server B) (r : Request)
    (obj : Object) (got : list byte) (err : error) :
  uploads s !! mux_Var r "uploadId" = Some obj ->
  loadContent (Body r) = (got, Some err) ->
  uploadFileContent s r = (s, jsonResponse_error 0 (Error err)).
Proof. intros Hs Hb. unfold uploadFileContent. now rewrite Hs, Hb. Qed.

Lemma uploadFileContent_decided (s : Server B) (r : Request)
    (obj : Object) (content : list byte) :
  uploads s !! mux_Var r "uploadId" = Some obj ->
  loadContent (Body r) = (content, None) ->
  uploadFileContent s r
  = match chunk_decision r (length (Content obj ++ content)) with
    | Some (responseHeader, commit) =>
        uploadFileContent_finish s r (mux_Var r "uploadId")
          (append_chunk obj content r) commit responseHeader
    | None =>
        (s, jsonResponse_error StatusBadRequest
              ("invalid Content-Range: "
               +:+ Header_Get (Header r) "Content-Range"))
    end.
Proof.
  intros Hs Hb. unfold uploadFileContent, chunk_decision. rewrite Hs, Hb.
  destruct (String.eqb (Header_Get (Header r) "Content-Range") "") eqn:He;
    cbn [negb]; [reflexivity|].
  change (Content (append_chunk obj content r)) with (Content obj ++ content).
  destruct (parseContentRange _) as [parsed [err|]] eqn:Hp.
  - f_equal. f_equal.
    pose proof (parseContentRange_invalidErr (Header_Get (Header r) "Content-Range"))
      as Hinv.
    rewrite Hp in Hinv. cbn in Hinv. specialize (Hinv ltac:(discriminate)).
    now injection Hinv as ->.
  - now destruct (commit_decision _ _).
Qed.

End ChunkFacts.

(** ** Preconditions *)

Section Preconditions.

Import Upload.

(** C8: the cases of the precondition check, in the order in which the
    specification lists them, each case applying when the ones before it do
    not.  The check fails with PreconditionFailed exactly when
    [ifGenerationMatch] is "0" and the object exists; it passes when
    [ifGenerationMatch] is "0" and the object does not exist; for any
    other [ifGenerationMatch] it fails with NotImplemented if
    [ifGenerationMatch] or [ifGenerationNotMatch] is not empty; and it
    passes, without a check, when both are empty. *)
Theorem checkUploadPreconditions_cases {B : Type} `{Backend B}
    (s : Server B) (r : Request) (bucketName objectName : string) :
  let ifGenerationMatch := Values_Get (Query r) "ifGenerationMatch" in
  let ifGenerationNotMatch := Values_Get (Query r) "ifGenerationNotMatch" in
  let exists_ := backend_GetObject (backend s) bucketName objectName = None in
  let result := checkUploadPreconditions s r bucketName objectName in
  (result = Some PreconditionFailed_response
   <-> ifGenerationMatch = "0"%string /\ exists_)
  /\ (ifGenerationMatch = "0"%string -> ~ exists_ -> result = None)
  /\ (ifGenerationMatch <> "0"%string ->
      ifGenerationMatch <> ""%string \/ ifGenerationNotMatch <> ""%string ->
      result = Some NotImplemented_response)
  /\ (ifGenerationMatch = ""%string -> ifGenerationNotMatch = ""%string ->
      result = None).
Proof.
  cbv zeta. unfold checkUploadPreconditions.
  unfold PreconditionFailed_response, NotImplemented_response,
    jsonResponse_error, StatusNotImplemented, StatusPreconditionFailed.
  destruct (String.eqb_spec (Values_Get (Query r) "ifGenerationMatch") "0")
    as [Hm|Hm].
  - destruct (backend_GetObject (backend s) bucketName objectName) as [e|];
      intuition congruence.
  - destruct (String.eqb_spec (Values_Get (Query r) "ifGenerationMatch") "")
      as [He|He];
      destruct (String.eqb_spec (Values_Get (Query r) "ifGenerationNotMatch") "")
      as [Hn|Hn]; cbn; intuition congruence.
Qed.

End Preconditions.

(** ** Chunks of a resumable upload *)

Section RejectedChunk.

Import Upload.

(** C5, as stated, fails when the body cannot be read: the body is read
    before the header is looked at, and the read error is returned with
    its own message and no status. *)
Lemma rejected_chunk_read_error :
  let r := chunk_request "id" [("Content-Range", "bytes 0-999")]%string
             (mkReader [] (Some "unexpected EOF"%string)) in
  uploadFileContent sample_server r
  = (sample_server, jsonResponse_error 0 "unexpected EOF")
  /\ ~ rejected_chunk_claim sample_server r.
Proof.
  intros r.
  assert (Hr : uploadFileContent sample_server r
               = (sample_server, jsonResponse_error 0 "unexpected EOF")).
  { apply (uploadFileContent_read_error _ _ sample_partial []
             (errorString "unexpected EOF")); vm_compute; reflexivity. }
  split; [exact Hr|].
  intros Hc. destruct (Hc sample_partial) as [Hs _].
  - vm_compute; reflexivity.
  - vm_compute; discriminate.
  - vm_compute; discriminate.
  - rewrite Hr in Hs. discriminate.
Qed.

(** C5, amended: a chunk for an existing session whose Content-Range is
    present but does not parse leaves the server, and so the session, as
    it was; it is answered with BadRequest if its body could be read, and
    with the read error otherwise. *)
Theorem malformed_range_keeps_session {B : Type} `{Backend B}
    (s : Server B) (r : Request) (obj : Object) :
  uploads s !! mux_Var r "uploadId" = Some obj ->
  Header_Get (Header r) "Content-Range" <> ""%string ->
  snd (parseContentRange (Header_Get (Header r) "Content-Range")) <> None ->
  fst (uploadFileContent s r) = s
  /\ uploads (fst (uploadFileContent s r)) !! mux_Var r "uploadId" = Some obj
  /\ (snd (loadContent (Body r)) = None ->
      snd (uploadFileContent s r)
      = jsonResponse_error StatusBadRequest
          ("invalid Content-Range: " +:+ Header_Get (Header r) "Content-Range"))
  /\ (forall err, snd (loadContent (Body r)) = Some err ->
      snd (uploadFileContent s r) = jsonResponse_error 0 (Error err)).
Proof.
  intros Hs Hcr Hbad.
  destruct (loadContent (Body r)) as [content [err|]] eqn:Hb.
  - rewrite (uploadFileContent_read_error s r obj content err Hs Hb). cbn.
    repeat split; [exact Hs | discriminate | now intros ? [= <-]].
  - rewrite (uploadFileContent_decided s r obj content Hs Hb).
    unfold chunk_decision.
    apply String.eqb_neq in Hcr. rewrite Hcr.
    destruct (parseContentRange _) as [parsed [e|]]; [|now destruct Hbad].
    cbn. repeat split; [exact Hs | discriminate].
Qed.

Lemma malformed_range_keeps_session_witness :
  let r := chunk_request "id" [("Content-Range", "bytes 0-999")]%string
             (mkReader ["a"%byte] None) in
  uploads sample_server !! mux_Var r "uploadId" = Some sample_partial
  /\ fst (uploadFileContent sample_server r) = sample_server
  /\ snd (uploadFileContent sample_server r)
     = jsonResponse_error StatusBadRequest "invalid Content-Range: bytes 0-999".
Proof.
  intros r.
  assert (Hs : uploads sample_server !! mux_Var r "uploadId" = Some sample_partial)
    by (vm_compute; reflexivity).
  split; [exact Hs|].
  destruct (malformed_range_keeps_session sample_server r sample_partial Hs)
    as (Hst & _ & Hresp & _).
  - vm_compute; discriminate.
  - vm_compute; discriminate.
  - split; [exact Hst|]. rewrite Hresp by reflexivity.
    f_equal.
Defined.

End RejectedChunk.

Section ChunkResponse.

Import Upload.

(** C7, as stated, fails in its second half.  The command is compared
    for equality, so a value that only contains "upload, finalize" does
    not mark the response; and a request that is turned away before the
    commit decision (here: for a session that does not exist) gets no
    header at all. *)
Lemma finalize_not_always_marked :
  ~ finalize_claim sample_server
      (chunk_request "id" [("X-Goog-Upload-Command", "upload, finalize, query")]%string
         (mkReader ["a"%byte] None))
  /\ ~ finalize_claim sample_server
         (chunk_request "nobody" [("X-Goog-Upload-Command", "upload, finalize")]%string
            (mkReader ["a"%byte] None)).
Proof.
  split; intros Hc.
  - assert (Hf : Header_Get
                   (header (snd (uploadFileContent sample_server
                      (chunk_request "id"
                         [("X-Goog-Upload-Command", "upload, finalize, query")]%string
                         (mkReader ["a"%byte] None)))))
                   "X-Goog-Upload-Status" = ""%string)
      by (vm_compute; reflexivity).
    rewrite Hc in Hf; [discriminate|].
    exists ""%string, ", query"%string. vm_compute. reflexivity.
  - assert (Hf : Header_Get
                   (header (snd (uploadFileContent sample_server
                      (chunk_request "nobody"
                         [("X-Goog-Upload-Command", "upload, finalize")]%string
                         (mkReader ["a"%byte] None)))))
                   "X-Goog-Upload-Status" = ""%string)
      by (vm_compute; reflexivity).
    rewrite Hc in Hf; [discriminate|].
    exists ""%string, ""%string. vm_compute. reflexivity.
Qed.

(** C7, amended.  Take a chunk for an existing session whose body is read
    and that reaches the commit decision.  If the decision is not to
    commit, the session is overwritten with the object extended by the
    chunk, the backend is not touched, and the status is 308, or 200 with
    X-Http-Status-Code-Override: 308 if the request has the header
    X-Guploader-No-308.  If X-Goog-Upload-Command equals
    "upload, finalize", the response carries X-Goog-Upload-Status: final
    whether or not the chunk commits, provided that on commit the store
    accepts the object. *)
Theorem chunk_response {B : Type} `{Backend B}
    (s : Server B) (r : Request) (obj : Object) (content : list byte)
    (responseHeader : gmap string (list string)) (commit : bool) :
  uploads s !! mux_Var r "uploadId" = Some obj ->
  loadContent (Body r) = (content, None) ->
  chunk_decision r (length (Content obj ++ content))
  = Some (responseHeader, commit) ->
  let obj' := append_chunk obj content r in
  let s' := fst (uploadFileContent s r) in
  let resp := snd (uploadFileContent s r) in
  let no308 := Header_has (Header r) "X-Guploader-No-308" in
  (commit = false ->
   uploads s' = <[mux_Var r "uploadId" := obj']> (uploads s)
   /\ backend s' = backend s
   /\ data resp = Some obj'
   /\ (no308 = false -> status resp = StatusPermanentRedirect)
   /\ (no308 = true ->
       status resp = StatusOK
       /\ Header_Get (header resp) "X-Http-Status-Code-Override" = "308"%string))
  /\ (Header_Get (Header r) "X-Goog-Upload-Command" = "upload, finalize"%string ->
      commit = false \/ snd (snd (createObject (backend s) obj')) = None ->
      Header_Get (header resp) "X-Goog-Upload-Status" = "final"%string).
Proof.
  intros Hs Hb Hd obj' s' resp no308. subst s' resp.
  rewrite (uploadFileContent_decided s r obj content Hs Hb), Hd.
  fold obj'. unfold uploadFileContent_finish. fold no308.
  split.
  - intros ->. cbn [fst snd uploads backend set_uploads data status header].
    clearbody no308.
    do 3 (split; [reflexivity|]).
    split; [now intros ->|]. intros ->. split; [reflexivity|].
    destruct (String.eqb _ "upload, finalize").
    + rewrite Header_Get_Set_ne by (vm_compute; discriminate).
      apply Header_Get_Set.
    + apply Header_Get_Set.
  - intros Hfin Hok. rewrite Hfin. cbn [String.eqb].
    change (String.eqb "upload, finalize" "upload, finalize") with true.
    destruct commit.
    + destruct Hok as [?|Hok]; [discriminate|].
      destruct (createObject _ obj') as [b [o err]]. cbn in Hok. subst err.
      cbn. apply Header_Get_Set.
    + cbn. apply Header_Get_Set.
Qed.

Lemma chunk_response_witness :
  let r := chunk_request "id"
             [("Content-Range", "bytes 0-0/2"); ("X-Guploader-No-308", "yes");
              ("X-Goog-Upload-Command", "upload, finalize")]%string
             (mkReader ["a"%byte] None) in
  uploads sample_server !! mux_Var r "uploadId" = Some sample_partial
  /\ loadContent (Body r) = (["a"%byte], None)
  /\ status (snd (uploadFileContent sample_server r)) = StatusOK
  /\ Header_Get (header (snd (uploadFileContent sample_server r)))
       "X-Http-Status-Code-Override" = "308"%string
  /\ Header_Get (header (snd (uploadFileContent sample_server r)))
       "X-Goog-Upload-Status" = "final"%string.
Proof.
  intros r.
  assert (Hs : uploads sample_server !! mux_Var r "uploadId" = Some sample_partial)
    by (vm_compute; reflexivity).
  assert (Hb : loadContent (Body r) = (["a"%byte], None)) by reflexivity.
  assert (Hd : chunk_decision r (length (Content sample_partial ++ ["a"%byte]))
               = Some (Header_Set ∅ "Range" "bytes=0-0", false))
    by (vm_compute; reflexivity).
  split; [exact Hs|]. split; [exact Hb|].
  destruct (chunk_response sample_server r sample_partial ["a"%byte] _ _ Hs Hb Hd)
    as [Hkeep Hfin].
  destruct (Hkeep eq_refl) as (_ & _ & _ & _ & Hover).
  destruct Hover as [Hst Hov]; [vm_compute; reflexivity|].
  split; [exact Hst|]. split; [exact Hov|].
  apply Hfin; [vm_compute; reflexivity | now left].
Defined.

End ChunkResponse.

(** ** Initiating a resumable upload *)

Section Initiate.

Import Upload.

Lemma resumableUpload_registers `{GoLib} {B : Type} (s : Server B)
    (bucketName : string) (r : Request) (rand_Read : list byte * option error) :
  snd (loadMetadata (Body r)) = None -> snd rand_Read = None ->
  fst (resumableUpload s bucketName r rand_Read)
  = set_uploads
      (<[fmt_x (fst rand_Read) :=
           initial_object bucketName r (fst (loadMetadata (Body r)))]>
         (uploads s)) s
  /\ data (snd (resumableUpload s bucketName r rand_Read))
     = Some (initial_object bucketName r (fst (loadMetadata (Body r)))).
Proof.
  intros Hm Hr. unfold resumableUpload, generateUploadID.
  destruct (loadMetadata (Body r)) as [metadata err]. cbn in Hm. subst err.
  destruct rand_Read as [raw err]. cbn in Hr. subst err. cbn. auto.
Qed.

Lemma resumableUpload_fails `{GoLib} {B : Type} (s : Server B)
    (bucketName : string) (r : Request) (rand_Read : list byte * option error) :
  snd (loadMetadata (Body r)) <> None \/ snd rand_Read <> None ->
  fst (resumableUpload s bucketName r rand_Read) = s
  /\ data (snd (resumableUpload s bucketName r rand_Read)) = None.
Proof.
  unfold resumableUpload, generateUploadID.
  destruct (loadMetadata (Body r)) as [metadata [e|]]; [auto|].
  destruct rand_Read as [raw [e|]]; cbn; [auto|].
  intros [Hc|Hc]; now destruct Hc.
Qed.

(** C10: initiation ignores the content type and content encoding of the
    JSON metadata.  Either nothing is registered, or the session table
    gains one object, with no content, an empty content type and the
    content encoding of the query parameter; the backend is not touched;
    and a decoder that differs only in the content type and encoding it
    reads gives the same result.  When a chunk commits, the object handed
    to the store has the content type of that request's Content-Type
    header, whatever content type the session object had before. *)
Theorem resumableUpload_ignores_metadata_types `{L : GoLib} {B : Type} `{Backend B}
    (s : Server B) (bucketName : string) (r : Request)
    (rand_Read : list byte * option error) :
  let s' := fst (resumableUpload s bucketName r rand_Read) in
  let resp := snd (resumableUpload s bucketName r rand_Read) in
  ((s' = s /\ data resp = None)
   \/ (exists obj,
         uploads s' = <[fmt_x (fst rand_Read) := obj]> (uploads s)
         /\ data resp = Some obj
         /\ Content obj = []
         /\ ContentType obj = ""%string
         /\ ContentEncoding obj = Values_Get (Query r) "contentEncoding"))
  /\ backend s' = backend s
  /\ (forall L' : GoLib,
        (forall rc, agree_but_types (@json_Decode L rc) (@json_Decode L' rc)) ->
        @resumableUpload L' B s bucketName r rand_Read
        = @resumableUpload L B s bucketName r rand_Read)
  /\ (forall (s : Server B) (r : Request) (obj : Object) (content : list byte)
             (responseHeader : gmap string (list string)),
        uploads s !! mux_Var r "uploadId" = Some obj ->
        loadContent (Body r) = (content, None) ->
        chunk_decision r (length (Content obj ++ content))
        = Some (responseHeader, true) ->
        let obj' := append_chunk obj content r in
        ContentType obj' = Header_Get (Header r) "Content-Type"
        /\ (forall t, append_chunk (set_ContentType t obj) content r = obj')
        /\ backend (fst (uploadFileContent s r))
           = fst (createObject (backend s) obj')).
Proof.
  intros s' resp. subst s' resp.
  split; [|split; [|split]].
  - destruct (snd (loadMetadata (Body r))) as [e|] eqn:Hm;
      [left; apply resumableUpload_fails; left; congruence|].
    destruct (snd rand_Read) as [e|] eqn:Hr;
      [left; apply resumableUpload_fails; right; congruence|].
    right. destruct (resumableUpload_registers s bucketName r rand_Read Hm Hr)
      as [Hs Hd].
    exists (initial_object bucketName r (fst (loadMetadata (Body r)))).
    rewrite Hs, Hd. auto.
  - unfold resumableUpload, generateUploadID.
    destruct (loadMetadata (Body r)) as [metadata [e|]]; [reflexivity|].
    destruct rand_Read as [raw [e|]]; reflexivity.
  - intros L' Hagree. unfold resumableUpload, loadMetadata.
    destruct (Hagree (Body r)) as (Hn & Hmd & He).
    destruct (@json_Decode L (Body r)) as [m e], (@json_Decode L' (Body r)) as [m' e'].
    cbn in Hn, Hmd, He. subst e'. destruct e; [reflexivity|].
    now rewrite Hn, Hmd.
  - intros s1 r1 obj content responseHeader Hs Hb Hd obj'.
    split; [reflexivity|]. split; [reflexivity|].
    rewrite (uploadFileContent_decided s1 r1 obj content Hs Hb), Hd.
    fold obj'. unfold uploadFileContent_finish.
    cbn [backend set_uploads].
    destruct (createObject (backend s1) obj') as [b [o [e|]]]; reflexivity.
Qed.

End Initiate.

(** ** Multipart uploads without a section *)

Section MultipartPanic.

Import Upload.

(** C4 does not hold of the code.  When the Content-Type parses and the
    multipart reader ends with [io.EOF] before any part, [metadata] is
    still nil after the loop; unless the precondition check returns a
    response first, [multipartUpload] then dereferences it, at
    [metadata.Name] if the query has no name and at
    [metadata.ContentEncoding] otherwise, and panics. *)
Theorem multipartUpload_no_section_panics `{GoLib} {B : Type} `{Backend B}
    (s : Server B) (bucketName : string) (r : Request)
    (params : gmap string string) :
  mime_ParseMediaType (Header_Get (Header r) contentTypeHeader) = (params, None) ->
  multipart_parts (Body r) (default ""%string (params !! "boundary"%string))
  = ([], io_EOF) ->
  Values_Get (Query r) "name" = ""%string
  \/ checkUploadPreconditions s r bucketName (Values_Get (Query r) "name") = None ->
  multipartUpload s bucketName r = (s, Panics nil_dereference).
Proof.
  intros Hmime Hparts Hpre. unfold multipartUpload.
  rewrite Hmime, Hparts. cbn [multipart_loop mp_metadata].
  rewrite bool_decide_eq_true_2 by reflexivity. cbn [negb].
  destruct (String.eqb_spec (Values_Get (Query r) "name") "") as [Hn|Hn];
    [reflexivity|].
  destruct Hpre as [Hpre|Hpre]; [contradiction|].
  now rewrite Hpre.
Qed.

Lemma multipartUpload_no_section_panics_witness :
  @mime_ParseMediaType sample_GoLib
    (Header_Get (Header no_section_request) contentTypeHeader)
  = ({[ "boundary"%string := "xyz"%string ]}, None)
  /\ @multipart_parts sample_GoLib (Body no_section_request) "xyz"
     = ([], io_EOF)
  /\ @multipartUpload sample_GoLib _ _ sample_server "bucket" no_section_request
     = (sample_server, Panics nil_dereference)
  /\ @insertObject sample_GoLib _ _
       (mkServer (Store.mkServer {[ "bucket"%string := [] ]}) ∅ "")
       no_section_request ([], None) []
     = (mkServer (Store.mkServer {[ "bucket"%string := [] ]}) ∅ "",
        Panics nil_dereference).
Proof.
  assert (Hm : @mime_ParseMediaType sample_GoLib
                 (Header_Get (Header no_section_request) contentTypeHeader)
               = ({[ "boundary"%string := "xyz"%string ]}, None))
    by (vm_compute; reflexivity).
  assert (Hp : forall b : string, b = "xyz"%string ->
               @multipart_parts sample_GoLib (Body no_section_request) b
               = ([], io_EOF)) by (intros b ->; vm_compute; reflexivity).
  split; [exact Hm|]. split; [now apply Hp|]. split.
  - apply (multipartUpload_no_section_panics (H := sample_GoLib)
             sample_server "bucket" no_section_request _ Hm).
    + apply Hp. vm_compute. reflexivity.
    + right. vm_compute. reflexivity.
  - unfold insertObject.
    replace (backend_GetBucket _ _) with (@None error) by (vm_compute; reflexivity).
    replace (Values_Get (Query no_section_request) "uploadType")
      with "multipart"%string by (vm_compute; reflexivity).
    cbn [String.eqb Ascii.eqb Bool.eqb andb uploadTypeMedia uploadTypeMultipart].
    apply (multipartUpload_no_section_panics (H := sample_GoLib) _ _ _ _ Hm).
    + apply Hp. vm_compute. reflexivity.
    + right. vm_compute. reflexivity.
Defined.

End MultipartPanic.

(** ** A resumable upload in three chunks *)

Section ThreeChunks.

Import Upload.

Lemma append_chunk_fields (obj : Object) (content : list byte) (r : Request) :
  BucketName (append_chunk obj content r) = BucketName obj
  /\ Name (append_chunk obj content r) = Name obj
  /\ Content (append_chunk obj content r) = Content obj ++ content
  /\ Crc32c (append_chunk obj content r)
     = encodedCrc32cChecksum (Content obj ++ content)
  /\ Md5Hash (append_chunk obj content r)
     = encodedMd5Hash (Content obj ++ content).
Proof. repeat split. Qed.

Lemma decision_of_range (r : Request) (len : nat) (range : string)
    (parsed : contentRange) :
  Header_Get (Header r) "Content-Range" = range ->
  String.eqb range "" = false ->
  parseContentRange range = (parsed, None) ->
  chunk_decision r len = Some (commit_decision parsed len).
Proof.
  intros Hh He Hp. unfold chunk_decision. now rewrite Hh, He, Hp.
Qed.

(** A chunk that does not commit: what becomes of the server. *)
Lemma chunk_kept {B : Type} `{Backend B} (s : Server B) (r : Request)
    (obj : Object) (content : list byte)
    (responseHeader : gmap string (list string)) :
  uploads s !! mux_Var r "uploadId" = Some obj ->
  loadContent (Body r) = (content, None) ->
  chunk_decision r (length (Content obj ++ content))
  = Some (responseHeader, false) ->
  fst (uploadFileContent s r)
  = set_uploads (<[mux_Var r "uploadId" := append_chunk obj content r]> (uploads s)) s
  /\ continues (snd (uploadFileContent s r)).
Proof.
  intros Hs Hb Hd.
  rewrite (uploadFileContent_decided s r obj content Hs Hb), Hd.
  unfold uploadFileContent_finish, continues. cbn [fst snd status header].
  split; [reflexivity|].
  destruct (Header_has (Header r) "X-Guploader-No-308"); [right | now left].
  split; [reflexivity|].
  destruct (String.eqb _ "upload, finalize").
  - rewrite Header_Get_Set_ne by (vm_compute; discriminate). apply Header_Get_Set.
  - apply Header_Get_Set.
Qed.

(** A chunk that commits into the store of [object.go]. *)
Lemma chunk_committed (s : Server Store.Server) (r : Request)
    (obj : Object) (content : list byte)
    (responseHeader : gmap string (list string)) :
  uploads s !! mux_Var r "uploadId" = Some obj ->
  loadContent (Body r) = (content, None) ->
  chunk_decision r (length (Content obj ++ content))
  = Some (responseHeader, true) ->
  uploads (fst (uploadFileContent s r)) = delete (mux_Var r "uploadId") (uploads s)
  /\ backend (fst (uploadFileContent s r))
     = Store.CreateObject (backend s) (append_chunk obj content r)
  /\ status (snd (uploadFileContent s r)) = StatusOK
  /\ data (snd (uploadFileContent s r)) = Some (append_chunk obj content r).
Proof.
  intros Hs Hb Hd.
  rewrite (uploadFileContent_decided s r obj content Hs Hb), Hd.
  unfold uploadFileContent_finish. cbn. auto.
Qed.

(** C2: a session is initiated and three chunks of 1000, 1000 and 600
    bytes follow, with the ranges 0-999, 1000-1999 and 2000-2599 of 2600.
    The first two do not commit: the response is 308 (or 200 with the
    override header), the store is as before and the session holds what
    has arrived.  The third commits: the response is 200, the session is
    gone, and the store holds the object, whose content is the three
    chunks one after the other, 2600 bytes long, with the CRC32C and MD5
    digests of that content in base64.  In general a chunk with a known
    range commits exactly if the total is known and is at most end+1
    (computed in [int]). *)
Theorem resumable_three_chunks `{GoLib} (s0 : Server Store.Server)
    (bucketName : string) (r0 r1 r2 r3 : Request)
    (rand_Read : list byte * option error) (c1 c2 c3 : list byte) :
  snd (loadMetadata (Body r0)) = None ->
  snd rand_Read = None ->
  length c1 = 1000%nat -> length c2 = 1000%nat -> length c3 = 600%nat ->
  let uploadId := fmt_x (fst rand_Read) in
  is_chunk r1 uploadId c1 "bytes 0-999/2600" ->
  is_chunk r2 uploadId c2 "bytes 1000-1999/2600" ->
  is_chunk r3 uploadId c3 "bytes 2000-2599/2600" ->
  let s1 := fst (resumableUpload s0 bucketName r0 rand_Read) in
  let a1 := uploadFileContent s1 r1 in
  let a2 := uploadFileContent (fst a1) r2 in
  let a3 := uploadFileContent (fst a2) r3 in
  let name := Name (initial_object bucketName r0 (fst (loadMetadata (Body r0)))) in
  (continues (snd a1) /\ backend (fst a1) = backend s0
   /\ Content <$> uploads (fst a1) !! uploadId = Some c1)
  /\ (continues (snd a2) /\ backend (fst a2) = backend s0
      /\ Content <$> uploads (fst a2) !! uploadId = Some (c1 ++ c2))
  /\ (status (snd a3) = StatusOK
      /\ uploads (fst a3) !! uploadId = None
      /\ exists obj,
           data (snd a3) = Some obj
           /\ Store.GetObject (backend (fst a3)) bucketName name = (obj, None)
           /\ Content obj = c1 ++ c2 ++ c3
           /\ length (Content obj) = 2600%nat
           /\ Crc32c obj = encodedCrc32cChecksum (c1 ++ c2 ++ c3)
           /\ Md5Hash obj = encodedMd5Hash (c1 ++ c2 ++ c3))
  /\ (forall parsed len,
        KnownRange parsed = true ->
        (snd (commit_decision parsed len) = true
         <-> KnownTotal parsed = true
             /\ Total parsed <= wrap_int (End parsed + 1))).
Proof.
  intros Hm Hr Hl1 Hl2 Hl3 uploadId (Hid1 & Hb1 & Hh1) (Hid2 & Hb2 & Hh2)
    (Hid3 & Hb3 & Hh3) s1 a1 a2 a3 name.
  destruct (resumableUpload_registers s0 bucketName r0 rand_Read Hm Hr)
    as [Hs1 _].
  fold s1 uploadId in Hs1.
  set (obj0 := initial_object bucketName r0 (fst (loadMetadata (Body r0)))) in *.
  (* first chunk *)
  assert (Hu1 : uploads s1 !! mux_Var r1 "uploadId" = Some obj0).
  { rewrite Hid1, Hs1. cbn [uploads set_uploads]. apply lookup_insert_eq. }
  assert (Hd1 : chunk_decision r1 (length (Content obj0 ++ c1))
                = Some (Header_Set ∅ "Range" "bytes=0-999", false)).
  { now rewrite (decision_of_range r1 _ _ (mkContentRange true true 0 999 2600) Hh1). }
  destruct (chunk_kept s1 r1 obj0 c1 _ Hu1 Hb1 Hd1) as [Hs2 Hc1].
  fold a1 in Hs2, Hc1. rewrite Hid1 in Hs2.
  set (p1 := append_chunk obj0 c1 r1) in *.
  (* second chunk *)
  assert (Hu2 : uploads (fst a1) !! mux_Var r2 "uploadId" = Some p1).
  { rewrite Hid2, Hs2. cbn [uploads set_uploads]. apply lookup_insert_eq. }
  assert (Hd2 : chunk_decision r2 (length (Content p1 ++ c2))
                = Some (Header_Set ∅ "Range" "bytes=0-1999", false)).
  { now rewrite (decision_of_range r2 _ _ (mkContentRange true true 1000 1999 2600) Hh2). }
  destruct (chunk_kept (fst a1) r2 p1 c2 _ Hu2 Hb2 Hd2) as [Hs3 Hc2].
  fold a2 in Hs3, Hc2. rewrite Hid2 in Hs3.
  set (p2 := append_chunk p1 c2 r2) in *.
  (* third chunk *)
  assert (Hu3 : uploads (fst a2) !! mux_Var r3 "uploadId" = Some p2).
  { rewrite Hid3, Hs3. cbn [uploads set_uploads]. apply lookup_insert_eq. }
  assert (Hd3 : chunk_decision r3 (length (Content p2 ++ c3))
                = Some (Header_Set ∅ "Range" "bytes=0-2599", true)).
  { now rewrite (decision_of_range r3 _ _ (mkContentRange true true 2000 2599 2600) Hh3). }
  destruct (chunk_committed (fst a2) r3 p2 c3 _ Hu3 Hb3 Hd3)
    as (Hup & Hbk & Hst & Hdata).
  fold a3 in Hup, Hbk, Hst, Hdata. rewrite Hid3 in Hup.
  set (p3 := append_chunk p2 c3 r3) in *.
  assert (Hcontent : Content p3 = c1 ++ c2 ++ c3).
  { change (Content p3) with ((([] ++ c1) ++ c2) ++ c3).
    now rewrite app_nil_l, <- app_assoc. }
  split; [|split; [|split]].
  - split; [exact Hc1|]. rewrite Hs2, Hs1. cbn [backend uploads set_uploads].
    split; [reflexivity|]. now rewrite lookup_insert_eq.
  - split; [exact Hc2|]. rewrite Hs3, Hs2, Hs1. cbn [backend uploads set_uploads].
    split; [reflexivity|]. now rewrite lookup_insert_eq.
  - split; [exact Hst|]. split; [rewrite Hup; apply lookup_delete_eq|].
    exists p3. split; [exact Hdata|]. split.
    + rewrite Hbk. apply (GetObject_CreateObject (backend (fst a2)) p3).
    + split; [exact Hcontent|]. split.
      * rewrite Hcontent, !length_app. lia.
      * rewrite <- Hcontent. split; reflexivity.
  - intros parsed len Hk. unfold commit_decision. rewrite Hk. cbn [snd].
    rewrite andb_true_iff, Z.leb_le. reflexivity.
Qed.

End ThreeChunks.

Section ThreeChunksRun.

Import Upload.

Lemma resumable_three_chunks_witness :
  let rand_Read := (repeat x2a 16, @None error) in
  let r0 := mkRequest "POST" {[ "bucketName"%string := "bucket"%string ]}
              {[ "name"%string := ["obj"%string] ]} ∅
              (mkReader (bytes_of_string "{}") None) in
  let uploadId := fmt_x (fst rand_Read) in
  let c1 := repeat "a"%byte 1000 in
  let c2 := repeat "b"%byte 1000 in
  let c3 := repeat "c"%byte 600 in
  let r1 := chunk_request uploadId [("Content-Range", "bytes 0-999/2600")]%string
              (mkReader c1 None) in
  let r2 := chunk_request uploadId [("Content-Range", "bytes 1000-1999/2600")]%string
              (mkReader c2 None) in
  let r3 := chunk_request uploadId [("Content-Range", "bytes 2000-2599/2600")]%string
              (mkReader c3 None) in
  let s1 := fst (@resumableUpload sample_GoLib _ sample_server "bucket" r0 rand_Read) in
  let a1 := uploadFileContent s1 r1 in
  let a2 := uploadFileContent (fst a1) r2 in
  let a3 := uploadFileContent (fst a2) r3 in
  snd (@loadMetadata sample_GoLib (Body r0)) = None
  /\ is_chunk r1 uploadId c1 "bytes 0-999/2600"
  /\ is_chunk r2 uploadId c2 "bytes 1000-1999/2600"
  /\ is_chunk r3 uploadId c3 "bytes 2000-2599/2600"
  /\ continues (snd a1) /\ continues (snd a2)
  /\ status (snd a3) = StatusOK
  /\ uploads (fst a3) !! uploadId = None
  /\ Content (fst (Store.GetObject (backend (fst a3)) "bucket" "obj"))
     = c1 ++ c2 ++ c3.
Proof.
  intros rand_Read r0 uploadId c1 c2 c3 r1 r2 r3 s1 a1 a2 a3.
  assert (Hm : snd (@loadMetadata sample_GoLib (Body r0)) = None)
    by (vm_compute; reflexivity).
  assert (H1 : is_chunk r1 uploadId c1 "bytes 0-999/2600")
    by (repeat split; vm_compute; reflexivity).
  assert (H2 : is_chunk r2 uploadId c2 "bytes 1000-1999/2600")
    by (repeat split; vm_compute; reflexivity).
  assert (H3 : is_chunk r3 uploadId c3 "bytes 2000-2599/2600")
    by (repeat split; vm_compute; reflexivity).
  do 4 (split; [assumption|]).
  destruct (resumable_three_chunks (H := sample_GoLib) sample_server "bucket"
              r0 r1 r2 r3 rand_Read c1 c2 c3 Hm eq_refl eq_refl eq_refl eq_refl
              H1 H2 H3)
    as ((Hc1 & _) & (Hc2 & _) & (Hst & Hgone & obj & _ & Hget & Hcontent & _) & _).
  split; [exact Hc1|]. split; [exact Hc2|]. split; [exact Hst|].
  split; [exact Hgone|].
  replace (Name (initial_object "bucket" r0 (fst (@loadMetadata sample_GoLib (Body r0)))))
    with "obj"%string in Hget by (vm_compute; reflexivity).
  fold s1 a1 a2 a3 in Hget. rewrite Hget. exact Hcontent.
Defined.

End ThreeChunksRun.

(** ** The digests on known values *)

(** The digest functions agree with the published check values of CRC-32C
    and MD5 (of the empty input, of "123456789" and of seventy bytes "a",
    which takes two MD5 blocks). *)
Example digests_known_values :
  encodedCrc32cChecksum [] = "AAAAAA=="%string
  /\ encodedCrc32cChecksum (bytes_of_string "123456789") = "4waSgw=="%string
  /\ encodedCrc32cChecksum (repeat "a"%byte 70) = "MbqMtQ=="%string
  /\ encodedMd5Hash [] = "1B2M2Y8AsgTpgAmY7PhCfg=="%string
  /\ encodedMd5Hash (bytes_of_string "123456789") = "JfnnlDI7RTiF9RgfG2JNCw=="%string
  /\ encodedMd5Hash (repeat "a"%byte 70) = "D1xsTnQL/MCMPCbMsmc9Rg=="%string.
Proof. repeat split; vm_compute; reflexivity. Qed.


(** ** The library models on known values *)

Example strconv_Atoi_known_values :
  strconv_Atoi "2600" = (2600, None)
  /\ strconv_Atoi "+5" = (5, None)
  /\ strconv_Atoi "-1" = (-1, None)
  /\ strconv_Atoi "007" = (7, None)
  /\ strconv_Atoi "" = (0, Some strconv_ErrSyntax)
  /\ strconv_Atoi "-" = (0, Some strconv_ErrSyntax)
  /\ strconv_Atoi "1_000" = (0, Some strconv_ErrSyntax)
  /\ strconv_Atoi "12a" = (0, Some strconv_ErrSyntax)
  /\ strconv_Atoi "9223372036854775808x" = (0, Some strconv_ErrSyntax)
  /\ strconv_Atoi "18446744073709551616x" = (maxInt, Some strconv_ErrRange)
  /\ strconv_Atoi "-18446744073709551616x" = (minInt, Some strconv_ErrRange)
  /\ strconv_Atoi "9223372036854775807" = (maxInt, None)
  /\ strconv_Atoi "9223372036854775808" = (maxInt, Some strconv_ErrRange)
  /\ strconv_Atoi "-9223372036854775808" = (minInt, None)
  /\ strconv_Atoi "-9223372036854775809" = (minInt, Some strconv_ErrRange).
Proof. repeat split; reflexivity. Qed.

Example strings_known_values :
  strings_SplitN2 "0-999/2600" "/" = ["0-999"; "2600"]%string
  /\ strings_SplitN2 "a/b/c" "/" = ["a"; "b/c"]%string
  /\ strings_SplitN2 "5--1" "-" = ["5"; "-1"]%string
  /\ strings_SplitN2 "abc" "/" = ["abc"]%string
  /\ strings_SplitN2 "" "/" = [""]%string
  /\ strings_Replace1 "a/b/a/" "a/" "" = "b/a/"%string
  /\ strings_Replace1 "a/b" "" "" = "a/b"%string
  /\ strings_Contains "b/c" "/" = true
  /\ strings_Contains "b" "/" = false
  /\ strings_TrimPrefix "x-goog-meta-color" "x-goog-meta-" = "color"%string
  /\ (forall L : GoLib,
        @Upload.strings_ToLower L "X-Goog-Meta-Color" = "x-goog-meta-color"%string).
Proof. repeat split; reflexivity. Qed.

Example http_known_values :
  CanonicalMIMEHeaderKey "content-range" = "Content-Range"%string
  /\ CanonicalMIMEHeaderKey "X-Goog-Upload-URL" = "X-Goog-Upload-Url"%string
  /\ CanonicalMIMEHeaderKey "X-Guploader-No-308" = "X-Guploader-No-308"%string
  /\ CanonicalMIMEHeaderKey "not a token" = "not a token"%string
  /\ fmt_d 2599 = "2599"%string
  /\ fmt_d 0 = "0"%string
  /\ fmt_d (-1) = "-1"%string
  /\ fmt_x [x00; x0f; xa5; xff] = "000fa5ff"%string
  /\ wrap_int (maxInt + 1) = minInt.
Proof. repeat split; reflexivity. Qed.

(** * Further properties of the code *)

(** ** Looking up, creating and listing objects *)

Section StoreLookup.

Import Store.

(** The object [GetObject] returns in place of a missing one. *)
Lemma GetObject_list_find (s : Server) (b n : string) :
  GetObject s b n
  = match list_find (fun o => (b +:+ "/" +:+ n)%string = id o) (bucket s b) with
    | Some (_, o) => (o, None)
    | None => (mkObject b n [] "" "" "" "" [] ∅,
               Some (errorString "object not found"))
    end.
Proof.
  unfold GetObject, findObject. cbn [BucketName].
  rewrite findObject_from_list_find.
  change (id (mkObject b n [] "" "" "" "" [] ∅)) with (b +:+ "/" +:+ n)%string.
  destruct (list_find _ _) as [[k o]|] eqn:Hf; [|reflexivity].
  apply list_find_Some in Hf as (Hk & _).
  destruct (0 + Z.of_nat k <? 0) eqn:Hlt; [apply Z.ltb_lt in Hlt; lia|].
  replace (Z.to_nat (0 + Z.of_nat k)) with k by lia. now rewrite Hk.
Qed.

Lemma name_determines (l : list Object) (o o' : Object) :
  NoDup (Name <$> l) -> o ∈ l -> o' ∈ l -> Name o = Name o' -> o = o'.
Proof.
  intros Hnd (i & Hi)%list_elem_of_lookup (j & Hj)%list_elem_of_lookup Hn.
  assert (i = j) as ->; [|congruence].
  apply (NoDup_lookup (Name <$> l) i j (Name o) Hnd).
  - now rewrite list_lookup_fmap, Hi.
  - now rewrite list_lookup_fmap, Hj, Hn.
Qed.

(** In a store with unique identities [GetObject] is the lookup by
    name. *)
Lemma GetObject_Some_iff (s : Server) (b n : string) (o : Object) :
  unique_identities s ->
  GetObject s b n = (o, None) <-> o ∈ bucket s b /\ Name o = n.
Proof.
  intros Hu. destruct (bucket_unique s b Hu) as [Hb Hnd].
  rewrite Forall_forall in Hb.
  assert (Hid : forall x, x ∈ bucket s b ->
                  ((b +:+ "/" +:+ n)%string = id x <-> Name x = n)).
  { intros x Hx.
    apply (id_inj_in_bucket x (mkObject b n [] "" "" "" "" [] ∅)). now apply Hb. }
  rewrite GetObject_list_find.
  destruct (list_find _ _) as [[k x]|] eqn:Hf.
  - apply list_find_Some in Hf as (Hk & Hx & _).
    assert (Hxin : x ∈ bucket s b) by (eapply list_elem_of_lookup_2; eauto).
    apply Hid in Hx; [|exact Hxin]. split.
    + intros [= <-]. auto.
    + intros [Ho Hn]. f_equal. apply (name_determines _ _ _ Hnd Hxin Ho).
      congruence.
  - split; [discriminate|]. intros [Ho Hn]. exfalso.
    apply list_find_None in Hf. rewrite Forall_forall in Hf.
    apply (Hf o Ho). now apply Hid.
Qed.

Lemma GetObject_None_iff (s : Server) (b n : string) :
  unique_identities s ->
  GetObject s b n
  = (mkObject b n [] "" "" "" "" [] ∅, Some (errorString "object not found"))
  <-> n ∉ Name <$> bucket s b.
Proof.
  intros Hu. split.
  - intros Hg (o & Hn & Ho)%list_elem_of_fmap.
    assert (Hs : GetObject s b n = (o, None))
      by (apply GetObject_Some_iff; auto).
    rewrite Hs in Hg. discriminate.
  - intros Hn. rewrite GetObject_list_find.
    destruct (list_find _ _) as [[k x]|] eqn:Hf; [|reflexivity].
    exfalso. apply Hn.
    assert (Hs : GetObject s b n = (x, None))
      by (rewrite GetObject_list_find, Hf; reflexivity).
    apply GetObject_Some_iff in Hs as [Hx <-]; [|exact Hu].
    apply list_elem_of_fmap. eauto.
Qed.

(** Two stores with unique identities whose buckets [b] hold the same
    objects of name [n] answer [GetObject] alike. *)
Lemma GetObject_ext (s s' : Server) (b n : string) :
  unique_identities s -> unique_identities s' ->
  (forall o, o ∈ bucket s' b /\ Name o = n <-> o ∈ bucket s b /\ Name o = n) ->
  GetObject s' b n = GetObject s b n.
Proof.
  intros Hu Hu' Hsame.
  destruct (decide (n ∈ Name <$> bucket s b)) as [Hin|Hnotin].
  - apply list_elem_of_fmap in Hin as (o & Hn & Ho).
    transitivity (o, @None error).
    + apply GetObject_Some_iff; [exact Hu'|]. apply Hsame. auto.
    + symmetry. apply GetObject_Some_iff; auto.
  - rewrite (proj2 (GetObject_None_iff s b n Hu) Hnotin).
    apply GetObject_None_iff; [exact Hu'|].
    intros (o & Hn & Ho)%list_elem_of_fmap. apply Hnotin.
    apply list_elem_of_fmap. exists o. split; [exact Hn|].
    apply Hsame. auto.
Qed.

(** X1: in a store with unique identities [GetObject] is the lookup by
    bucket and name: it returns an object exactly if that object is in
    the bucket under that name, and it fails, returning the error
    "object not found" beside an empty object of that bucket and name,
    exactly if the bucket (which may be missing) has no object of that
    name. *)
Theorem GetObject_is_lookup (s : Server) (b n : string) :
  unique_identities s ->
  (forall o, GetObject s b n = (o, None) <-> o ∈ bucket s b /\ Name o = n)
  /\ (n ∉ Name <$> bucket s b <->
      GetObject s b n
      = (mkObject b n [] "" "" "" "" [] ∅, Some (errorString "object not found")))
  /\ (buckets s !! b = None -> snd (GetObject s b n) <> None).
Proof.
  intros Hu. split; [|split].
  - intros o. now apply GetObject_Some_iff.
  - symmetry. now apply GetObject_None_iff.
  - intros Hb. rewrite GetObject_list_find. unfold bucket. rewrite Hb. discriminate.
Qed.

Lemma GetObject_is_lookup_witness :
  let o := mkObject "b" "n" ["1"%byte] "" "" "" "" [] ∅ in
  let s := CreateObject (mkServer ∅) o in
  unique_identities s
  /\ GetObject s "b" "n" = (o, None)
  /\ snd (GetObject s "c" "n") <> None.
Proof.
  intros o s.
  assert (Hu : unique_identities s).
  { apply CreateObject_unique. intros b objs Hb. cbn in Hb.
    rewrite lookup_empty in Hb. discriminate. }
  split; [exact Hu|].
  destruct (GetObject_is_lookup s "b" "n" Hu) as (Hsome & _ & _).
  destruct (GetObject_is_lookup s "c" "n" Hu) as (_ & _ & Hnone).
  split.
  - apply Hsome. split; [|reflexivity]. vm_compute. left.
  - apply Hnone. vm_compute. reflexivity.
Defined.

End StoreLookup.

Section StoreFrame.

Import Store.

#[local] Arguments String.append !_ _ / : simpl nomatch.

Lemma bucket_other (s : Server) (obj : Object) (b : string) :
  b <> BucketName obj -> bucket (CreateObject s obj) b = bucket s b.
Proof. intros Hb. unfold bucket. now rewrite CreateObject_other. Qed.

(** The objects of another name are the same before and after a create. *)
Lemma CreateObject_other_names (s : Server) (obj o : Object) (n : string) :
  unique_identities s -> n <> Name obj ->
  o ∈ bucket (CreateObject s obj) (BucketName obj) /\ Name o = n
  <-> o ∈ bucket s (BucketName obj) /\ Name o = n.
Proof.
  intros Hu Hn. rewrite CreateObject_bucket.
  pose proof (list_find_name s obj Hu) as Hf.
  destruct (list_find _ _) as [[k old]|].
  - destruct Hf as [Hk Hold]. split; intros [Ho Hname]; (split; [|exact Hname]).
    + apply list_elem_of_lookup in Ho as [i Hi].
      destruct (decide (i = k)) as [->|Hik].
      * rewrite list_lookup_insert_eq in Hi by (now apply lookup_lt_Some in Hk).
        congruence.
      * rewrite list_lookup_insert_ne in Hi by congruence.
        eapply list_elem_of_lookup_2; eauto.
    + apply list_elem_of_lookup in Ho as [i Hi].
      assert (i <> k) by (intros ->; congruence).
      apply list_elem_of_lookup. exists i.
      now rewrite list_lookup_insert_ne by congruence.
  - rewrite elem_of_app, list_elem_of_singleton. split.
    + intros [[Ho | ->] Hname]; [auto | congruence].
    + intros [Ho Hname]. auto.
Qed.

(** X2: creating an object does not disturb the others.  In a store with
    unique identities, [GetObject] for any other bucket or name returns
    after [CreateObject] what it returned before. *)
Theorem CreateObject_frame (s : Server) (obj : Object) (b n : string) :
  unique_identities s ->
  b <> BucketName obj \/ n <> Name obj ->
  GetObject (CreateObject s obj) b n = GetObject s b n.
Proof.
  intros Hu Hne.
  apply GetObject_ext; [exact Hu | now apply CreateObject_unique|].
  intros o. destruct (decide (b = BucketName obj)) as [->|Hb].
  - destruct Hne as [Hne|Hne]; [congruence|].
    now apply CreateObject_other_names.
  - now rewrite bucket_other.
Qed.

Lemma CreateObject_frame_witness :
  let a := mkObject "b" "a" ["1"%byte] "" "" "" "" [] ∅ in
  let c := mkObject "b" "c" ["2"%byte] "" "" "" "" [] ∅ in
  let s := CreateObject (mkServer ∅) a in
  unique_identities s
  /\ GetObject (CreateObject s c) "b" "a" = (a, None).
Proof.
  intros a c s.
  assert (Hu : unique_identities s).
  { apply CreateObject_unique. intros b objs Hb. cbn in Hb.
    rewrite lookup_empty in Hb. discriminate. }
  split; [exact Hu|].
  rewrite (CreateObject_frame s c "b" "a" Hu); [|right; discriminate].
  apply (GetObject_CreateObject (mkServer ∅) a).
Defined.

(** X3: creating the same object twice is the same as creating it once,
    in every store. *)
Theorem CreateObject_idempotent (s : Server) (obj : Object) :
  CreateObject (CreateObject s obj) obj = CreateObject s obj.
Proof.
  destruct (list_find_created s obj) as [k Hk].
  assert (Hb : buckets (CreateObject (CreateObject s obj) obj)
               = buckets (CreateObject s obj)).
  { rewrite (CreateObject_buckets (CreateObject s obj) obj), Hk.
    apply list_find_Some in Hk as (Hk & _).
    rewrite (list_insert_id _ _ _ Hk).
    apply insert_id. unfold bucket in Hk |- *.
    destruct (buckets (CreateObject s obj) !! BucketName obj) as [l|] eqn:Hl;
      [reflexivity|].
    rewrite CreateObject_buckets, lookup_insert_eq in Hl. discriminate. }
  destruct (CreateObject (CreateObject s obj) obj), (CreateObject s obj).
  cbn in Hb. now subst.
Qed.

End StoreFrame.

Section StoreListing.

Import Store.

#[local] Arguments String.append !_ _ / : simpl nomatch.

Variable sort_Slice : (Object -> Object -> bool) -> list Object -> list Object.
Hypothesis sort_Slice_ok : sort_Slice_spec sort_Slice.

Lemma ListObjects_bucket (s : Server) (b b' prefix delimiter : string) :
  Permutation (bucket (fst (ListObjects sort_Slice s b prefix delimiter)) b')
              (bucket s b').
Proof.
  unfold ListObjects, bucket.
  destruct (buckets s !! b) as [objects|] eqn:Hb; [|reflexivity].
  cbn [fst buckets]. destruct (decide (b = b')) as [<-|Hne].
  - rewrite lookup_insert_eq, Hb. cbn. apply sort_Slice_ok.
  - now rewrite lookup_insert_ne.
Qed.

Lemma ListObjects_unique (s : Server) (b prefix delimiter : string) :
  unique_identities s ->
  unique_identities (fst (ListObjects sort_Slice s b prefix delimiter)).
Proof.
  intros Hu b' objs Hb'.
  pose proof (ListObjects_bucket s b b' prefix delimiter) as Hp.
  unfold bucket at 1 in Hp. rewrite Hb' in Hp. cbn in Hp.
  destruct (bucket_unique s b' Hu) as [Hbn Hnd].
  split.
  - now rewrite Hp.
  - now rewrite Hp.
Qed.

End StoreListing.

Section StoreListingExtras.

Import Store.

#[local] Arguments String.append !_ _ / : simpl nomatch.

Lemma filter_names_NoDup (f : Object -> bool) (l : list Object) :
  NoDup (Name <$> l) -> NoDup (Name <$> List.filter f l).
Proof.
  induction l as [|x l IH]; cbn; [auto|].
  rewrite NoDup_cons. intros [Hx Hnd]. destruct (f x); [|auto].
  cbn. apply NoDup_cons. split; [|auto].
  intros (y & Hy & Hin)%list_elem_of_fmap. apply Hx.
  apply list_elem_of_fmap. exists y. split; [exact Hy|].
  apply list_elem_of_In in Hin. apply filter_In in Hin as [Hin _].
  now apply list_elem_of_In.
Qed.

(** X4: listing does not change what the store answers.  [ListObjects]
    sorts the bucket in place; in a store with unique identities the store
    it leaves behind still has unique identities, and [GetObject] returns
    for every bucket and name what it returned before. *)
Theorem ListObjects_keeps_lookups
    (sort_Slice : (Object -> Object -> bool) -> list Object -> list Object)
    (s : Server) (b prefix delimiter b' n : string) :
  sort_Slice_spec sort_Slice ->
  unique_identities s ->
  let s' := fst (ListObjects sort_Slice s b prefix delimiter) in
  unique_identities s' /\ GetObject s' b' n = GetObject s b' n.
Proof.
  intros Hsort Hu s'.
  assert (Hu' : unique_identities s') by now apply ListObjects_unique.
  split; [exact Hu'|].
  apply GetObject_ext; [exact Hu | exact Hu'|].
  intros o. subst s'.
  now rewrite (ListObjects_bucket sort_Slice Hsort s b b' prefix delimiter).
Qed.

Lemma ListObjects_keeps_lookups_witness :
  let a := mkObject "b" "z" ["1"%byte] "" "" "" "" [] ∅ in
  let c := mkObject "b" "c" ["2"%byte] "" "" "" "" [] ∅ in
  let s := CreateObject (CreateObject (mkServer ∅) a) c in
  sort_Slice_spec insertion_sort
  /\ unique_identities s
  /\ GetObject (fst (ListObjects insertion_sort s "b" "" "")) "b" "z"
     = GetObject s "b" "z".
Proof.
  intros a c s.
  assert (Hu : unique_identities s).
  { do 2 apply CreateObject_unique. intros b objs Hb. cbn in Hb.
    rewrite lookup_empty in Hb. discriminate. }
  split; [exact insertion_sort_spec|]. split; [exact Hu|].
  apply (ListObjects_keeps_lookups insertion_sort s "b" "" "" "b" "z"
           insertion_sort_spec Hu).
Defined.

(** X5: what [ListObjects] returns can be fetched.  In a store with
    unique identities every listed object is what [GetObject] returns for
    its name, and no two listed objects have the same name. *)
Theorem ListObjects_fetchable
    (sort_Slice : (Object -> Object -> bool) -> list Object -> list Object)
    (s : Server) (b prefix delimiter : string) :
  sort_Slice_spec sort_Slice ->
  unique_identities s ->
  let res := fst (snd (ListObjects sort_Slice s b prefix delimiter)) in
  NoDup (Name <$> res)
  /\ forall o, o ∈ res -> GetObject s b (Name o) = (o, None).
Proof.
  intros Hsort Hu res. subst res. unfold ListObjects.
  destruct (buckets s !! b) as [objects|] eqn:Hb; cbn [fst snd].
  - destruct (Hsort objects) as [Hperm _].
    destruct (Hu b objects Hb) as [_ Hnd].
    assert (Hbk : bucket s b = objects) by (unfold bucket; now rewrite Hb).
    split.
    + apply filter_names_NoDup. now rewrite Hperm.
    + intros o Ho. apply GetObject_Some_iff; [exact Hu|].
      split; [|reflexivity]. rewrite Hbk, <- Hperm.
      apply list_elem_of_In in Ho. apply filter_In in Ho as [Ho _].
      now apply list_elem_of_In.
  - split; [constructor|]. intros o Ho. now apply elem_of_nil in Ho.
Qed.

Lemma ListObjects_fetchable_witness :
  let a := mkObject "b" "z" ["1"%byte] "" "" "" "" [] ∅ in
  let c := mkObject "b" "c" ["2"%byte] "" "" "" "" [] ∅ in
  let s := CreateObject (CreateObject (mkServer ∅) a) c in
  sort_Slice_spec insertion_sort
  /\ unique_identities s
  /\ NoDup (Name <$> fst (snd (ListObjects insertion_sort s "b" "" ""))).
Proof.
  intros a c s.
  assert (Hu : unique_identities s).
  { do 2 apply CreateObject_unique. intros b objs Hb. cbn in Hb.
    rewrite lookup_empty in Hb. discriminate. }
  split; [exact insertion_sort_spec|]. split; [exact Hu|].
  apply (ListObjects_fetchable insertion_sort s "b" "" "" insertion_sort_spec Hu).
Defined.

(** X6: an object that has been created is listed.  Whatever the store
    was, after [CreateObject] the bucket of the object exists, so that
    [ListObjects] on it succeeds, and the object is in the result for
    every prefix of its name and every delimiter that is empty or does
    not occur after the prefix; in particular for no prefix and no
    delimiter. *)
Theorem CreateObject_then_listed
    (sort_Slice : (Object -> Object -> bool) -> list Object -> list Object)
    (s : Server) (obj : Object) (prefix delimiter rest : string) :
  sort_Slice_spec sort_Slice ->
  Name obj = prefix +:+ rest ->
  delimiter = ""%string \/ ~ contains rest delimiter ->
  let result := ListObjects sort_Slice (CreateObject s obj) (BucketName obj)
                  prefix delimiter in
  snd (snd result) = None /\ obj ∈ fst (snd result).
Proof.
  intros Hsort Hname Hd result. subst result.
  destruct (list_find_created s obj) as [k Hk].
  apply list_find_Some in Hk as (Hk & _).
  assert (Hb : buckets (CreateObject s obj) !! BucketName obj
               = Some (bucket (CreateObject s obj) (BucketName obj))).
  { unfold bucket. rewrite CreateObject_buckets, lookup_insert_eq. reflexivity. }
  rewrite (ListObjects_result sort_Slice _ _ _ _ _ Hb). cbn [fst snd].
  split; [reflexivity|].
  apply list_elem_of_In, filter_In. split.
  - apply list_elem_of_In. rewrite (proj1 (Hsort _)).
    eapply list_elem_of_lookup_2; eauto.
  - apply list_keeps_iff. exists rest. auto.
Qed.

Lemma CreateObject_then_listed_witness :
  let obj := mkObject "b" "dir/file" ["1"%byte] "" "" "" "" [] ∅ in
  sort_Slice_spec insertion_sort
  /\ Name obj = ("dir/" +:+ "file")%string
  /\ obj ∈ fst (snd (ListObjects insertion_sort (CreateObject (mkServer ∅) obj)
                       "b" "dir/" "/")).
Proof.
  intros obj.
  split; [exact insertion_sort_spec|]. split; [reflexivity|].
  apply (CreateObject_then_listed insertion_sort (mkServer ∅) obj "dir/" "/" "file"
           insertion_sort_spec eq_refl).
  right. intros Hc. apply Contains_iff in Hc. discriminate.
Defined.

End StoreListingExtras.

Section DownloadExtras.

Import Store Download.

(** X7: what was created can be downloaded.  After [CreateObject] the
    download handler answers a request for the bucket and name of the
    object with status 200 and the content of the object as the body; if
    the store, with unique identities, has no object of that name in that
    bucket, it answers 404 with the body "not found" and a newline. *)
Theorem downloadObject_round_trip (s : Server) (obj : Object) (r : Request) :
  mux_Var r "bucketName" = BucketName obj ->
  mux_Var r "objectName" = Name obj ->
  downloadObject (CreateObject s obj) r
  = mkResponseWriter StatusOK ∅ (Content obj)
  /\ (unique_identities s ->
      Name obj ∉ Name <$> bucket s (BucketName obj) ->
      rw_status (downloadObject s r) = StatusNotFound
      /\ rw_body (downloadObject s r) = bytes_of_string "not found" ++ [x0a]).
Proof.
  intros Hb Hn. unfold downloadObject. rewrite Hb, Hn. split.
  - now rewrite GetObject_CreateObject.
  - intros Hu Hnotin.
    rewrite (proj2 (GetObject_None_iff s _ _ Hu) Hnotin). split; reflexivity.
Qed.

Lemma downloadObject_round_trip_witness :
  let obj := mkObject "b" "n" ["h"; "i"]%byte "" "" "" "" [] ∅ in
  let r := mkRequest "GET"
             (<["bucketName"%string := "b"%string]>
                {[ "objectName"%string := "n"%string ]})
             ∅ ∅ (mkReader [] None) in
  mux_Var r "bucketName" = "b"%string
  /\ mux_Var r "objectName" = "n"%string
  /\ downloadObject (CreateObject (mkServer ∅) obj) r
     = mkResponseWriter StatusOK ∅ ["h"; "i"]%byte.
Proof.
  intros obj r.
  assert (Hb : mux_Var r "bucketName" = BucketName obj) by (vm_compute; reflexivity).
  assert (Hn : mux_Var r "objectName" = Name obj) by (vm_compute; reflexivity).
  split; [exact Hb|]. split; [exact Hn|].
  apply (downloadObject_round_trip (mkServer ∅) obj r Hb Hn).
Defined.

End DownloadExtras.

(** ** Printing and parsing numbers and ranges *)

Section DecimalFacts.

#[local] Arguments String.append !_ _ / : simpl nomatch.

Lemma digits_value_cons_digit (c : ascii) (s : string) (acc : Z) :
  is_digit c = true ->
  digits_value acc (String c s) = digits_value (acc * 10 + digit_value c) s.
Proof. intros Hc. cbn [digits_value]. now rewrite Hc. Qed.

Lemma digits_value_of_uint_acc (d : Decimal.uint) (acc : positive) :
  digits_value (Z.pos acc) (NilEmpty.string_of_uint d)
  = Some (Z.pos (Pos.of_uint_acc d acc)).
Proof.
  revert acc; induction d; intros acc; cbn [NilEmpty.string_of_uint Pos.of_uint_acc];
    [reflexivity | ..];
    (cbn [digits_value]; cbv [is_digit digit_value]; cbn [N_of_ascii N_of_digits];
     cbn; rewrite <- IHd; f_equal; lia).
Qed.

Lemma digits_value_of_uint (d : Decimal.uint) :
  digits_value 0 (NilEmpty.string_of_uint d) = Some (Z.of_N (Pos.of_uint d)).
Proof.
  induction d; cbn [NilEmpty.string_of_uint Pos.of_uint]; [reflexivity | ..];
    rewrite digits_value_cons_digit by reflexivity;
    match goal with
    | |- context [digit_value ?c] =>
        let v := eval vm_compute in (digit_value c) in
        change (digit_value c) with v
    end; rewrite Z.mul_0_l, Z.add_0_l;
    [exact IHd | rewrite digits_value_of_uint_acc; reflexivity ..].
Qed.

Lemma string_of_uint_pos (p : positive) :
  exists c s, NilEmpty.string_of_uint (Pos.to_uint p) = String c s
              /\ is_digit c = true
              /\ digits_value 0 (String c s) = Some (Z.pos p).
Proof.
  pose proof (digits_value_of_uint (Pos.to_uint p)) as Hv.
  rewrite DecimalPos.Unsigned.of_to in Hv. cbn [Z.of_N] in Hv.
  destruct (NilEmpty.string_of_uint (Pos.to_uint p)) as [|c s] eqn:Hs.
  - discriminate.
  - exists c, s. split; [reflexivity|]. split; [|exact Hv].
    exact (digits_value_first _ _ _ _ Hv).
Qed.

Lemma fmt_d_pos (p : positive) :
  fmt_d (Z.pos p) = NilEmpty.string_of_uint (Pos.to_uint p).
Proof.
  unfold fmt_d. cbn [Z.to_int NilZero.string_of_int NilZero.string_of_uint].
  destruct (Pos.to_uint p) eqn:Hp; try reflexivity.
  now apply DecimalPos.Unsigned.to_uint_nonnil in Hp.
Qed.

Lemma fmt_d_neg (p : positive) :
  fmt_d (Z.neg p) = String "-" (NilEmpty.string_of_uint (Pos.to_uint p)).
Proof.
  unfold fmt_d. cbn [Z.to_int NilZero.string_of_int NilZero.string_of_uint].
  destruct (Pos.to_uint p) eqn:Hp; try reflexivity.
  now apply DecimalPos.Unsigned.to_uint_nonnil in Hp.
Qed.

(** Printing a number that fits [int] and reading it back gives the
    number. *)
Lemma Atoi_fmt_d (z : Z) :
  minInt <= z <= maxInt -> strconv_Atoi (fmt_d z) = (z, None).
Proof.
  intros Hz. destruct z as [|p|p].
  - reflexivity.
  - rewrite fmt_d_pos.
    destruct (string_of_uint_pos p) as (c & s & -> & Hc & Hv).
    unfold strconv_Atoi. destruct (digit_not_sign c Hc) as [-> ->].
    cbn [orb]. rewrite Hv.
    destruct (Z.pos p <=? maxInt) eqn:Hle; [reflexivity|].
    apply Z.leb_gt in Hle. lia.
  - rewrite fmt_d_neg.
    destruct (string_of_uint_pos p) as (c & s & -> & Hc & Hv).
    unfold strconv_Atoi. change (Ascii.eqb "-" "-") with true. cbn [orb].
    rewrite Hv.
    destruct (Z.pos p <=? - minInt) eqn:Hle; [reflexivity|].
    apply Z.leb_gt in Hle. lia.
Qed.

(** A string of digits has no other character in it. *)
Lemma digits_no_char (s : string) (acc n : Z) (c : ascii) :
  digits_value acc s = Some n -> is_digit c = false ->
  ~ contains s (String c "").
Proof.
  revert acc; induction s as [|d s IH]; intros acc Hv Hc.
  - intros H%contains_nil. discriminate.
  - cbn [digits_value] in Hv. destruct (is_digit d) eqn:Hd; [|discriminate].
    rewrite contains_cons. intros [[t Ht] | Hin].
    + cbn in Ht. injection Ht as -> _. congruence.
    + exact (IH _ Hv Hc Hin).
Qed.

Lemma fmt_d_no_char (z : Z) (c : ascii) :
  is_digit c = false -> (0 <= z \/ c <> "-"%char) ->
  ~ contains (fmt_d z) (String c "").
Proof.
  intros Hc Hz. destruct z as [|p|p].
  - apply (digits_no_char "0" 0 0 c eq_refl Hc).
  - rewrite fmt_d_pos.
    destruct (string_of_uint_pos p) as (d & s & -> & _ & Hv).
    exact (digits_no_char _ _ _ c Hv Hc).
  - rewrite fmt_d_neg.
    destruct (string_of_uint_pos p) as (d & s & -> & _ & Hv).
    rewrite contains_cons. intros [[t Ht] | Hin].
    + cbn in Ht. injection Ht as <- _. destruct Hz as [Hz|Hz]; [lia | congruence].
    + exact (digits_no_char _ _ _ c Hv Hc Hin).
Qed.

Lemma contains_char_app (x y : string) (c : ascii) :
  contains (x +:+ y) (String c "") ->
  contains x (String c "") \/ contains y (String c "").
Proof.
  induction x as [|d x IH]; cbn; [auto|].
  rewrite !contains_cons. intros [[t Ht] | Hin].
  - left. left. exists x. cbn in Ht |- *. injection Ht as -> _. reflexivity.
  - destruct (IH Hin); auto.
Qed.

End DecimalFacts.

Section ParserRoundTrip.

#[local] Arguments String.append !_ _ / : simpl nomatch.

Lemma parse_range_numbers (a b : Z) :
  0 <= a <= maxInt -> minInt <= b <= maxInt ->
  parseContentRange_range (fmt_d a +:+ "-" +:+ fmt_d b) contentRange_zero
  = (mkContentRange true false a b 0, false).
Proof.
  intros Ha Hb. unfold parseContentRange_range.
  assert (Hdash : ~ contains (fmt_d a) "-").
  { apply fmt_d_no_char; [reflexivity | lia]. }
  destruct (String.eqb_spec (fmt_d a +:+ "-" +:+ fmt_d b) "*") as [Heq|_].
  { exfalso. apply Hdash.
    destruct (fmt_d a) as [|c [|d s]]; cbn in Heq; try discriminate. }
  change ("-" +:+ fmt_d b)%string with (String "-" (fmt_d b)).
  rewrite (SplitN2_char_app _ _ "-" Hdash).
  rewrite (Atoi_fmt_d a) by (unfold minInt, maxInt, intSize in *; lia).
  now rewrite (Atoi_fmt_d b).
Qed.

Lemma parse_total_number (t : Z) (p : contentRange) :
  minInt <= t <= maxInt ->
  parseContentRange_total (fmt_d t) p
  = (set_Total t (set_KnownTotal true p), false).
Proof.
  intros Ht. unfold parseContentRange_total.
  destruct (String.eqb_spec (fmt_d t) "*") as [Heq|_].
  { exfalso. apply (fmt_d_no_char t "*"); [reflexivity | right; discriminate|].
    rewrite Heq. exists ""%string, ""%string. reflexivity. }
  now rewrite (Atoi_fmt_d t).
Qed.

Lemma parse_after_prefix (rng tot : string) :
  ~ contains rng "/" ->
  parseContentRange ("bytes " +:+ rng +:+ "/" +:+ tot)
  = let '(parsed, bad) := parseContentRange_range rng contentRange_zero in
    if bad then (parsed, invalidErr ("bytes " +:+ rng +:+ "/" +:+ tot))
    else
      let '(parsed, bad) := parseContentRange_total tot parsed in
      if bad then (parsed, invalidErr ("bytes " +:+ rng +:+ "/" +:+ tot))
      else (parsed, None).
Proof.
  intros Hn. unfold parseContentRange at 1.
  assert (Hp : strings_HasPrefix ("bytes " +:+ rng +:+ "/" +:+ tot) bytesPrefix = true).
  { apply HasPrefix_iff. eexists. reflexivity. }
  rewrite Hp. cbn [negb].
  change (slice_from (String.length bytesPrefix) ("bytes " +:+ rng +:+ "/" +:+ tot))
    with (rng +:+ String "/" tot).
  now rewrite (SplitN2_char_app rng tot "/" Hn).
Qed.

(** X8: a Content-Range written from numbers parses back to them.  For a
    start that is not negative and any end and total, all within [int],
    the three forms of the header that [uploadFileContent] documents,
    "bytes a-b/t", "bytes a-b/*" and "bytes */t" with the numbers in
    decimal, are accepted and yield exactly these numbers, the flags
    telling which of them are known, and -1 for the unknown ones. *)
Theorem parseContentRange_round_trip (a b t : Z) :
  0 <= a <= maxInt -> minInt <= b <= maxInt -> minInt <= t <= maxInt ->
  parseContentRange ("bytes " +:+ (fmt_d a +:+ "-" +:+ fmt_d b) +:+ "/" +:+ fmt_d t)
  = (mkContentRange true true a b t, None)
  /\ parseContentRange ("bytes " +:+ (fmt_d a +:+ "-" +:+ fmt_d b) +:+ "/" +:+ "*")
     = (mkContentRange true false a b (-1), None)
  /\ parseContentRange ("bytes " +:+ "*" +:+ "/" +:+ fmt_d t)
     = (mkContentRange false true (-1) (-1) t, None).
Proof.
  intros Ha Hb Ht.
  assert (Hslash : ~ contains (fmt_d a +:+ "-" +:+ fmt_d b) "/").
  { intros [H|H]%contains_char_app.
    - revert H. apply fmt_d_no_char; [reflexivity | right; discriminate].
    - change ("-" +:+ fmt_d b)%string with (String "-" (fmt_d b)) in H.
      apply contains_cons in H as [[x Hx]|H]; [discriminate|].
      revert H. apply fmt_d_no_char; [reflexivity | right; discriminate]. }
  assert (Hstar : ~ contains "*" "/").
  { intros Hc. apply Contains_iff in Hc. discriminate. }
  split; [|split].
  - rewrite (parse_after_prefix _ _ Hslash), (parse_range_numbers a b Ha Hb).
    cbv beta iota zeta. now rewrite (parse_total_number t _ Ht).
  - rewrite (parse_after_prefix _ _ Hslash), (parse_range_numbers a b Ha Hb).
    reflexivity.
  - rewrite (parse_after_prefix _ _ Hstar).
    change (parseContentRange_range "*" contentRange_zero)
      with (mkContentRange false false (-1) (-1) 0, false).
    cbv beta iota zeta. now rewrite (parse_total_number t _ Ht).
Qed.

Lemma parseContentRange_round_trip_witness :
  0 <= 1000 <= maxInt /\ minInt <= 1999 <= maxInt /\ minInt <= 2600 <= maxInt
  /\ parseContentRange "bytes 1000-1999/2600"
     = (mkContentRange true true 1000 1999 2600, None).
Proof.
  assert (Ha : 0 <= 1000 <= maxInt) by (vm_compute; split; discriminate).
  assert (Hb : minInt <= 1999 <= maxInt) by (vm_compute; split; discriminate).
  assert (Ht : minInt <= 2600 <= maxInt) by (vm_compute; split; discriminate).
  do 3 (split; [assumption|]).
  exact (proj1 (parseContentRange_round_trip 1000 1999 2600 Ha Hb Ht)).
Defined.

End ParserRoundTrip.

(** ** The digests *)

Section DigestExtras.

Import Upload.

(** X9: the digests have a fixed size.  Whatever the content, the CRC32C
    checksum is 4 bytes and the MD5 hash 16 bytes long, and their base64
    forms, as stored in [Crc32c] and [Md5Hash], are 8 and 24 characters
    long and end in "==". *)
Theorem digest_sizes (content : list byte) :
  length (crc32cChecksum content) = 4%nat
  /\ length (md5Hash content) = 16%nat
  /\ String.length (encodedCrc32cChecksum content) = 8%nat
  /\ String.length (encodedMd5Hash content) = 24%nat
  /\ slice_from 6 (encodedCrc32cChecksum content) = "=="%string
  /\ slice_from 22 (encodedMd5Hash content) = "=="%string.
Proof. repeat split; reflexivity. Qed.

Lemma not32_involutive (x : Z) : not32 (not32 x) = x.
Proof.
  unfold not32. now rewrite Z.lxor_assoc, Z.lxor_nilpotent, Z.lxor_0_r.
Qed.

Lemma crc32_Update_app (crc : Z) (tab : Z -> Z) (a b : list byte) :
  crc32_Update crc tab (a ++ b) = crc32_Update (crc32_Update crc tab a) tab b.
Proof.
  unfold crc32_Update. now rewrite not32_involutive, fold_left_app.
Qed.

(** X10: the checksum can be continued.  The CRC32C of a content followed
    by a chunk is the CRC32C state of the content updated with the chunk
    alone, so that the checksum [uploadFileContent] recomputes over the
    whole accumulated content after each chunk is the one an incremental
    update from the previous checksum value would give. *)
Theorem crc32c_incremental (obj : Object) (content : list byte) (r : Request) :
  crc32cChecksum (Content obj ++ content)
  = be32 (crc32_Update (crc32_Update 0 crc32cTable (Content obj))
            crc32cTable content)
  /\ Crc32c (append_chunk obj content r)
     = encodedChecksum
         (be32 (crc32_Update (crc32_Update 0 crc32cTable (Content obj))
                  crc32cTable content)).
Proof.
  split.
  - unfold crc32cChecksum. now rewrite crc32_Update_app.
  - change (Crc32c (append_chunk obj content r))
      with (encodedChecksum
              (be32 (crc32_Update 0 crc32cTable (Content obj ++ content)))).
    now rewrite crc32_Update_app.
Qed.

End DigestExtras.

(** ** More on the chunks of a resumable upload *)

Section ChunkExtras.

Import Upload.

Lemma finish_commit {B : Type} `{Backend B} (s : Server B) (r : Request)
    (uploadID : string) (obj : Object) (h : gmap string (list string)) :
  uploads (fst (uploadFileContent_finish s r uploadID obj true h))
  = delete uploadID (uploads s)
  /\ backend (fst (uploadFileContent_finish s r uploadID obj true h))
     = fst (createObject (backend s) obj)
  /\ URL (fst (uploadFileContent_finish s r uploadID obj true h)) = URL s.
Proof.
  unfold uploadFileContent_finish. cbn [backend set_uploads].
  destruct (createObject (backend s) obj) as [b [o [e|]]]; cbn; auto.
Qed.

Lemma finish_keep {B : Type} `{Backend B} (s : Server B) (r : Request)
    (uploadID : string) (obj : Object) (h : gmap string (list string)) :
  fst (uploadFileContent_finish s r uploadID obj false h)
  = set_uploads (<[uploadID := obj]> (uploads s)) s.
Proof. reflexivity. Qed.

(** The ways in which [uploadFileContent] can leave the server. *)
Lemma uploadFileContent_state {B : Type} `{Backend B} (s : Server B) (r : Request) :
  let id := mux_Var r "uploadId" in
  let s' := fst (uploadFileContent s r) in
  s' = s
  \/ (exists obj content,
        uploads s !! id = Some obj
        /\ loadContent (Body r) = (content, None)
        /\ ((s' = set_uploads (<[id := append_chunk obj content r]> (uploads s)) s)
            \/ (uploads s' = delete id (uploads s)
                /\ backend s' = fst (createObject (backend s) (append_chunk obj content r))
                /\ URL s' = URL s))).
Proof.
  intros id s'. subst s'.
  destruct (uploads s !! id) as [obj|] eqn:Hs;
    [|left; now rewrite (uploadFileContent_unknown s r Hs)].
  destruct (loadContent (Body r)) as [content [err|]] eqn:Hb;
    [left; now rewrite (uploadFileContent_read_error s r obj content err Hs Hb)|].
  rewrite (uploadFileContent_decided s r obj content Hs Hb).
  destruct (chunk_decision r _) as [[h [|]]|]; [| |now left].
  - right. exists obj, content. split; [reflexivity|]. split; [reflexivity|].
    right. apply finish_commit.
  - right. exists obj, content. split; [reflexivity|]. split; [reflexivity|].
    left. apply finish_keep.
Qed.

(** X11: a chunk touches its own session only.  Whatever the request,
    [uploadFileContent] leaves the server's address and every session
    other than the one named in the request as they were; it opens no
    session (a request for a session that does not exist changes
    nothing); and it hands an object to the backend only together with
    the removal of the session. *)
Theorem uploadFileContent_isolation {B : Type} `{Backend B}
    (s : Server B) (r : Request) :
  let id := mux_Var r "uploadId" in
  let s' := fst (uploadFileContent s r) in
  URL s' = URL s
  /\ (forall id', id' <> id -> uploads s' !! id' = uploads s !! id')
  /\ (uploads s !! id = None -> s' = s)
  /\ (backend s' = backend s
      \/ (uploads s' !! id = None
          /\ exists obj, backend s' = fst (createObject (backend s) obj))).
Proof.
  intros id s'.
  destruct (uploadFileContent_state s r)
    as [Hsame | (obj & content & Hs & Hb & [Hkeep | (Hup & Hbk & Hurl)])];
    fold id s' in Hsame || fold id s' in Hkeep || fold id s' in Hup, Hbk, Hurl.
  - rewrite Hsame. repeat split; auto.
  - rewrite Hkeep. cbn [URL uploads backend set_uploads].
    repeat split; auto.
    + intros id' Hne. now rewrite lookup_insert_ne.
    + fold id in Hs. congruence.
  - split; [exact Hurl|]. split; [|split].
    + intros id' Hne. rewrite Hup. now rewrite lookup_delete_ne.
    + fold id in Hs. congruence.
    + right. split; [rewrite Hup; apply lookup_delete_eq | eauto].
Qed.

(** X12: what a chunk writes has the digests of its content.  If
    [uploadFileContent] changes the object of the session, the new object
    has the CRC32C and MD5 of its content, and that content is the old
    one followed by the body of the request; and if it hands an object to
    the backend, that object has them too. *)
Theorem uploadFileContent_digests {B : Type} `{Backend B}
    (s : Server B) (r : Request) :
  let id := mux_Var r "uploadId" in
  let s' := fst (uploadFileContent s r) in
  (forall o, uploads s' !! id = Some o ->
     uploads s !! id = Some o
     \/ (digests_match o
         /\ exists old, uploads s !! id = Some old
              /\ Content o = Content old ++ fst (loadContent (Body r))))
  /\ (backend s' = backend s
      \/ exists o, digests_match o
           /\ backend s' = fst (createObject (backend s) o)).
Proof.
  intros id s'.
  destruct (uploadFileContent_state s r)
    as [Hsame | (obj & content & Hs & Hb & [Hkeep | (Hup & Hbk & Hurl)])];
    fold id s' in Hsame || fold id s' in Hkeep || fold id s' in Hup, Hbk, Hurl.
  - rewrite Hsame. split; auto.
  - rewrite Hkeep. cbn [uploads backend set_uploads]. split; [|now left].
    intros o. rewrite lookup_insert_eq. intros [= <-]. right.
    split; [split; reflexivity|]. exists obj. rewrite Hb. auto.
  - split.
    + intros o. rewrite Hup, lookup_delete_eq. discriminate.
    + right. exists (append_chunk obj content r).
      split; [split; reflexivity | exact Hbk].
Qed.

End ChunkExtras.

Section CommitRules.

Import Upload.

Lemma unknown_total_known_range (cr : string) (p : contentRange) :
  parseContentRange cr = (p, None) -> KnownTotal p = false -> KnownRange p = true.
Proof.
  intros Hp Hk.
  destruct (parseContentRange_success cr p Hp) as (rng & tot & _ & _ & _ & Ht).
  destruct Ht as [(_ & _ & _ & Hr) | (_ & _ & Hk')]; congruence.
Qed.

Lemma parse_nonempty (cr : string) (p : contentRange) :
  parseContentRange cr = (p, None) -> String.eqb cr "" = false.
Proof. intros Hp. apply String.eqb_neq. intros ->. discriminate. Qed.

(** X13: which chunks commit, by the form of Content-Range.  For a chunk
    of an existing session whose body is read: if the header parses with
    an unknown total ("bytes a-b/*", a chunk of a stream that goes on),
    the chunk never commits: the session is overwritten with the extended
    object and the backend is not touched.  If the header parses with an
    unknown range ("bytes */t", the end of a stream), or if there is no
    Content-Range header, the chunk always commits: the session is
    removed and the extended object is handed to the backend, whatever
    the total says and however many bytes have arrived. *)
Theorem chunk_commit_rules {B : Type} `{Backend B}
    (s : Server B) (r : Request) (obj : Object) (content : list byte) :
  uploads s !! mux_Var r "uploadId" = Some obj ->
  loadContent (Body r) = (content, None) ->
  let id := mux_Var r "uploadId" in
  let cr := Header_Get (Header r) "Content-Range" in
  let obj' := append_chunk obj content r in
  let s' := fst (uploadFileContent s r) in
  (forall p, parseContentRange cr = (p, None) -> KnownTotal p = false ->
     s' = set_uploads (<[id := obj']> (uploads s)) s)
  /\ (cr = ""%string
      \/ (exists p, parseContentRange cr = (p, None) /\ KnownRange p = false) ->
      uploads s' = delete id (uploads s)
      /\ backend s' = fst (createObject (backend s) obj')).
Proof.
  intros Hs Hb id cr obj' s'. subst s'.
  rewrite (uploadFileContent_decided s r obj content Hs Hb).
  unfold chunk_decision. fold cr obj' id. split.
  - intros p Hp Hk. rewrite (parse_nonempty cr p Hp), Hp.
    unfold commit_decision.
    rewrite (unknown_total_known_range cr p Hp Hk), Hk. reflexivity.
  - intros [Hcr | (p & Hp & Hk)].
    + rewrite Hcr. cbn [String.eqb].
      destruct (finish_commit s r id obj' ∅) as (Hu & Hbk & _). auto.
    + rewrite (parse_nonempty cr p Hp), Hp. unfold commit_decision. rewrite Hk.
      destruct (finish_commit s r id obj'
                  (Header_Set ∅ "Range"
                     ("bytes=0-" +:+ fmt_d (Z.of_nat (length (Content obj ++ content))))))
        as (Hu & Hbk & _). auto.
Qed.

Lemma chunk_commit_rules_witness :
  let r := chunk_request "id" [("Content-Range", "bytes 0-0/*")]%string
             (mkReader ["a"%byte] None) in
  uploads sample_server !! mux_Var r "uploadId" = Some sample_partial
  /\ loadContent (Body r) = (["a"%byte], None)
  /\ fst (uploadFileContent sample_server r)
     = set_uploads (<["id"%string := append_chunk sample_partial ["a"%byte] r]>
                      (uploads sample_server)) sample_server.
Proof.
  intros r.
  assert (Hs : uploads sample_server !! mux_Var r "uploadId" = Some sample_partial)
    by (vm_compute; reflexivity).
  assert (Hb : loadContent (Body r) = (["a"%byte], None)) by reflexivity.
  split; [exact Hs|]. split; [exact Hb|].
  destruct (chunk_commit_rules sample_server r sample_partial ["a"%byte] Hs Hb)
    as [Hstream _].
  apply (Hstream (mkContentRange true false 0 0 (-1))); vm_compute; reflexivity.
Defined.

End CommitRules.

(** ** Simple and signed uploads *)

Section DirectUploads.

Import Upload.

Lemma store_and_reply_Store (s : Server Store.Server) (obj : Object) :
  store_and_reply s obj
  = (set_backend (Store.CreateObject (backend s) obj) s, jsonResponse_data obj).
Proof. reflexivity. Qed.

(** X14: a simple upload can be read back.  With a name in the query and
    a body that can be read, [simpleUpload] into the store of [object.go]
    answers with the object and no error; [GetObject] and the download
    handler then return it; its content is the body, its digests are
    those of the body, its content type is the Content-Type header and
    its content encoding the query parameter; the sessions are not
    touched. *)
Theorem simpleUpload_round_trip (s : Server Store.Server) (bucketName : string)
    (r r' : Request) (body : list byte) :
  Values_Get (Query r) "name" <> ""%string ->
  ioutil_ReadAll (Body r) = (body, None) ->
  mux_Var r' "bucketName" = bucketName ->
  mux_Var r' "objectName" = Values_Get (Query r) "name" ->
  let s' := fst (simpleUpload s bucketName r) in
  let resp := snd (simpleUpload s bucketName r) in
  exists obj,
    resp = jsonResponse_data obj
    /\ Store.GetObject (backend s') bucketName (Values_Get (Query r) "name")
       = (obj, None)
    /\ Download.downloadObject (backend s') r'
       = Download.mkResponseWriter StatusOK ∅ body
    /\ Content obj = body
    /\ digests_match obj
    /\ ContentType obj = Header_Get (Header r) "Content-Type"
    /\ ContentEncoding obj = Values_Get (Query r) "contentEncoding"
    /\ ACL obj = getObjectACL (Values_Get (Query r) "predefinedAcl")
    /\ uploads s' = uploads s.
Proof.
  intros Hname Hbody Hb' Hn' s' resp. subst s' resp.
  unfold simpleUpload. apply String.eqb_neq in Hname. rewrite Hname, Hbody.
  rewrite store_and_reply_Store. cbn [fst snd backend set_backend uploads].
  eexists. split; [reflexivity|].
  match goal with
  | |- context [Store.CreateObject ?st ?o] =>
      pose proof (GetObject_CreateObject st o) as Hget
  end.
  cbn [BucketName Name] in Hget.
  split; [exact Hget|].
  split.
  - unfold Download.downloadObject. rewrite Hb', Hn', Hget. reflexivity.
  - repeat split.
Qed.

End DirectUploads.

Section DirectUploadsRun.

Import Upload.

Lemma simpleUpload_round_trip_witness :
  let r := mkRequest "POST" {[ "bucketName"%string := "bucket"%string ]}
             (<["name"%string := ["obj"%string]]>
                {[ "uploadType"%string := ["media"%string] ]})
             {[ "Content-Type"%string := ["text/plain"%string] ]}
             (mkReader ["h"; "i"]%byte None) in
  let r' := mkRequest "GET"
              (<["bucketName"%string := "bucket"%string]>
                 {[ "objectName"%string := "obj"%string ]})
              ∅ ∅ (mkReader [] None) in
  Values_Get (Query r) "name" <> ""%string
  /\ ioutil_ReadAll (Body r) = (["h"; "i"]%byte, None)
  /\ Download.downloadObject (backend (fst (simpleUpload sample_server "bucket" r))) r'
     = Download.mkResponseWriter StatusOK ∅ ["h"; "i"]%byte.
Proof.
  intros r r'.
  assert (Hn : Values_Get (Query r) "name" <> ""%string)
    by (vm_compute; discriminate).
  assert (Hb : ioutil_ReadAll (Body r) = (["h"; "i"]%byte, None)) by reflexivity.
  split; [exact Hn|]. split; [exact Hb|].
  destruct (simpleUpload_round_trip sample_server "bucket" r r' _ Hn Hb)
    as (obj & _ & _ & Hd & _); [vm_compute; reflexivity.. |].
  exact Hd.
Defined.

End DirectUploadsRun.

Section SignedUploads.

Import Upload.

#[local] Arguments String.append !_ _ / : simpl nomatch.

Lemma slice_from_length (n : nat) (s : string) :
  String.length (slice_from n s) = (String.length s - n)%nat.
Proof.
  revert s; induction n as [|n IH]; intros [|c s]; cbn; auto.
Qed.

(** [strings.TrimPrefix] changes a string exactly if it starts with the
    (non-empty) prefix, and then it returns what follows the prefix. *)
Lemma TrimPrefix_changes (s p : string) :
  p <> ""%string ->
  (strings_TrimPrefix s p <> s <-> has_prefix s p)
  /\ (has_prefix s p -> s = p +:+ strings_TrimPrefix s p).
Proof.
  intros Hp. unfold strings_TrimPrefix.
  destruct (strings_HasPrefix s p) eqn:Hh.
  - apply HasPrefix_iff in Hh as Hh'. destruct Hh' as [t ->].
    rewrite slice_from_app. split; [|reflexivity].
    split; [intros _; now exists t|]. intros _ Heq.
    apply (f_equal String.length) in Heq. rewrite append_length in Heq.
    destruct p; [congruence | cbn in Heq; lia].
  - assert (Hn : ~ has_prefix s p).
    { intros H%HasPrefix_iff. congruence. }
    split; [|intros H; contradiction]. split; [intros H; now destruct H | contradiction].
Qed.

Lemma to_lower_idem (c : ascii) : to_lower (to_lower c) = to_lower c.
Proof. destruct c as [[] [] [] [] [] [] [] []]; reflexivity. Qed.

Lemma to_upper_lower (c : ascii) : to_upper (to_lower c) = to_upper c.
Proof. destruct c as [[] [] [] [] [] [] [] []]; reflexivity. Qed.

Lemma token_byte_ascii (c : ascii) :
  validHeaderFieldByte c = true -> (Z.of_N (N_of_ascii c) <? 128) = true.
Proof.
  destruct c as [[] [] [] [] [] [] [] []]; vm_compute;
    first [reflexivity | discriminate].
Qed.

Lemma token_isASCII (s : string) : is_token s -> isASCII s = true.
Proof.
  unfold is_token. induction s as [|c s IH]; [reflexivity|].
  cbn [string_forallb isASCII]. intros [Hc Hs]%andb_true_iff.
  now rewrite (token_byte_ascii c Hc), IH.
Qed.

Lemma canonical_case_lower (upper : bool) (s : string) :
  canonical_case upper (lower_ASCII s) = canonical_case upper s.
Proof.
  revert upper. induction s as [|c s IH]; intros upper; [reflexivity|].
  cbn [lower_ASCII canonical_case].
  destruct upper; rewrite ?to_upper_lower, ?to_lower_idem, IH; reflexivity.
Qed.

(** Header names that are tokens and differ in case only have the same
    canonical form, so [Header.Get] returns the same for them. *)
Lemma Header_Get_lower `{GoLib} (h : gmap string (list string)) (k k' : string) :
  is_token k -> is_token k' ->
  strings_ToLower k = strings_ToLower k' ->
  Header_Get h k = Header_Get h k'.
Proof.
  intros Hk Hk' Heq. unfold strings_ToLower in Heq.
  rewrite (token_isASCII k Hk), (token_isASCII k' Hk') in Heq.
  unfold Header_Get, CanonicalMIMEHeaderKey.
  unfold is_token in Hk, Hk'. rewrite Hk, Hk'.
  now rewrite <- (canonical_case_lower true k), Heq, canonical_case_lower.
Qed.

(** The entries that the loop of [signedUpload] leaves, for any sequence
    of keys. *)
Lemma signed_metaData_entries `{GoLib} (h : gmap string (list string))
    (keys : list string) :
  (forall k v, signed_metaData keys h !! k = Some v ->
     exists key, key ∈ keys
       /\ strings_ToLower key = ("x-goog-meta-" +:+ k)%string
       /\ v = Header_Get h key)
  /\ (forall key k, key ∈ keys ->
        strings_ToLower key = ("x-goog-meta-" +:+ k)%string ->
        is_Some (signed_metaData keys h !! k)).
Proof.
  unfold signed_metaData.
  induction keys as [|x keys [IHa IHb]] using rev_ind.
  { split.
    - intros k v Hk. cbn in Hk. now rewrite lookup_empty in Hk.
    - intros key k Hin. now apply elem_of_nil in Hin. }
  rewrite fold_left_app. cbn [fold_left].
  match goal with
  | |- context [fold_left ?f keys ∅] => set (m := fold_left f keys ∅) in *
  end.
  destruct (TrimPrefix_changes (strings_ToLower x) "x-goog-meta-")
    as [Hch Hsplit]; [discriminate|].
  destruct (String.eqb_spec (strings_TrimPrefix (strings_ToLower x) "x-goog-meta-")
              (strings_ToLower x)) as [Heq|Hne]; cbn [negb].
  - assert (Hnp : ~ has_prefix (strings_ToLower x) "x-goog-meta-").
    { intros Hp. now apply (proj2 Hch) in Hp. }
    split.
    + intros k v Hk. destruct (IHa k v Hk) as (key & Hin & Hl & Hv).
      exists key. split; [|now split]. apply elem_of_app. now left.
    + intros key k [Hin|Hin%list_elem_of_singleton]%elem_of_app Hl.
      * now apply (IHb key).
      * subst key. exfalso. apply Hnp. rewrite Hl. now exists k.
  - apply (proj1 Hch) in Hne as Hp. specialize (Hsplit Hp).
    split.
    + intros k v Hk.
      destruct (decide (strings_TrimPrefix (strings_ToLower x) "x-goog-meta-" = k))
        as [<-|Hk'].
      * rewrite lookup_insert_eq in Hk. injection Hk as <-.
        exists x. split; [|split; [exact Hsplit | reflexivity]].
        apply elem_of_app. right. now apply list_elem_of_singleton.
      * rewrite lookup_insert_ne in Hk by exact Hk'.
        destruct (IHa k v Hk) as (key & Hin & Hl & Hv).
        exists key. split; [|now split]. apply elem_of_app. now left.
    + intros key k Hin Hl.
      destruct (decide (strings_TrimPrefix (strings_ToLower x) "x-goog-meta-" = k))
        as [<-|Hk'].
      * rewrite lookup_insert_eq. eauto.
      * rewrite lookup_insert_ne by exact Hk'.
        apply elem_of_app in Hin as [Hin|Hin%list_elem_of_singleton].
        -- now apply (IHb key).
        -- subst key. exfalso. apply Hk'.
           rewrite Hl in Hsplit at 1. now apply append_inj_l in Hsplit.
Qed.

Lemma range_of_elem (keys : list string) (h : gmap string (list string))
    (key : string) :
  range_of keys h -> (key ∈ keys <-> is_Some (h !! key)).
Proof.
  unfold range_of. intros ->. rewrite list_elem_of_fmap. split.
  - intros ([k v] & -> & Hin). apply elem_of_map_to_list in Hin. now exists v.
  - intros [v Hv]. exists (key, v). split; [reflexivity|].
    now apply elem_of_map_to_list.
Qed.

(** X15: the metadata of a signed upload.  Whatever the order in which
    the range over the request headers yields their names: every entry of
    the metadata that [signedUpload] collects comes from a header whose
    name, put in lower case by [strings.ToLower], is "x-goog-meta-"
    followed by the key, and its value is what [Get] returns for that
    header; conversely every such header gives an entry; and without such
    headers the metadata is empty.  If moreover every header name is a
    token, as in a request that [net/http] has parsed, the metadata do not
    depend on that order. *)
Theorem signed_metaData_spec `{GoLib} (h : gmap string (list string))
    (range_Header : list string) :
  range_of range_Header h ->
  (forall k v, signed_metaData range_Header h !! k = Some v ->
     exists key, is_Some (h !! key)
       /\ strings_ToLower key = ("x-goog-meta-" +:+ k)%string
       /\ v = Header_Get h key)
  /\ (forall key k, is_Some (h !! key) ->
        strings_ToLower key = ("x-goog-meta-" +:+ k)%string ->
        is_Some (signed_metaData range_Header h !! k))
  /\ ((forall key, is_Some (h !! key) ->
         ~ has_prefix (strings_ToLower key) "x-goog-meta-") ->
      signed_metaData range_Header h = ∅)
  /\ ((forall key, is_Some (h !! key) -> is_token key) ->
      forall range_Header',
        range_of range_Header' h ->
        signed_metaData range_Header' h = signed_metaData range_Header h).
Proof.
  intros Hrange.
  assert (Hfrom : forall keys, range_of keys h ->
            forall k v, signed_metaData keys h !! k = Some v ->
            exists key, is_Some (h !! key)
              /\ strings_ToLower key = ("x-goog-meta-" +:+ k)%string
              /\ v = Header_Get h key).
  { intros keys Hk k v Hkv.
    destruct (proj1 (signed_metaData_entries h keys) k v Hkv)
      as (key & Hin & Hl & Hv).
    exists key. split; [|now split]. now apply (range_of_elem keys h key Hk). }
  assert (Hto : forall keys, range_of keys h ->
            forall key k, is_Some (h !! key) ->
            strings_ToLower key = ("x-goog-meta-" +:+ k)%string ->
            is_Some (signed_metaData keys h !! k)).
  { intros keys Hk key k Hin Hl.
    apply (proj2 (signed_metaData_entries h keys) key k); [|exact Hl].
    now apply (range_of_elem keys h key Hk). }
  split; [exact (Hfrom _ Hrange)|]. split; [exact (Hto _ Hrange)|]. split.
  - intros Hnone. apply map_empty. intros k.
    apply eq_None_not_Some. intros [v Hv].
    destruct (Hfrom _ Hrange k v Hv) as (key & Hin & Hl & _).
    apply (Hnone key Hin). rewrite Hl. now exists k.
  - intros Htok keys' Hrange'. apply map_eq. intros k.
    assert (Hone : forall keys1 keys2, range_of keys1 h -> range_of keys2 h ->
              forall v, signed_metaData keys1 h !! k = Some v ->
              signed_metaData keys2 h !! k = Some v).
    { intros keys1 keys2 H1 H2 v Hv.
      destruct (Hfrom _ H1 k v Hv) as (key & Hin & Hl & ->).
      destruct (Hto _ H2 key k Hin Hl) as [v' Hv'].
      destruct (Hfrom _ H2 k v' Hv') as (key' & Hin' & Hl' & ->).
      rewrite Hv'. f_equal.
      apply Header_Get_lower; [now apply Htok | now apply Htok | congruence]. }
    apply option_eq. intros v. split; now apply Hone.
Qed.

Lemma signed_metaData_spec_witness :
  let h : gmap string (list string) :=
    <["X-Goog-Meta-Color"%string := ["red"%string]]>
      {[ "Content-Encoding"%string := ["gzip"%string] ]} in
  range_of ["X-Goog-Meta-Color"; "Content-Encoding"]%string h
  /\ range_of ["Content-Encoding"; "X-Goog-Meta-Color"]%string h
  /\ @signed_metaData sample_GoLib ["Content-Encoding"; "X-Goog-Meta-Color"]%string h
     = @signed_metaData sample_GoLib ["X-Goog-Meta-Color"; "Content-Encoding"]%string h.
Proof.
  intros h.
  assert (H1 : range_of ["X-Goog-Meta-Color"; "Content-Encoding"]%string h)
    by (unfold range_of; vm_compute; first [reflexivity | apply perm_swap]).
  assert (H2 : range_of ["Content-Encoding"; "X-Goog-Meta-Color"]%string h)
    by (unfold range_of; vm_compute; first [reflexivity | apply perm_swap]).
  split; [exact H1|]. split; [exact H2|].
  destruct (signed_metaData_spec (H := sample_GoLib) h _ H1) as (_ & _ & _ & Hord).
  apply Hord; [|exact H2].
  intros key [v Hv]. apply elem_of_map_to_list in Hv.
  vm_compute in Hv.
  inversion Hv as [|? ? ? Hv1]; subst; [reflexivity|].
  inversion Hv1 as [|? ? ? Hv2]; subst; [reflexivity|].
  inversion Hv2.
Defined.

End SignedUploads.

Section SignedUploadStores.

Import Upload.

(** X16: a signed upload can be read back.  With a body that can be
    read, [signedUpload] into the store of [object.go] stores the object
    under the name of the route, which it does not check, with the body
    as content and matching digests; the content encoding is the query
    parameter or, if that is empty, the Content-Encoding header; and
    whatever the order in which the range yields the header names, the
    metadata have an entry for every header whose name in lower case is
    "x-goog-meta-" followed by the key, each entry with the value that
    [Get] returns for such a header, and no other entry. *)
Theorem signedUpload_round_trip `{GoLib} (s : Server Store.Server)
    (bucketName : string) (r : Request) (range_Header : list string)
    (body : list byte) :
  ioutil_ReadAll (Body r) = (body, None) ->
  range_of range_Header (Header r) ->
  let s' := fst (signedUpload s bucketName r range_Header) in
  let resp := snd (signedUpload s bucketName r range_Header) in
  exists obj,
    resp = jsonResponse_data obj
    /\ Store.GetObject (backend s') bucketName (mux_Var r "objectName")
       = (obj, None)
    /\ Content obj = body
    /\ digests_match obj
    /\ ContentEncoding obj
       = (if String.eqb (Values_Get (Query r) "contentEncoding") ""
          then Header_Get (Header r) "Content-Encoding"
          else Values_Get (Query r) "contentEncoding")
    /\ (forall k v, Metadata obj !! k = Some v ->
          exists key, is_Some (Header r !! key)
            /\ strings_ToLower key = ("x-goog-meta-" +:+ k)%string
            /\ v = Header_Get (Header r) key)
    /\ (forall key k, is_Some (Header r !! key) ->
          strings_ToLower key = ("x-goog-meta-" +:+ k)%string ->
          is_Some (Metadata obj !! k))
    /\ uploads s' = uploads s.
Proof.
  intros Hbody Hrange s' resp. subst s' resp.
  unfold signedUpload. rewrite Hbody, store_and_reply_Store.
  cbn [fst snd backend set_backend uploads].
  match goal with
  | |- context [Store.CreateObject ?st ?o] =>
      pose proof (GetObject_CreateObject st o) as Hget
  end.
  cbn [BucketName Name] in Hget.
  destruct (signed_metaData_entries (Header r) range_Header) as [Ha Hb].
  eexists. split; [reflexivity|]. split; [exact Hget|].
  cbn [Content ContentEncoding Metadata].
  split; [reflexivity|]. split; [split; reflexivity|]. split; [reflexivity|].
  split; [|split; [|reflexivity]].
  - intros k v Hkv. destruct (Ha k v Hkv) as (key & Hin & Hl & Hv).
    exists key. split; [|now split].
    now apply (range_of_elem range_Header (Header r) key Hrange).
  - intros key k Hin Hl. apply (Hb key k); [|exact Hl].
    now apply (range_of_elem range_Header (Header r) key Hrange).
Qed.

Lemma signedUpload_round_trip_witness :
  let r := mkRequest "PUT"
             (<["bucketName"%string := "bucket"%string]>
                {[ "objectName"%string := "obj"%string ]})
             {[ "X-Goog-Algorithm"%string := ["GOOG4-RSA-SHA256"%string] ]}
             (<["X-Goog-Meta-Color"%string := ["red"%string]]>
                {[ "Content-Encoding"%string := ["gzip"%string] ]})
             (mkReader ["h"; "i"]%byte None) in
  let range_Header := ["Content-Encoding"; "X-Goog-Meta-Color"]%string in
  ioutil_ReadAll (Body r) = (["h"; "i"]%byte, None)
  /\ range_of range_Header (Header r)
  /\ exists obj,
       Store.GetObject
         (backend (fst (@signedUpload sample_GoLib _ _ sample_server "bucket" r
                          range_Header)))
         "bucket" "obj" = (obj, None)
       /\ Content obj = ["h"; "i"]%byte
       /\ ContentEncoding obj = "gzip"%string
       /\ is_Some (Metadata obj !! "color"%string).
Proof.
  intros r range_Header.
  assert (Hb : ioutil_ReadAll (Body r) = (["h"; "i"]%byte, None)) by reflexivity.
  assert (Hr : range_of range_Header (Header r))
    by (unfold range_of; vm_compute; first [reflexivity | apply perm_swap]).
  split; [exact Hb|]. split; [exact Hr|].
  destruct (signedUpload_round_trip (H := sample_GoLib) sample_server "bucket" r
              range_Header _ Hb Hr)
    as (obj & _ & Hget & Hc & _ & He & _ & Hm & _).
  exists obj. split; [exact Hget|]. split; [exact Hc|].
  split; [rewrite He; vm_compute; reflexivity|].
  apply (Hm "X-Goog-Meta-Color"%string); vm_compute; eauto.
Defined.

End SignedUploadStores.

(** ** Upload ids *)

Section UploadIds.

Import Upload.

Lemma byte_to_Z_range (b : byte) : 0 <= byte_to_Z b < 256.
Proof.
  unfold byte_to_Z. pose proof (Byte.to_N_bounded b). lia.
Qed.

Lemma byte_of_to_Z (b : byte) : byte_of_Z (byte_to_Z b) = b.
Proof.
  unfold byte_of_Z. pose proof (byte_to_Z_range b).
  rewrite Z.mod_small by lia. unfold byte_to_Z.
  now rewrite N2Z.id, Byte.of_to_N.
Qed.

Lemma hex_digit_cases (z : Z) :
  0 <= z < 16 ->
  is_hex_digit (hex_digit z) = true /\ hex_value (hex_digit z) = z.
Proof.
  intros Hz.
  assert (Hc : z = 0 \/ z = 1 \/ z = 2 \/ z = 3 \/ z = 4 \/ z = 5 \/ z = 6
               \/ z = 7 \/ z = 8 \/ z = 9 \/ z = 10 \/ z = 11 \/ z = 12
               \/ z = 13 \/ z = 14 \/ z = 15) by lia.
  repeat (destruct Hc as [-> | Hc]; [split; reflexivity|]).
  subst z. split; reflexivity.
Qed.

Lemma unhex_fmt_x (raw : list byte) : unhex (fmt_x raw) = raw.
Proof.
  induction raw as [|b raw IH]; [reflexivity|].
  cbn [fmt_x unhex]. rewrite IH. f_equal.
  pose proof (byte_to_Z_range b) as Hb.
  destruct (hex_digit_cases (byte_to_Z b / 16)) as [_ ->];
    [split; [apply Z.div_pos; lia | apply Z.div_lt_upper_bound; lia]|].
  destruct (hex_digit_cases (byte_to_Z b mod 16)) as [_ ->];
    [apply Z.mod_pos_bound; lia|].
  rewrite <- Z.div_mod by lia. apply byte_of_to_Z.
Qed.

(** X17: the form of an upload id.  When [rand.Read] succeeds,
    [generateUploadID] returns two lower-case hexadecimal digits for each
    random byte, 32 characters for the 16 bytes it asks for, and the id
    spells the bytes: different bytes give different ids.  When
    [rand.Read] fails, it returns the empty id and that error. *)
Theorem generateUploadID_format (raw : list byte) :
  generateUploadID (raw, None) = (fmt_x raw, None)
  /\ String.length (fmt_x raw) = (2 * length raw)%nat
  /\ string_forallb is_hex_digit (fmt_x raw) = true
  /\ unhex (fmt_x raw) = raw
  /\ (forall raw', fmt_x raw = fmt_x raw' -> raw = raw')
  /\ (forall err, generateUploadID (raw, Some err) = (""%string, Some err)).
Proof.
  split; [reflexivity|]. split; [|split; [|split; [|split]]].
  - induction raw as [|b raw IH]; cbn [fmt_x String.length length]; lia.
  - induction raw as [|b raw IH]; [reflexivity|].
    cbn [fmt_x string_forallb]. rewrite IH.
    pose proof (byte_to_Z_range b) as Hb.
    destruct (hex_digit_cases (byte_to_Z b / 16)) as [-> _];
      [split; [apply Z.div_pos; lia | apply Z.div_lt_upper_bound; lia]|].
    destruct (hex_digit_cases (byte_to_Z b mod 16)) as [-> _];
      [apply Z.mod_pos_bound; lia|].
    reflexivity.
  - apply unhex_fmt_x.
  - intros raw' Heq. rewrite <- (unhex_fmt_x raw), <- (unhex_fmt_x raw').
    now rewrite Heq.
  - reflexivity.
Qed.

End UploadIds.

(** ** Initiation and dispatch *)

Section InitiateExtras.

Import Upload.



(** X19: what the dispatcher turns away, and where it sends a signed
    request.  If the bucket does not exist, [insertObject] answers
    NotFound and changes nothing, whatever else the request says.  If the
    bucket exists and the upload type, from the query or else from
    X-Goog-Upload-Protocol: resumable, is none of media, multipart and
    resumable, then the request is answered with BadRequest, unchanged
    state, unless it carries X-Goog-Algorithm and is a POST, which
    initiates a resumable upload, or a PUT, which is a signed upload. *)
Theorem insertObject_dispatch `{GoLib} {B : Type} `{Backend B}
    (s : Server B) (r : Request) (rand_Read : list byte * option error)
    (range_Header : list string) :
  let bucketName := mux_Var r "bucketName" in
  let uploadType := Values_Get (Query r) "uploadType" in
  let other :=
    uploadType <> "media"%string /\ uploadType <> "multipart"%string
    /\ uploadType <> "resumable"%string
    /\ (uploadType = ""%string ->
        Header_Get (Header r) "X-Goog-Upload-Protocol" <> "resumable"%string) in
  let signed := Values_Get (Query r) "X-Goog-Algorithm" <> ""%string in
  (backend_GetBucket (backend s) bucketName <> None ->
   insertObject s r rand_Read range_Header
   = (s, Returns (jsonResponse_status StatusNotFound)))
  /\ (backend_GetBucket (backend s) bucketName = None -> other ->
      (~ signed \/ (Method r <> "POST"%string /\ Method r <> "PUT"%string) ->
       insertObject s r rand_Read range_Header
       = (s, Returns (jsonResponse_error StatusBadRequest "invalid uploadType")))
      /\ (signed -> Method r = "POST"%string ->
          insertObject s r rand_Read range_Header
          = (fst (resumableUpload s bucketName r rand_Read),
             Returns (snd (resumableUpload s bucketName r rand_Read))))
      /\ (signed -> Method r = "PUT"%string ->
          insertObject s r rand_Read range_Header
          = (fst (signedUpload s bucketName r range_Header),
             Returns (snd (signedUpload s bucketName r range_Header))))).
Proof.
  intros bucketName uploadType other signed. subst other signed.
  unfold insertObject. fold bucketName uploadType. split.
  - destruct (backend_GetBucket (backend s) bucketName); [reflexivity | congruence].
  - intros -> (Hm & Hp & Hr & Hh).
    assert (Hut : (if String.eqb uploadType ""
                      && String.eqb (Header_Get (Header r) "X-Goog-Upload-Protocol")
                           uploadTypeResumable
                   then uploadTypeResumable else uploadType) = uploadType).
    { destruct (String.eqb_spec uploadType "") as [He|He]; [|reflexivity].
      cbn [andb]. apply Hh in He. apply String.eqb_neq in He.
      unfold uploadTypeResumable. now rewrite He. }
    rewrite Hut. unfold uploadTypeMedia, uploadTypeMultipart, uploadTypeResumable.
    apply String.eqb_neq in Hm, Hp, Hr. rewrite Hm, Hp, Hr.
    split; [|split].
    + intros [Hs | [Hpost Hput]].
      * destruct (String.eqb_spec (Values_Get (Query r) "X-Goog-Algorithm") "")
          as [Ha|Ha]; [reflexivity | contradiction].
      * apply String.eqb_neq in Hpost, Hput. rewrite Hpost, Hput.
        now rewrite !andb_false_r.
    + intros Hs%String.eqb_neq ->. rewrite Hs. reflexivity.
    + intros Hs%String.eqb_neq ->. rewrite Hs. reflexivity.
Qed.

End InitiateExtras.

(** ** Multipart uploads *)

Section MultipartExtras.

Import Upload.

Lemma multipart_loop_contents `{GoLib} (parts : list Part) (final : error)
    (m : multipartMetadata) (c : list byte) (ct : string) :
  Forall readable parts ->
  multipart_loop parts final (mkVars (Some m) c ct)
  = (final,
     mkVars (Some m)
       (from_option (fun p => delivered (PartBody p)) c (last parts))
       (from_option (fun p => Header_Get (PartHeader p) contentTypeHeader) ct
          (last parts))).
Proof.
  intros Hall. revert c ct.
  induction Hall as [|part rest Hpart _ IH]; intros c ct; [reflexivity|].
  cbn [multipart_loop mp_metadata]. unfold loadContent, ioutil_ReadAll.
  unfold readable in Hpart. rewrite Hpart. cbn [fmap option_fmap option_map].
  rewrite IH, last_cons. now destruct (last rest).
Qed.

Lemma multipartUpload_parts `{GoLib} {B : Type} `{Backend B}
    (s : Server B) (bucketName : string) (r : Request)
    (params : gmap string string) (meta : Part) (contents : list Part)
    (m : multipartMetadata) :
  mime_ParseMediaType (Header_Get (Header r) "Content-Type") = (params, None) ->
  multipart_parts (Body r) (default ""%string (params !! "boundary"%string))
  = (meta :: contents, io_EOF) ->
  loadMetadata (PartBody meta) = (m, None) ->
  Forall readable contents ->
  let objName :=
    if String.eqb (Values_Get (Query r) "name") ""
    then Meta.Name m else Values_Get (Query r) "name" in
  let content :=
    from_option (fun p => delivered (PartBody p)) [] (last contents) in
  let contentType :=
    from_option (fun p => Header_Get (PartHeader p) "Content-Type")
      (Meta.ContentType m) (last contents) in
  let stored :=
    store_and_reply s
      (mkObject bucketName objName content contentType (Meta.ContentEncoding m)
         (encodedCrc32cChecksum content) (encodedMd5Hash content)
         (getObjectACL (Values_Get (Query r) "predefinedAcl"))
         (Meta.Metadata m)) in
  multipartUpload s bucketName r
  = match checkUploadPreconditions s r bucketName objName with
    | Some resp => (s, Returns resp)
    | None => (fst stored, Returns (snd stored))
    end.
Proof.
  intros Hmime Hparts Hmeta Hall objName content contentType stored.
  unfold multipartUpload. unfold contentTypeHeader. rewrite Hmime, Hparts.
  cbn [multipart_loop mp_metadata]. rewrite Hmeta.
  rewrite (multipart_loop_contents contents io_EOF m _ _ Hall).
  fold content. unfold contentTypeHeader. fold contentType.
  rewrite bool_decide_eq_true_2 by reflexivity.
  cbn [negb mp_metadata mp_content mp_contentType from_option].
  fold objName.
  destruct (checkUploadPreconditions s r bucketName objName) as [resp|].
  - now destruct (String.eqb (Values_Get (Query r) "name") "").
  - fold stored.
    destruct (String.eqb (Values_Get (Query r) "name") ""); subst stored;
      destruct (store_and_reply s _); reflexivity.
Qed.

(** X20: of the parts of a multipart upload, the last one is the object.
    When the first part decodes as the metadata, the parts after it can
    all be read, the parts end with [io.EOF] and the preconditions pass,
    [multipartUpload] stores one object: its content is the body of the
    last part after the metadata alone, whatever the parts in between
    held, or empty if there is none; its content type is the Content-Type
    header of that last part, or the one of the metadata if there is
    none. *)
Theorem multipartUpload_last_part_wins `{GoLib} {B : Type} `{Backend B}
    (s : Server B) (bucketName : string) (r : Request)
    (params : gmap string string) (meta : Part) (contents : list Part)
    (m : multipartMetadata) :
  mime_ParseMediaType (Header_Get (Header r) "Content-Type") = (params, None) ->
  multipart_parts (Body r) (default ""%string (params !! "boundary"%string))
  = (meta :: contents, io_EOF) ->
  loadMetadata (PartBody meta) = (m, None) ->
  Forall readable contents ->
  let objName :=
    if String.eqb (Values_Get (Query r) "name") ""
    then Meta.Name m else Values_Get (Query r) "name" in
  checkUploadPreconditions s r bucketName objName = None ->
  let content :=
    from_option (fun p => delivered (PartBody p)) [] (last contents) in
  let contentType :=
    from_option (fun p => Header_Get (PartHeader p) "Content-Type")
      (Meta.ContentType m) (last contents) in
  let stored :=
    store_and_reply s
      (mkObject bucketName objName content contentType (Meta.ContentEncoding m)
         (encodedCrc32cChecksum content) (encodedMd5Hash content)
         (getObjectACL (Values_Get (Query r) "predefinedAcl"))
         (Meta.Metadata m)) in
  multipartUpload s bucketName r = (fst stored, Returns (snd stored)).
Proof.
  intros Hmime Hparts Hmeta Hall objName Hpre content contentType stored.
  rewrite (multipartUpload_parts s bucketName r params meta contents m
             Hmime Hparts Hmeta Hall).
  fold objName. now rewrite Hpre.
Qed.

Lemma multipartUpload_last_part_wins_witness :
  let r := multipart_request two_part_body [] in
  let s' := fst (@multipartUpload sample_GoLib2 _ _ sample_server "bucket" r) in
  Forall readable [text_part "hello"]
  /\ fst (Store.GetObject (backend s') "bucket" "obj")
     = mkObject "bucket" "obj" (bytes_of_string "hello") "text/plain" ""
         (encodedCrc32cChecksum (bytes_of_string "hello"))
         (encodedMd5Hash (bytes_of_string "hello"))
         (getObjectACL "") ∅.
Proof.
  intros r s'.
  assert (Hall : Forall readable [text_part "hello"])
    by (repeat constructor).
  split; [exact Hall|]. subst s'.
  rewrite (multipartUpload_last_part_wins (H := sample_GoLib2) sample_server
             "bucket" r {[ "boundary"%string := "xyz"%string ]}
             (json_part "{}") [text_part "hello"] Meta.zero);
    [| vm_compute; reflexivity .. | exact Hall | vm_compute; reflexivity ].
  vm_compute. reflexivity.
Defined.

(** X21: an error of the metadata decode ends the parts.  When the decode
    of the first part fails, no further part is read.  With an error other
    than [io.EOF], the response carries its message and nothing is stored.
    With [io.EOF], which an empty first part gives, the error is taken for
    the end of the parts: whatever parts follow and however the multipart
    reader would have ended, an object with empty content and the fields
    of the decoded value is stored, if the preconditions pass. *)
Theorem multipartUpload_metadata_error `{GoLib} {B : Type} `{Backend B}
    (s : Server B) (bucketName : string) (r : Request)
    (params : gmap string string) (part : Part) (rest : list Part)
    (final : error) (m : multipartMetadata) (err : error) :
  mime_ParseMediaType (Header_Get (Header r) "Content-Type") = (params, None) ->
  multipart_parts (Body r) (default ""%string (params !! "boundary"%string))
  = (part :: rest, final) ->
  loadMetadata (PartBody part) = (m, Some err) ->
  let objName :=
    if String.eqb (Values_Get (Query r) "name") ""
    then Meta.Name m else Values_Get (Query r) "name" in
  let stored :=
    store_and_reply s
      (mkObject bucketName objName [] (Meta.ContentType m)
         (Meta.ContentEncoding m)
         (encodedCrc32cChecksum []) (encodedMd5Hash [])
         (getObjectACL (Values_Get (Query r) "predefinedAcl"))
         (Meta.Metadata m)) in
  (err <> io_EOF ->
   multipartUpload s bucketName r
   = (s, Returns (jsonResponse_error 0 (Error err))))
  /\ (err = io_EOF ->
      checkUploadPreconditions s r bucketName objName = None ->
      multipartUpload s bucketName r = (fst stored, Returns (snd stored))).
Proof.
  intros Hmime Hparts Hmeta objName stored.
  unfold multipartUpload. unfold contentTypeHeader. rewrite Hmime, Hparts.
  cbn [multipart_loop mp_metadata mp_content]. rewrite Hmeta. split.
  - intros Hne. now rewrite bool_decide_eq_false_2.
  - intros -> Hpre. rewrite bool_decide_eq_true_2 by reflexivity.
    cbn [negb mp_metadata mp_content mp_contentType from_option].
    fold objName. rewrite Hpre. fold stored.
    destruct (String.eqb (Values_Get (Query r) "name") ""); subst stored;
      destruct (store_and_reply s _); reflexivity.
Qed.

Lemma multipartUpload_metadata_error_witness :
  let r := multipart_request empty_part_body [] in
  let s' := fst (@multipartUpload sample_GoLib2 _ _ sample_server "bucket" r) in
  @loadMetadata sample_GoLib2 (PartBody (json_part "")) = (Meta.zero, Some io_EOF)
  /\ fst (Store.GetObject (backend s') "bucket" "obj")
     = mkObject "bucket" "obj" [] "" ""
         (encodedCrc32cChecksum []) (encodedMd5Hash []) (getObjectACL "") ∅.
Proof.
  intros r s'.
  assert (Hm : @loadMetadata sample_GoLib2 (PartBody (json_part ""))
               = (Meta.zero, Some io_EOF)) by (vm_compute; reflexivity).
  split; [exact Hm|]. subst s'.
  destruct (multipartUpload_metadata_error (H := sample_GoLib2) sample_server
              "bucket" r {[ "boundary"%string := "xyz"%string ]}
              (json_part "") [] io_EOF Meta.zero io_EOF) as [_ Heof];
    [vm_compute; reflexivity | vm_compute; reflexivity | exact Hm |].
  rewrite Heof; [| reflexivity | vm_compute; reflexivity].
  vm_compute. reflexivity.
Defined.

(** X22: a multipart upload with ifGenerationMatch=0 creates and never
    replaces.  Over the store of [object.go], with a name in the query and
    parts as in X20: if the store already has the object, the request is
    answered with PreconditionFailed and changes nothing; if it does not,
    the object is stored, [GetObject] returns it with the content of the
    last part, and the same request sent again is answered with
    PreconditionFailed and leaves that object as it is. *)
Theorem multipartUpload_create_only `{GoLib}
    (s : Server Store.Server) (bucketName : string) (r : Request)
    (params : gmap string string) (meta : Part) (contents : list Part)
    (m : multipartMetadata) :
  mime_ParseMediaType (Header_Get (Header r) "Content-Type") = (params, None) ->
  multipart_parts (Body r) (default ""%string (params !! "boundary"%string))
  = (meta :: contents, io_EOF) ->
  loadMetadata (PartBody meta) = (m, None) ->
  Forall readable contents ->
  Values_Get (Query r) "name" <> ""%string ->
  Values_Get (Query r) "ifGenerationMatch" = "0"%string ->
  let name := Values_Get (Query r) "name" in
  let refused :=
    Returns (jsonResponse_error StatusPreconditionFailed "Precondition failed") in
  let s1 := fst (multipartUpload s bucketName r) in
  (snd (Store.GetObject (backend s) bucketName name) = None ->
   multipartUpload s bucketName r = (s, refused))
  /\ (snd (Store.GetObject (backend s) bucketName name) <> None ->
      snd (Store.GetObject (backend s1) bucketName name) = None
      /\ Content (fst (Store.GetObject (backend s1) bucketName name))
         = from_option (fun p => delivered (PartBody p)) [] (last contents)
      /\ multipartUpload s1 bucketName r = (s1, refused)).
Proof.
  intros Hmime Hparts Hmeta Hall Hname Hif name refused s1.
  assert (Hpre : forall s0 : Server Store.Server,
            checkUploadPreconditions s0 r bucketName name
            = match snd (Store.GetObject (backend s0) bucketName name) with
              | None => Some (jsonResponse_error StatusPreconditionFailed
                                "Precondition failed")
              | Some _ => None
              end).
  { intros s0. unfold checkUploadPreconditions. now rewrite Hif. }
  assert (Hrun : forall s0 : Server Store.Server,
            multipartUpload s0 bucketName r
            = match checkUploadPreconditions s0 r bucketName name with
              | Some resp => (s0, Returns resp)
              | None =>
                  (set_backend
                     (Store.CreateObject (backend s0)
                        (mkObject bucketName name
                           (from_option (fun p => delivered (PartBody p)) []
                              (last contents))
                           (from_option
                              (fun p => Header_Get (PartHeader p) "Content-Type")
                              (Meta.ContentType m) (last contents))
                           (Meta.ContentEncoding m)
                           (encodedCrc32cChecksum
                              (from_option (fun p => delivered (PartBody p)) []
                                 (last contents)))
                           (encodedMd5Hash
                              (from_option (fun p => delivered (PartBody p)) []
                                 (last contents)))
                           (getObjectACL (Values_Get (Query r) "predefinedAcl"))
                           (Meta.Metadata m))) s0,
                   Returns
                     (jsonResponse_data
                        (mkObject bucketName name
                           (from_option (fun p => delivered (PartBody p)) []
                              (last contents))
                           (from_option
                              (fun p => Header_Get (PartHeader p) "Content-Type")
                              (Meta.ContentType m) (last contents))
                           (Meta.ContentEncoding m)
                           (encodedCrc32cChecksum
                              (from_option (fun p => delivered (PartBody p)) []
                                 (last contents)))
                           (encodedMd5Hash
                              (from_option (fun p => delivered (PartBody p)) []
                                 (last contents)))
                           (getObjectACL (Values_Get (Query r) "predefinedAcl"))
                           (Meta.Metadata m))))
              end).
  { intros s0.
    rewrite (multipartUpload_parts s0 bucketName r params meta contents m
               Hmime Hparts Hmeta Hall).
    apply String.eqb_neq in Hname. rewrite Hname. reflexivity. }
  split.
  - intros Hex. now rewrite Hrun, Hpre, Hex.
  - intros Hno. subst s1. rewrite (Hrun s), (Hpre s).
    destruct (snd (Store.GetObject (backend s) bucketName name)) as [e|] eqn:He;
      [clear Hno | contradiction].
    cbn [fst backend set_backend].
    match goal with
    | |- context [Store.CreateObject ?st ?o] =>
        pose proof (GetObject_CreateObject st o) as Hget
    end.
    cbn [BucketName Name] in Hget.
    rewrite Hrun, Hpre. cbn [backend set_backend]. rewrite Hget.
    repeat split.
Qed.

Lemma multipartUpload_create_only_witness :
  let r := multipart_request two_part_body [("ifGenerationMatch", "0")]%string in
  let s1 := fst (@multipartUpload sample_GoLib2 _ _ sample_server "bucket" r) in
  Values_Get (Query r) "ifGenerationMatch" = "0"%string
  /\ snd (Store.GetObject (backend sample_server) "bucket" "obj") <> None
  /\ Content (fst (Store.GetObject (backend s1) "bucket" "obj"))
     = bytes_of_string "hello"
  /\ @multipartUpload sample_GoLib2 _ _ s1 "bucket" r
     = (s1, Returns (jsonResponse_error StatusPreconditionFailed
                       "Precondition failed")).
Proof.
  intros r s1.
  assert (Hif : Values_Get (Query r) "ifGenerationMatch" = "0"%string)
    by (vm_compute; reflexivity).
  assert (Hno : snd (Store.GetObject (backend sample_server) "bucket" "obj") <> None)
    by (vm_compute; discriminate).
  split; [exact Hif|]. split; [exact Hno|].
  destruct (multipartUpload_create_only (H := sample_GoLib2) sample_server
              "bucket" r {[ "boundary"%string := "xyz"%string ]}
              (json_part "{}") [text_part "hello"] Meta.zero) as [_ Hnew];
    [vm_compute; reflexivity | vm_compute; reflexivity | vm_compute; reflexivity
    | repeat constructor | vm_compute; discriminate | exact Hif |].
  destruct (Hnew Hno) as (_ & Hc & Hagain).
  split; [exact Hc | exact Hagain].
Defined.

End MultipartExtras.

(** ** What a request can change *)

Section DispatchFrame.

Import Upload.

Context `{GoLib} {B : Type} `{Backend B}.

Lemma store_and_reply_frame (s : Server B) (obj : Object) :
  URL (fst (store_and_reply s obj)) = URL s
  /\ uploads (fst (store_and_reply s obj)) = uploads s
  /\ status (snd (store_and_reply s obj)) = 0.
Proof.
  unfold store_and_reply.
  destruct (createObject (backend s) obj) as [b [o [e|]]]; now cbn.
Qed.

Lemma simpleUpload_frame (s : Server B) (bucketName : string) (r : Request) :
  URL (fst (simpleUpload s bucketName r)) = URL s
  /\ uploads (fst (simpleUpload s bucketName r)) = uploads s
  /\ (status (snd (simpleUpload s bucketName r)) <> 0 ->
      fst (simpleUpload s bucketName r) = s).
Proof.
  unfold simpleUpload.
  destruct (String.eqb _ ""); [now cbn|].
  destruct (ioutil_ReadAll (Body r)) as [content [e|]]; [now cbn|].
  destruct (store_and_reply_frame s
              (mkObject bucketName (Values_Get (Query r) "name") content
                 (Header_Get (Header r) contentTypeHeader)
                 (Values_Get (Query r) "contentEncoding")
                 (encodedCrc32cChecksum content) (encodedMd5Hash content)
                 (getObjectACL (Values_Get (Query r) "predefinedAcl")) ∅))
    as (Hu & Hs & Hst).
  repeat split; [exact Hu | exact Hs | intros Hne; contradiction].
Qed.

Lemma signedUpload_frame (s : Server B) (bucketName : string) (r : Request)
    (range_Header : list string) :
  URL (fst (signedUpload s bucketName r range_Header)) = URL s
  /\ uploads (fst (signedUpload s bucketName r range_Header)) = uploads s
  /\ (status (snd (signedUpload s bucketName r range_Header)) <> 0 ->
      fst (signedUpload s bucketName r range_Header) = s).
Proof.
  unfold signedUpload.
  destruct (ioutil_ReadAll (Body r)) as [content [e|]]; [now cbn|].
  match goal with
  | |- context [store_and_reply s ?o] =>
      destruct (store_and_reply_frame s o) as (Hu & Hs & Hst)
  end.
  repeat split; [exact Hu | exact Hs | intros Hne; contradiction].
Qed.

Lemma resumableUpload_frame (s : Server B) (bucketName : string) (r : Request)
    (rand_Read : list byte * option error) :
  URL (fst (resumableUpload s bucketName r rand_Read)) = URL s
  /\ backend (fst (resumableUpload s bucketName r rand_Read)) = backend s
  /\ status (snd (resumableUpload s bucketName r rand_Read)) = 0.
Proof.
  unfold resumableUpload.
  destruct (loadMetadata (Body r)) as [m [e|]]; [now cbn|].
  destruct (generateUploadID rand_Read) as [uploadID [e|]]; now cbn.
Qed.

Lemma multipartUpload_frame (s : Server B) (bucketName : string) (r : Request) :
  URL (fst (multipartUpload s bucketName r)) = URL s
  /\ uploads (fst (multipartUpload s bucketName r)) = uploads s
  /\ (forall msg, snd (multipartUpload s bucketName r) = Panics msg ->
      fst (multipartUpload s bucketName r) = s)
  /\ (forall resp, snd (multipartUpload s bucketName r) = Returns resp ->
      status resp <> 0 -> fst (multipartUpload s bucketName r) = s).
Proof.
  unfold multipartUpload.
  destruct (mime_ParseMediaType _) as [params [e|]]; [now cbn|].
  destruct (multipart_parts _ _) as [parts final].
  destruct (multipart_loop _ _ _) as [err v].
  destruct (negb _); [now cbn|].
  destruct (mp_metadata v) as [m|].
  - destruct (checkUploadPreconditions _ _ _ _) as [resp|].
    + now cbn.
    + assert (Hgoal : forall o,
        let x := (let '(s', resp) := store_and_reply s o in (s', Returns resp)) in
        URL (fst x) = URL s /\ uploads (fst x) = uploads s
        /\ (forall msg, snd x = Panics msg -> fst x = s)
        /\ (forall resp, snd x = Returns resp -> status resp <> 0 -> fst x = s)).
      { intros o. destruct (store_and_reply_frame s o) as (Hu & Hs & Hst).
        destruct (store_and_reply s o) as [s1 resp1]. cbn in *.
        repeat split; [exact Hu | exact Hs | discriminate |].
        intros resp [= <-] Hne. contradiction. }
      apply Hgoal.
  - destruct (String.eqb _ ""); [now cbn|].
    destruct (checkUploadPreconditions _ _ _ _) as [resp|]; now cbn.
Qed.

(** X23: what one request to the upload endpoint can change.  Whatever
    the request, [insertObject] leaves the server's address alone and
    changes the backend or the table of resumable sessions, never both;
    and when it panics, or answers with a status of its own (NotFound,
    BadRequest, PreconditionFailed, NotImplemented), it has changed
    nothing at all. *)
Theorem insertObject_frame (s : Server B) (r : Request)
    (rand_Read : list byte * option error) (range_Header : list string) :
  let s' := fst (insertObject s r rand_Read range_Header) in
  let out := snd (insertObject s r rand_Read range_Header) in
  URL s' = URL s
  /\ (backend s' = backend s \/ uploads s' = uploads s)
  /\ (forall msg, out = Panics msg -> s' = s)
  /\ (forall resp, out = Returns resp -> status resp <> 0 -> s' = s).
Proof.
  intros s' out. subst s' out. unfold insertObject.
  destruct (backend_GetBucket _ _); [cbn; auto|].
  set (bucketName := mux_Var r "bucketName").
  pose proof (simpleUpload_frame s bucketName r) as (Hu1 & Hs1 & Hk1).
  pose proof (signedUpload_frame s bucketName r range_Header) as (Hu2 & Hs2 & Hk2).
  pose proof (resumableUpload_frame s bucketName r rand_Read) as (Hu3 & Hb3 & Hst3).
  pose proof (multipartUpload_frame s bucketName r) as (Hu4 & Hs4 & Hp4 & Hk4).
  assert (Hret : forall x : Server B * jsonResponse,
            URL (fst x) = URL s ->
            (backend (fst x) = backend s \/ uploads (fst x) = uploads s) ->
            (status (snd x) <> 0 -> fst x = s) ->
            URL (fst (fst x, Returns (snd x))) = URL s
            /\ (backend (fst (fst x, Returns (snd x))) = backend s
                \/ uploads (fst (fst x, Returns (snd x))) = uploads s)
            /\ (forall msg, snd (fst x, Returns (snd x)) = Panics msg ->
                fst (fst x, Returns (snd x)) = s)
            /\ (forall resp, snd (fst x, Returns (snd x)) = Returns resp ->
                status resp <> 0 -> fst (fst x, Returns (snd x)) = s)).
  { intros x Hu Hbs Hk. cbn [fst snd]. repeat split; try assumption.
    - discriminate.
    - intros resp [= <-]. exact Hk. }
  destruct (String.eqb _ uploadTypeMedia).
  { apply Hret; auto. }
  destruct (String.eqb _ uploadTypeMultipart).
  { repeat split; auto. }
  destruct (String.eqb _ uploadTypeResumable).
  { apply Hret; auto. intros Hne. contradiction. }
  destruct (_ && String.eqb (Method r) "POST").
  { apply Hret; auto. intros Hne. contradiction. }
  destruct (_ && String.eqb (Method r) "PUT").
  { apply Hret; auto. }
  cbn. auto.
Qed.

End DispatchFrame.
